(** * The execd runtime controller: a shallow embedding

    This development models the execution control plane of the execution
    daemon ([execd/pkg/runtime]): the session registry, the command
    executor's bookkeeping, the file-tail streamer, the kernel lookup, the
    interrupt path, the SQL executor and the extra-env loader.

    Conventions.
    - A Go [map] is a [gmap]; a map of pointers whose values are never nil
      is a map of records, and a nil pointer result is [None].
    - [int], [int64] and [time.Time] are [Z]; [*int] and [*time.Time] are
      [option Z].
    - File contents are [list byte]; session ids, paths and error messages
      are [string]; text that the code tokenises or trims is a list of
      Unicode code points ([text]).
    - An [error] is its message; a Go [(T, error)] result is [result T];
      a run-time panic is the [Panic] outcome.
    - The models follow the build for Unix ([//go:build !windows]). *)

From Stdlib Require Import ZArith Lia Bool Ascii String.
From Stdlib.Strings Require Import Byte.
From stdpp Require Import gmap strings list pretty.

Local Open Scope Z_scope.
#[local] Set Warnings "-clear-no-such-hyp".

(** ** Shared vocabulary *)

Definition error := string.

Inductive result (A : Type) : Type :=
| Ok (a : A)
| Err (e : error).
Arguments Ok {A} a.
Arguments Err {A} e.

(** What a call does when it may panic: it returns or it panics. *)
Inductive outcome (A : Type) : Type :=
| Return (a : A)
| Panic (msg : string).
Arguments Return {A} a.
Arguments Panic {A} msg.

(** Modelled from the spec: the type [Language] of [language.go], which is
    not among the sources. A language tag is a string and [String] gives
    it back. *)
Definition Language := string.

Definition Language_String (l : Language) : string := l.

(** ** The registry ([ctrl.go]) *)

Record jupyterKernel : Type := JupyterKernel {
  kernelID : string;
  language : Language
}.

Record commandKernel : Type := CommandKernel {
  pid : Z;
  stdoutPath : string;
  stderrPath : string;
  startedAt : Z;
  finishedAt : option Z;
  exitCode : option Z;
  errMsg : string;
  running : bool;
  isBackground : bool;
  content : string
}.

Record Controller : Type := MkController {
  baseURL : string;
  token : string;
  jupyterClientMap : gmap string jupyterKernel;
  defaultLanguageJupyterSessions : gmap Language string;
  commandClientMap : gmap string commandKernel
}.

Definition NewController (url tok : string) : Controller :=
  {| baseURL := url; token := tok;
     jupyterClientMap := ∅;
     defaultLanguageJupyterSessions := ∅;
     commandClientMap := ∅ |}.

Definition set_commandClientMap (m : gmap string commandKernel) (c : Controller)
  : Controller :=
  {| baseURL := baseURL c; token := token c;
     jupyterClientMap := jupyterClientMap c;
     defaultLanguageJupyterSessions := defaultLanguageJupyterSessions c;
     commandClientMap := m |}.

Definition set_jupyterClientMap (m : gmap string jupyterKernel) (c : Controller)
  : Controller :=
  {| baseURL := baseURL c; token := token c;
     jupyterClientMap := m;
     defaultLanguageJupyterSessions := defaultLanguageJupyterSessions c;
     commandClientMap := commandClientMap c |}.

Definition set_defaultSessions (m : gmap Language string) (c : Controller)
  : Controller :=
  {| baseURL := baseURL c; token := token c;
     jupyterClientMap := jupyterClientMap c;
     defaultLanguageJupyterSessions := m;
     commandClientMap := commandClientMap c |}.

(** [getJupyterKernel], [getCommandKernel]: a read under the read lock. A
    missing key gives the nil pointer. *)
Definition getJupyterKernel (c : Controller) (sessionID : string)
  : option jupyterKernel :=
  jupyterClientMap c !! sessionID.

Definition getCommandKernel (c : Controller) (sessionID : string)
  : option commandKernel :=
  commandClientMap c !! sessionID.

(** [storeJupyterKernel], [storeCommandKernel]: one write under the write
    lock. *)
Definition storeJupyterKernel (sessionID : string) (kernel : jupyterKernel)
    (c : Controller) : Controller :=
  set_jupyterClientMap (<[sessionID := kernel]> (jupyterClientMap c)) c.

Definition storeCommandKernel (sessionID : string) (kernel : commandKernel)
    (c : Controller) : Controller :=
  set_commandClientMap (<[sessionID := kernel]> (commandClientMap c)) c.

(** ** Command status ([command_status.go]) *)

Module Command.

Definition commandSnapshot (c : Controller) (session : string)
  : option commandKernel :=
  commandClientMap c !! session.

Record CommandStatus : Type := MkCommandStatus {
  st_Session : string;
  st_Running : bool;
  st_ExitCode : option Z;
  st_Error : string;
  st_StartedAt : Z;
  st_FinishedAt : option Z;
  st_Content : string
}.

Definition GetCommandStatus (c : Controller) (session : string)
  : result CommandStatus :=
  match commandSnapshot c session with
  | None => Err ("command not found: " +:+ session)
  | Some kernel =>
      Ok {| st_Session := session;
            st_Running := running kernel;
            st_ExitCode := exitCode kernel;
            st_Error := errMsg kernel;
            st_StartedAt := startedAt kernel;
            st_FinishedAt := finishedAt kernel;
            st_Content := content kernel |}
  end.

(** [markCommandFinished]: the whole body after [time.Now()] runs under the
    write lock, so it is one atomic update of the registry. [now] is the
    clock reading taken on entry. *)
Definition finish (code : Z) (msg : string) (now : Z) (kernel : commandKernel)
  : commandKernel :=
  {| pid := pid kernel;
     stdoutPath := stdoutPath kernel;
     stderrPath := stderrPath kernel;
     startedAt := startedAt kernel;
     finishedAt := Some now;
     exitCode := Some code;
     errMsg := msg;
     running := false;
     isBackground := isBackground kernel;
     content := content kernel |}.

Definition markCommandFinished (session : string) (code : Z) (msg : string)
    (now : Z) (c : Controller) : Controller :=
  match commandClientMap c !! session with
  | None => c
  | Some kernel =>
      set_commandClientMap
        (<[session := finish code msg now kernel]> (commandClientMap c)) c
  end.

(** *** The file system seen by the output reader

    [SeekBackgroundCommandOutput] opens the combined output file, seeks to
    [cursor], reads to the end and asks for the file offset. A path that is
    not in the map cannot be opened; [Seek] refuses a negative offset. On
    an error the Go function returns [(nil, -1, err)]. *)
Definition SeekBackgroundCommandOutput (c : Controller)
    (fs : gmap string (list byte)) (session : string) (cursor : Z)
  : result (list byte * Z) :=
  match commandSnapshot c session with
  | None => Err ("command not found: " +:+ session)
  | Some kernel =>
      if negb (isBackground kernel) then
        Err ("command " +:+ session +:+ " is not running in background")
      else
        match fs !! stdoutPath kernel with
        | None =>
            Err ("error open combined output file for command " +:+ session)
        | Some file =>
            if cursor <? 0 then Err "error seek file: invalid argument"
            else
              let data := drop (Z.to_nat cursor) file in
              let currentPos := cursor + Z.of_nat (length data) in
              Ok (data, currentPos)
        end
  end.

(** [file[a:b]]. *)
Definition slice (file : list byte) (a b : Z) : list byte :=
  take (Z.to_nat (b - a)) (drop (Z.to_nat a) file).

(** *** The command executors as sequences of registry updates

    [runCommand] and [runBackgroundCommand] touch the registry only through
    [storeCommandKernel] and [markCommandFinished]; each call takes the
    lock once. What the operating system answers to [cmd.Start] and
    [cmd.Wait] is an input. *)
Inductive startResult : Type :=
| StartOk (p : Z)
| StartErr (msg : string).

(** [cmd.Wait]: nil, an [exec.ExitError] with its exit code, or another
    error (recorded with exit code 1). *)
Inductive waitResult : Type :=
| WaitOk
| WaitExit (code : Z) (msg : string)
| WaitErr (msg : string).

(** One critical section of an executor: [storeCommandKernel] or
    [markCommandFinished]. *)
Inductive action : Type :=
| Store (session : string) (kernel : commandKernel)
| Mark (session : string) (code : Z) (msg : string).

Record commandRequest : Type := MkCommandRequest {
  req_session : string;
  req_Code : string;
  req_stdoutPath : string;
  req_stderrPath : string;
  req_startAt : Z
}.

Definition mark_of_wait (session : string) (w : waitResult) : action :=
  match w with
  | WaitOk => Mark session 0 ""
  | WaitExit code msg => Mark session code msg
  | WaitErr msg => Mark session 1 msg
  end.

Definition runCommand (r : commandRequest) (st : startResult) (w : waitResult)
  : list action :=
  match st with
  | StartErr _ => []
  | StartOk p =>
      [ Store (req_session r)
          {| pid := p;
             stdoutPath := req_stdoutPath r;
             stderrPath := req_stderrPath r;
             startedAt := req_startAt r;
             finishedAt := None;
             exitCode := None;
             errMsg := "";
             running := true;
             isBackground := false;
             content := req_Code r |};
        mark_of_wait (req_session r) w ]
  end.

Definition runBackgroundCommand (r : commandRequest) (st : startResult)
    (w : waitResult) : list action :=
  let kernel (p : Z) (run : bool) :=
    {| pid := p;
       stdoutPath := req_stdoutPath r;
       stderrPath := req_stderrPath r;
       startedAt := req_startAt r;
       finishedAt := None;
       exitCode := None;
       errMsg := "";
       running := run;
       isBackground := true;
       content := req_Code r |} in
  match st with
  | StartErr msg =>
      [ Store (req_session r) (kernel (-1) false);
        Mark (req_session r) 255 msg ]
  | StartOk p =>
      [ Store (req_session r) (kernel p true);
        mark_of_wait (req_session r) w ]
  end.

(** The daemon: the registry and, for every command in flight, the registry
    updates it still has to make. Requests arrive and goroutines take the
    lock in any order; a schedule lists that order. *)
Record system : Type := MkSystem {
  ctrl : Controller;
  threads : list (list action)
}.

Inductive event : Type :=
| ExecCommand (r : commandRequest) (st : startResult) (w : waitResult)
| ExecBackground (r : commandRequest) (st : startResult) (w : waitResult)
| Locked (i : nat) (now : Z).

Definition perform (a : action) (now : Z) (c : Controller) : Controller :=
  match a with
  | Store session kernel => storeCommandKernel session kernel c
  | Mark session code msg => markCommandFinished session code msg now c
  end.

Definition step (e : event) (s : system) : option system :=
  match e with
  | ExecCommand r st w =>
      Some {| ctrl := ctrl s; threads := threads s ++ [runCommand r st w] |}
  | ExecBackground r st w =>
      Some {| ctrl := ctrl s;
              threads := threads s ++ [runBackgroundCommand r st w] |}
  | Locked i now =>
      match threads s !! i with
      | Some (a :: rest) =>
          Some {| ctrl := perform a now (ctrl s);
                  threads := <[i := rest]> (threads s) |}
      | _ => None
      end
  end.

Fixpoint run (es : list event) (s : system) : option system :=
  match es with
  | [] => Some s
  | e :: es' =>
      match step e s with
      | Some s' => run es' s'
      | None => None
      end
  end.










End Command.

(** ** The file-tail streamer ([tailStdPipe], [readFromPos]) *)

Module Tail.

Definition LF : byte := x0a.
Definition CR : byte := x0d.

Definition isTerminator (b : byte) : bool := Byte.eqb b LF || Byte.eqb b CR.

Definition nonempty (l : list byte) : bool :=
  match l with
  | [] => false
  | _ :: _ => true
  end.

(** The read loop of [readFromPos]. [input] is what the reader still has to
    deliver, [buffer] the bytes of the line being assembled, [emitted] the
    arguments [onExecute] was called with so far, oldest first. The result
    is the final [emitted], [buffer] and [currentPos]. *)
Fixpoint read_loop (input buffer : list byte) (emitted : list (list byte))
    (currentPos : Z) (flushIncomplete : bool)
  : list (list byte) * list byte * Z :=
  match input with
  | [] =>
      if flushIncomplete && nonempty buffer
      then (emitted ++ [buffer], [], currentPos)
      else (emitted, buffer, currentPos)
  | b :: rest =>
      let currentPos := currentPos + 1 in
      if isTerminator b then
        if nonempty buffer
        then read_loop rest [] (emitted ++ [buffer]) currentPos flushIncomplete
        else read_loop rest buffer emitted currentPos flushIncomplete
      else read_loop rest (buffer ++ [b]) emitted currentPos flushIncomplete
  end.

(** [readFromPos]. [locked] says whether [TryLock] fails; [file] is [None]
    when the file cannot be opened and otherwise its contents at the time
    of the read. The error of [Seek] is dropped by the code, so a negative
    [startPos] leaves the offset at 0. After the loop has read to the end,
    [file.Seek(0, 1)] is the offset the reads started at plus what was
    read. The result is the lines handed to [onExecute] and the position
    returned. *)
Definition readFromPos (locked : bool) (file : option (list byte))
    (startPos : Z) (flushIncomplete : bool) : list (list byte) * Z :=
  if locked then ([], -1)
  else
    match file with
    | None => ([], startPos)
    | Some data =>
        let offset := if startPos <? 0 then 0 else startPos in
        let input := drop (Z.to_nat offset) data in
        let '(emitted, buffer, currentPos) :=
          read_loop input [] [] startPos flushIncomplete in
        let endPos := offset + Z.of_nat (length input) in
        if negb flushIncomplete && nonempty buffer
        then (emitted, currentPos - Z.of_nat (length buffer))
        else (emitted, endPos)
    end.

(** [tailStdPipe]: one periodic read per tick, each on the file as it is at
    that tick, then the last read when [done] is closed. The mutex is
    created by the call and used by this goroutine only, so [TryLock]
    succeeds. *)
Fixpoint tail_loop (ticks : list (list byte)) (final : list byte) (lastPos : Z)
  : list (list byte) :=
  match ticks with
  | [] => fst (readFromPos false (Some final) lastPos true)
  | snapshot :: ticks' =>
      let '(out, newPos) := readFromPos false (Some snapshot) lastPos false in
      out ++ tail_loop ticks' final newPos
  end.

Definition tailStdPipe (ticks : list (list byte)) (final : list byte)
  : list (list byte) :=
  tail_loop ticks final 0.

(** *** What the contract says

    The input is cut at every terminator; the last piece is the trailing
    partial line (empty when the input ends with a terminator). *)
Fixpoint pieces (s : list byte) : list (list byte) :=
  match s with
  | [] => [[]]
  | b :: rest =>
      if isTerminator b then [] :: pieces rest
      else
        match pieces rest with
        | p :: ps => (b :: p) :: ps
        | [] => [[b]]
        end
  end.

Definition partial (s : list byte) : list byte := List.last (pieces s) [].

Definition complete_lines (s : list byte) : list (list byte) :=
  filter (λ l, nonempty l = true) (removelast (pieces s)).

Definition all_lines (s : list byte) : list (list byte) :=
  filter (λ l, nonempty l = true) (pieces s).

(** The pieces of [buffer ++ s], given those of [s], when [buffer] holds
    the beginning of the first one. *)
Definition glue (buffer : list byte) (ps : list (list byte))
  : list (list byte) :=
  match ps with
  | p :: ps' => (buffer ++ p) :: ps'
  | [] => [buffer]
  end.

Definition unterminated (s : list byte) : Prop :=
  Forall (λ b, isTerminator b = false) s.

(** Nothing, or bytes up to and including a terminator. *)
Definition whole_lines (s : list byte) : Prop :=
  s = [] ∨ ∃ s' t, s = s' ++ [t] ∧ isTerminator t = true.

Definition flushed (part : list byte) : list (list byte) :=
  if nonempty part then [part] else [].

(** The file grows by appending: each snapshot is a prefix of the next. *)
Fixpoint append_only (ticks : list (list byte)) (final : list byte) : Prop :=
  match ticks with
  | [] => True
  | snapshot :: ticks' =>
      snapshot `prefix_of` match ticks' with [] => final | next :: _ => next end
      ∧ append_only ticks' final
  end.

End Tail.

(** ** Kernel contexts ([context.go]) *)

Module Context.

Record CodeContext : Type := MkCodeContext {
  ID : string;
  ctx_Language : Language
}.

(** [GetContext] reads [kernel.language] through the pointer returned by
    [getJupyterKernel]. *)
Definition GetContext (c : Controller) (session : string)
  : outcome CodeContext :=
  match getJupyterKernel c session with
  | None => Panic "runtime error: invalid memory address or nil pointer dereference"
  | Some kernel =>
      Return {| ID := session; ctx_Language := language kernel |}
  end.

(** What [CreateContext] and [createDefaultLanguageContext] do to the
    registry once the Jupyter server has created the session: [sessionID]
    and [kid] are the ids the server answered with. *)
Definition CreateContext (lang : Language) (sessionID kid : string)
    (c : Controller) : Controller :=
  storeJupyterKernel sessionID {| kernelID := kid; language := lang |} c.

Definition createDefaultLanguageContext (lang : Language)
    (sessionID kid : string) (c : Controller) : Controller :=
  set_jupyterClientMap
    (<[sessionID := {| kernelID := kid; language := lang |}]>
       (jupyterClientMap c))
    (set_defaultSessions
       (<[lang := sessionID]> (defaultLanguageJupyterSessions c)) c).

(** The [range] loops visit the map in an order Go leaves open;
    [map_to_list] fixes one. *)
Definition listAllContexts (c : Controller) : list CodeContext :=
  ((λ p, {| ID := p.1; ctx_Language := language p.2 |})
     <$> map_to_list (jupyterClientMap c))
  ++ ((λ p, {| ID := p.2; ctx_Language := p.1 |})
        <$> map_to_list (defaultLanguageJupyterSessions c)).

Definition listLanguageContexts (c : Controller) (lang : Language)
  : list CodeContext :=
  let contexts :=
    (λ p : string * jupyterKernel, {| ID := p.1; ctx_Language := lang |})
      <$> filter (λ p : string * jupyterKernel, language p.2 = lang)
            (map_to_list (jupyterClientMap c)) in
  let defaultContext := default "" (defaultLanguageJupyterSessions c !! lang) in
  if decide (defaultContext = "") then contexts
  else contexts ++ [ {| ID := defaultContext; ctx_Language := lang |} ].

(** Modelled from the spec: the [Language] constants of [language.go], which
    is not among the sources; the spec names them [command],
    [background-command] and [sql]. *)
Definition Command : Language := "command".
Definition BackgroundCommand : Language := "background-command".
Definition SQL : Language := "sql".

Definition ListContext (c : Controller) (lang : string)
  : result (list CodeContext) :=
  if decide (lang = Language_String Command
             ∨ lang = Language_String BackgroundCommand
             ∨ lang = Language_String SQL)
  then Err ("unsupported language context operation: " +:+ lang)
  else if decide (lang = "") then Ok (listAllContexts c)
  else Ok (listLanguageContexts c lang).

(** The registry after [n] explicit contexts and the default one. *)
Definition with_contexts (lang : Language) (explicit : list (string * string))
    (c : Controller) : Controller :=
  fold_left (λ acc p, CreateContext lang p.1 p.2 acc) explicit c.

End Context.

(** ** Kernel lookup ([searchKernel] in [jupyter.go]) *)

Module Kernel.

Record KernelSpecDetail : Type := MkKernelSpecDetail {
  spec_Language : string;
  DisplayName : string
}.

Record KernelSpecInfo : Type := MkKernelSpecInfo {
  Name : string;
  Spec : KernelSpecDetail
}.

Definition matches (lang : Language) (entry : string * KernelSpecInfo) : Prop :=
  entry.1 ≠ "python3" ∧ spec_Language (Spec entry.2) = Language_String lang.

#[global] Instance matches_dec lang entry : Decision (matches lang entry).
Proof. unfold matches. apply _. Defined.

(** One turn of the [range] loop over [specs.Kernelspecs]. *)
Definition visit (lang : Language) (kernelName : string)
    (entry : string * KernelSpecInfo) : string :=
  if decide (entry.1 = "python3") then kernelName
  else if decide (spec_Language (Spec entry.2) = Language_String lang)
       then entry.1
       else kernelName.

(** [specs] is the answer of [GetKernelSpecs]: an error, or the entries of
    the [Kernelspecs] map in the order the [range] loop visits them. *)
Definition searchKernel (specs : result (list (string * KernelSpecInfo)))
    (lang : Language) : result string :=
  match specs with
  | Err e => Err e
  | Ok visited =>
      if decide (length visited = 0%nat) then Err "no kernel specs found"
      else
        let kernelName := fold_left (visit lang) visited "" in
        if decide (kernelName = "") then Err "no kernel specs found"
        else Ok kernelName
  end.

(** A Python kernelspec called [name]. *)
Definition python (name : string) : string * KernelSpecInfo :=
  (name, {| Name := name;
            Spec := {| spec_Language := "python"; DisplayName := name |} |}).

(** The lookup as the spec words it: the first matching name. *)
Definition first_match (lang : Language) (visited : list (string * KernelSpecInfo))
  : option string :=
  fst <$> head (filter (matches lang) visited).

Definition last_match (lang : Language) (visited : list (string * KernelSpecInfo))
  : option string :=
  fst <$> last (filter (matches lang) visited).

End Kernel.

(** ** Interrupt ([interrupt.go], Unix) *)

Module Interrupt.

Inductive signal : Type :=
| SIGTERM
| SIGKILL
| SIGCHLD
| SIGURG
| Signal0
| OtherSignal (n : Z).

(** [os.Process.Signal] signals the one process with that pid;
    [syscall.Kill] with a negated pid signals every process of the group. *)
Inductive target : Type :=
| Process (p : Z)
| ProcessGroup (pgid : Z).

(** How the [select] on [process.Wait] against [time.After] ends. *)
Inductive waited : Type :=
| Exited (err : option error)
| TimedOut.

(** A computation that talks to the operating system and the Jupyter
    server: each constructor is one call, the continuation takes its
    answer. *)
Inductive prog (R : Type) : Type :=
| Done (r : R)
| InterruptKernel (kid : string) (k : option error → prog R)
| FindProcess (p : Z) (k : option error → prog R)
| Kill (t : target) (s : signal) (k : option error → prog R)
| AwaitExit (p : Z) (timeout_ms : Z) (k : waited → prog R)
| Sleep (ms : Z) (k : prog R).
Arguments Done {R} r.
Arguments InterruptKernel {R} kid k.
Arguments FindProcess {R} p k.
Arguments Kill {R} t s k.
Arguments AwaitExit {R} p timeout_ms k.
Arguments Sleep {R} ms k.

(** [strings.Contains] on error messages. *)
Fixpoint has_prefix (p s : string) : bool :=
  match p, s with
  | EmptyString, _ => true
  | String a p', String b s' => Ascii.eqb a b && has_prefix p' s'
  | String _ _, EmptyString => false
  end.

Fixpoint Contains (s sub : string) : bool :=
  has_prefix sub s ||
  match s with
  | EmptyString => false
  | String _ s' => Contains s' sub
  end.

Definition gone (e : error) : bool :=
  Contains e "already finished" || Contains e "no such process".

Definition still_running (p : Z) : error :=
  "process " +:+ pretty p +:+ " might still be running".

Definition kill_failed (p : Z) (e : error) : error :=
  "failed to kill process " +:+ pretty p +:+ ": " +:+ e.

(** The [for range 3] loop, [n] probes left. *)
Fixpoint confirm (p : Z) (n : nat) : prog (option error) :=
  match n with
  | O => Done (Some (still_running p))
  | S n' =>
      Kill (Process p) Signal0 (λ r,
        match r with
        | Some e => if gone e then Done None else Sleep 50 (confirm p n')
        | None => Sleep 50 (confirm p n')
        end)
  end.

Definition force (p : Z) : prog (option error) :=
  Kill (Process p) SIGKILL (λ r,
    match r with
    | Some e =>
        if Contains e "already finished" then Done None
        else Done (Some (kill_failed p e))
    | None => confirm p 3
    end).

Definition killPid (p : Z) : prog (option error) :=
  FindProcess p (λ r,
    match r with
    | Some e => Done (Some e)
    | None =>
        Kill (Process p) SIGTERM (λ r,
          match r with
          | Some e =>
              if Contains e "already finished" then Done None else force p
          | None =>
              AwaitExit p 3000 (λ w,
                match w with
                | Exited None => Done None
                | Exited (Some _) => force p
                | TimedOut => force p
                end)
          end)
    end).

Definition Interrupt (c : Controller) (sessionID : string)
  : prog (option error) :=
  match getJupyterKernel c sessionID with
  | Some kernel => InterruptKernel (kernelID kernel) (λ r, Done r)
  | None =>
      match getCommandKernel c sessionID with
      | Some kernel => killPid (pid kernel)
      | None => Done (Some "no such session")
      end
  end.

(** The signal relay of [runCommand]: a signal the daemon receives goes to
    the child's process group, except [SIGCHLD] and [SIGURG]. *)
Definition relay (childPid : Z) (s : signal) : prog unit :=
  match s with
  | SIGCHLD | SIGURG => Done tt
  | _ => Kill (ProcessGroup childPid) s (λ _, Done tt)
  end.

(** The world answers the [n]-th call. *)
Record world : Type := MkWorld {
  on_interrupt : nat → string → option error;
  on_find : nat → Z → option error;
  on_kill : nat → target → signal → option error;
  on_await : nat → Z → Z → waited
}.

Inductive event : Type :=
| EvInterruptKernel (kid : string)
| EvFind (p : Z)
| EvKill (t : target) (s : signal) (r : option error)
| EvAwait (p : Z) (timeout_ms : Z) (w : waited)
| EvSleep (ms : Z).

Fixpoint exec {R : Type} (m : prog R) (w : world) (n : nat) : list event * R :=
  match m with
  | Done r => ([], r)
  | InterruptKernel kid k =>
      let '(tr, r) := exec (k (on_interrupt w n kid)) w (S n) in
      (EvInterruptKernel kid :: tr, r)
  | FindProcess p k =>
      let '(tr, r) := exec (k (on_find w n p)) w (S n) in
      (EvFind p :: tr, r)
  | Kill t s k =>
      let a := on_kill w n t s in
      let '(tr, r) := exec (k a) w (S n) in
      (EvKill t s a :: tr, r)
  | AwaitExit p ms k =>
      let a := on_await w n p ms in
      let '(tr, r) := exec (k a) w (S n) in
      (EvAwait p ms a :: tr, r)
  | Sleep ms k =>
      let '(tr, r) := exec k w (S n) in
      (EvSleep ms :: tr, r)
  end.

Definition signals (tr : list event) : list (target * signal) :=
  omap (λ e, match e with EvKill t s _ => Some (t, s) | _ => None end) tr.


Definition to_group (ts : target * signal) : bool :=
  match ts.1 with
  | ProcessGroup _ => true
  | Process _ => false
  end.





(** The delays the code asks for: 50 ms sleeps, a 3 s wait. *)
Definition delay_ok (e : event) : Prop :=
  match e with
  | EvSleep ms => ms = 50
  | EvAwait _ ms _ => ms = 3000
  | _ => True
  end.


(** A command context and a world in which the child ignores every
    signal. *)
Definition sample_command (p : Z) : commandKernel :=
  {| pid := p; stdoutPath := "/tmp/s1.stdout"; stderrPath := "/tmp/s1.stderr";
     startedAt := 100; finishedAt := None; exitCode := None; errMsg := "";
     running := true; isBackground := false; content := "sleep 60; echo" |}.

Definition stubborn : world :=
  {| on_interrupt := λ _ _, None;
     on_find := λ _ _, None;
     on_kill := λ _ _ _, None;
     on_await := λ _ _ _, TimedOut |}.

End Interrupt.

(** ** Text ([strings], [unicode] and [os.Expand] of the Go library)

    A Go string that holds text is the list of its code points. *)

Module Text.

Definition rune := Z.
Abbreviation text := (list rune).

Definition rune_of_ascii (a : ascii) : rune := Z.of_N (N_of_ascii a).

Fixpoint of_string (s : string) : text :=
  match s with
  | EmptyString => []
  | String a s' => rune_of_ascii a :: of_string s'
  end.

Definition in_range (lo hi r : rune) : bool := (lo <=? r) && (r <=? hi).

(** [unicode.IsSpace]: the code points with the White_Space property. *)
Definition IsSpace (r : rune) : bool :=
  in_range 9 13 r || (r =? 32) || (r =? 133) || (r =? 160) || (r =? 5760)
  || in_range 8192 8202 r || (r =? 8232) || (r =? 8233) || (r =? 8239)
  || (r =? 8287) || (r =? 12288).

(** [strings.Fields]: the maximal runs of non-space code points. [cur] is
    the run being read. *)
Fixpoint fields_from (s cur : text) : list text :=
  match s with
  | [] => match cur with [] => [] | _ :: _ => [cur] end
  | r :: rest =>
      if IsSpace r then
        match cur with
        | [] => fields_from rest []
        | _ :: _ => cur :: fields_from rest []
        end
      else fields_from rest (cur ++ [r])
  end.

Definition Fields (s : text) : list text := fields_from s [].

(** [strings.TrimSpace]. *)
Fixpoint TrimLeft (s : text) : text :=
  match s with
  | [] => []
  | r :: rest => if IsSpace r then TrimLeft rest else s
  end.

Definition TrimSpace (s : text) : text := reverse (TrimLeft (reverse (TrimLeft s))).

(** [strings.Split(s, sep)] for a separator of one code point: never
    empty, the pieces between the separators. *)
Fixpoint Split (sep : rune) (s : text) : list text :=
  match s with
  | [] => [[]]
  | r :: rest =>
      if r =? sep then [] :: Split sep rest
      else
        match Split sep rest with
        | p :: ps => (r :: p) :: ps
        | [] => [[r]]
        end
  end.

(** [strings.SplitN(s, sep, 2)]: cut at the first separator, if any. *)
Fixpoint SplitN2 (sep : rune) (s : text) : list text :=
  match s with
  | [] => [[]]
  | r :: rest =>
      if r =? sep then [[]; rest]
      else
        match SplitN2 sep rest with
        | p :: ps => (r :: p) :: ps
        | [] => [[r]]
        end
  end.

Definition is_nil {A : Type} (l : list A) : bool :=
  match l with
  | [] => true
  | _ :: _ => false
  end.

Definition HasPrefix1 (s : text) (r : rune) : bool :=
  match s with
  | r' :: _ => r' =? r
  | [] => false
  end.

(** [strings.ToUpper] maps [unicode.ToUpper] over the code points. The
    table is the library's; on ASCII it is this one. *)
Definition ascii_upper (r : rune) : rune :=
  if in_range 97 122 r then r - 32 else r.

Definition ToUpper (upper : rune → rune) (s : text) : text := upper <$> s.

(** *** [os.Expand] *)

Definition isShellSpecialVar (c : rune) : bool :=
  (c =? 42) || (c =? 35) || (c =? 36) || (c =? 64) || (c =? 33) || (c =? 63)
  || (c =? 45) || in_range 48 57 c.

Definition isAlphaNum (c : rune) : bool :=
  (c =? 95) || in_range 48 57 c || in_range 97 122 c || in_range 65 90 c.

(** The position of the first closing brace at or after index [i]. *)
Fixpoint find_brace (s : text) (i : nat) : option nat :=
  match s with
  | [] => None
  | c :: rest => if c =? 125 then Some i else find_brace rest (S i)
  end.

(** [getShellName s]: the name that follows a dollar sign and how many
    code points it takes. [s] is not empty. *)
Definition special_braced (s1 : text) : option rune :=
  match s1 with
  | c1 :: c2 :: _ => if isShellSpecialVar c1 && (c2 =? 125) then Some c1 else None
  | _ => None
  end.

Fixpoint alnum_prefix (s : text) : text :=
  match s with
  | [] => []
  | c :: rest => if isAlphaNum c then c :: alnum_prefix rest else []
  end.

Definition getShellName (s : text) : text * nat :=
  match s with
  | [] => ([], 0%nat)
  | c0 :: s1 =>
      if c0 =? 123 then
        match special_braced s1 with
        | Some c1 => ([c1], 3%nat)
        | None =>
            match find_brace s1 1 with
            | Some i =>
                if (i =? 1)%nat then ([], 2%nat)
                else (take (i - 1) s1, S i)
            | None => ([], 1%nat)
            end
        end
      else if isShellSpecialVar c0 then ([c0], 1%nat)
      else
        let name := alnum_prefix s in
        (name, length name)
  end.

Definition nonempty_text (s : text) : bool :=
  match s with
  | [] => false
  | _ :: _ => true
  end.

(** [os.Expand]. [fuel] bounds the number of code points handled; the
    length of the input is enough. *)
Fixpoint expand_with (fuel : nat) (mapping : text → text) (s : text) : text :=
  match fuel with
  | O => s
  | S fuel' =>
      match s with
      | [] => []
      | c :: rest =>
          if (c =? 36) && nonempty_text rest then
            let '(name, w) := getShellName rest in
            let out :=
              match name with
              | [] => match w with O => [c] | S _ => [] end
              | _ :: _ => mapping name
              end in
            out ++ expand_with fuel' mapping (drop w rest)
          else c :: expand_with fuel' mapping rest
      end
  end.

Definition Expand (mapping : text → text) (s : text) : text :=
  expand_with (length s) mapping s.

Definition DOLLAR : rune := 36.

(** A plain variable name: letters, digits and underscores, not starting
    with a digit. *)
Definition plain_name (name : text) : Prop :=
  match name with
  | [] => False
  | c :: _ =>
      isShellSpecialVar c = false ∧ Forall (λ c, isAlphaNum c = true) name
  end.

(** The name ends where [rest] begins. *)
Definition ends_name (rest : text) : Prop :=
  match rest with
  | [] => True
  | c :: _ => isAlphaNum c = false
  end.

End Text.

(** ** The SQL executor ([sql.go]) *)

Module SQL.
Import Text.

(** What [encoding/json] sees. *)
#[warnings="-register-all"] Inductive json : Type :=
| JNull
| JNumber (n : Z)
| JString (s : string)
| JArray (items : list json)
| JObject (members : list (string * json)).

(** A cell of [QueryResult.Rows], of type [any]. *)
Inductive any : Type :=
| AnyNil
| AnyString (s : string)
| AnyInt64 (n : Z).

Record QueryResult : Type := MkQueryResult {
  Columns : list string;
  Rows : list (list any);
  Error : string
}.

Definition json_of_any (a : any) : json :=
  match a with
  | AnyNil => JNull
  | AnyString s => JString s
  | AnyInt64 n => JNumber n
  end.

(** [json.Marshal] of a [QueryResult]: the fields in declaration order,
    each tagged [omitempty], so an empty list or string leaves its member
    out. *)
Definition member (name : string) (empty : bool) (j : json)
  : list (string * json) :=
  if empty then [] else [(name, j)].

Definition marshal (q : QueryResult) : json :=
  JObject
    (member "columns" (is_nil (Columns q)) (JArray (JString <$> Columns q))
     ++ member "rows" (is_nil (Rows q))
          (JArray ((λ row, JArray (json_of_any <$> row)) <$> Rows q))
     ++ member "error" (String.eqb (Error q) "") (JString (Error q))).

Inductive hook : Type :=
| OnExecuteInit (session : string)
| OnExecuteError (ename evalue : string)
| OnExecuteResult (result : gmap string string) (count : Z)
| OnExecuteComplete (executionTime : Z).

Section Executor.

(** The library's tables and printers: [unicode.ToUpper], the values a
    driver delivers with [fmt.Sprintf("%v", _)] on them, and the printer of
    [encoding/json]. *)
Variable upper : rune → rune.
Variable value : Type.
Variable Sprint : value → string.
Variable encode : json → string.

(** [getQueryType]: element 0 of [strings.Fields(query)], uppercased. *)
Definition getQueryType (query : text) : outcome text :=
  match Fields query with
  | [] => Panic "runtime error: index out of range [0] with length 0"
  | firstWord :: _ => Return (ToUpper upper firstWord)
  end.

(** What the database answers. A scanned cell is [None] for SQL NULL. *)
Record rowSet : Type := MkRowSet {
  rs_columns : result (list string);
  rs_rows : list (result (list (option value)))
}.

Record database : Type := MkDatabase {
  initDB : option error;
  PingContext : option error;
  QueryContext : text → result rowSet;
  ExecContext : text → result Z
}.

Definition convert (cell : option value) : any :=
  match cell with
  | None => AnyNil
  | Some v => AnyString (Sprint v)
  end.

(** The [for rows.Next()] loop: [acc] is [result] so far. *)
Fixpoint scan (rows : list (result (list (option value))))
    (acc : list (list any)) : result (list (list any)) :=
  match rows with
  | [] => Ok acc
  | Err e :: _ => Err e
  | Ok cells :: rest => scan rest (acc ++ [convert <$> cells])
  end.

Definition deliver (q : QueryResult) (elapsed : Z) : list hook :=
  [ OnExecuteResult {[ "text/plain" := encode (marshal q) ]} 1;
    OnExecuteComplete elapsed ].

Definition executeSelectSQLQuery (db : database) (elapsed : Z) (code : text)
  : list hook * option error :=
  match QueryContext db code with
  | Err e => ([OnExecuteError "DBQueryError" e], None)
  | Ok rs =>
      match rs_columns rs with
      | Err e => ([OnExecuteError "DBQueryError" e], None)
      | Ok columns =>
          match scan (rs_rows rs) [] with
          | Err e => ([OnExecuteError "RowScanError" e], None)
          | Ok rows =>
              (deliver {| Columns := columns; Rows := rows; Error := "" |}
                 elapsed, None)
          end
      end
  end.

Definition executeUpdateSQLQuery (db : database) (elapsed : Z) (code : text)
  : list hook * option error :=
  match ExecContext db code with
  | Err e => ([OnExecuteError "DBExecError" e], Some e)
  | Ok affected =>
      (deliver {| Columns := ["affected_rows"];
                  Rows := [[AnyInt64 affected]];
                  Error := "" |} elapsed, None)
  end.

(** [runSQL]. [session] is the fresh UUID, [elapsed] what [time.Since]
    reads at the end. The hooks called before a panic stay called. *)
Definition runSQL (db : database) (session : string) (elapsed : Z)
    (code : text) : list hook * outcome (option error) :=
  let init := [OnExecuteInit session] in
  match initDB db with
  | Some e => (init ++ [OnExecuteError "DBInitError" e], Return (Some e))
  | None =>
      match PingContext db with
      | Some e => (init ++ [OnExecuteError "DBPingError" e], Return (Some e))
      | None =>
          match getQueryType code with
          | Panic msg => (init, Panic msg)
          | Return kind =>
              let '(hooks, err) :=
                if decide (kind = of_string "SELECT")
                then executeSelectSQLQuery db elapsed code
                else executeUpdateSQLQuery db elapsed code in
              (init ++ hooks, Return err)
          end
      end
  end.

End Executor.

Arguments rs_columns {value} r.
Arguments rs_rows {value} r.
Arguments initDB {value} d.
Arguments PingContext {value} d.
Arguments QueryContext {value} d code.
Arguments ExecContext {value} d code.
Arguments convert {value} Sprint cell.
Arguments scan {value} Sprint rows acc.
Arguments executeSelectSQLQuery {value} Sprint encode db elapsed code.
Arguments executeUpdateSQLQuery {value} encode db elapsed code.
Arguments runSQL upper {value} Sprint encode db session elapsed code.

(** The payload the spec describes: both members, whatever the lists. *)
Definition described (columns : list string) (rows : list (list any)) : json :=
  JObject [ ("columns", JArray (JString <$> columns));
            ("rows", JArray ((λ row, JArray (json_of_any <$> row)) <$> rows)) ].

(** A printer for JSON values whose strings need no escapes other than
    for the quote and the backslash; it stands for [encoding/json] in the
    examples. *)
Definition quote_char : ascii := ascii_of_nat 34.
Definition backslash : ascii := ascii_of_nat 92.

Fixpoint escape (s : string) : string :=
  match s with
  | EmptyString => EmptyString
  | String a s' =>
      if Ascii.eqb a quote_char || Ascii.eqb a backslash
      then String backslash (String a (escape s'))
      else String a (escape s')
  end.

Definition quoted (s : string) : string :=
  String quote_char (escape s +:+ String quote_char EmptyString).

Fixpoint join (sep : string) (l : list string) : string :=
  match l with
  | [] => ""
  | [x] => x
  | x :: rest => x +:+ sep +:+ join sep rest
  end.

Fixpoint print_json (j : json) : string :=
  match j with
  | JNull => "null"
  | JNumber n => pretty n
  | JString s => quoted s
  | JArray items => "[" +:+ join "," (map print_json items) +:+ "]"
  | JObject members =>
      "{" +:+ join "," (map (λ m, quoted m.1 +:+ ":" +:+ print_json m.2) members)
      +:+ "}"
  end.

(** A database with one table [t(id, name)] whose [SELECT] answers with
    [rows] and whose other statements touch [affected] rows; the driver
    values are integers. *)
Definition sample_db (rows : list (list (option Z))) (affected : Z)
  : database Z :=
  {| initDB := None;
     PingContext := None;
     QueryContext := λ _, Ok {| rs_columns := Ok ["id"; "name"];
                                rs_rows := Ok <$> rows |};
     ExecContext := λ _, Ok affected |}.

Definition unreachable_db : database Z :=
  {| initDB := Some "dial tcp 127.0.0.1:3306: connect: connection refused";
     PingContext := None;
     QueryContext := λ _, Err "closed";
     ExecContext := λ _, Err "closed" |}.

End SQL.

(** ** The extra-env loader ([env.go]) *)

Module Env.
Import Text.

Definition HASH : rune := 35.
Definition EQUALS : rune := 61.
Definition NEWLINE : rune := 10.

(** The body of the loop over the lines of the file. *)
Definition parse_line (getenv : text → text) (envs : gmap text text)
    (line : text) : gmap text text :=
  let line := TrimSpace line in
  if is_nil line || HasPrefix1 line HASH then envs
  else
    match SplitN2 EQUALS line with
    | [k; v] => <[k := Expand getenv v]> envs
    | _ => envs
    end.

(** [loadExtraEnvFromFile]. [getenv] is [os.Getenv], which gives the empty
    string for an unset variable; [readFile] is [os.ReadFile], [None] when
    it fails. The nil map is the empty map. *)
Definition loadExtraEnvFromFile (getenv : text → text)
    (readFile : text → option text) : gmap text text :=
  let path := getenv (of_string "EXECD_ENVS") in
  if is_nil path then ∅
  else
    match readFile path with
    | None => ∅
    | Some data => fold_left (parse_line getenv) (Split NEWLINE data) ∅
    end.

Definition add_pair (merged : gmap text text) (kv : text) : gmap text text :=
  match SplitN2 EQUALS kv with
  | [k; v] => <[k := v]> merged
  | _ => merged
  end.

(** The variables a list of [KEY=VALUE] strings defines: a later entry
    replaces an earlier one with the same key. *)
Definition env_of (env : list text) : gmap text text :=
  fold_left add_pair env ∅.

Definition render (p : text * text) : text := p.1 ++ (EQUALS :: p.2).

(** [mergeEnvs]. The output lists the merged map in the order of the last
    [range] loop, which Go leaves open; [map_to_list] fixes one. *)
Definition mergeEnvs (base : list text) (extra : gmap text text) : list text :=
  if decide (size extra = 0%nat) then base
  else
    let merged := fold_left add_pair base ∅ in
    let merged := map_fold (λ k v m, <[k := v]> m) merged extra in
    render <$> map_to_list merged.

(** A line of the file that defines [k] as [v]. *)
Definition defines (line k v : text) : Prop :=
  let l := TrimSpace line in
  l ≠ [] ∧ HasPrefix1 l HASH = false ∧ (EQUALS ∉ k) ∧ l = k ++ (EQUALS :: v).

End Env.

(** ** Deleting kernel contexts ([context.go]) *)

Module ContextOps.
Import Context.

(** Modelled from the spec: the error value [ErrContextNotFound] of the
    runtime package, whose declaration is not among the sources; the spec
    calls it ContextNotFound. *)
Definition ErrContextNotFound : error := "context not found".

(** The loop of [deleteSessionAndCleanup] over the default sessions: every
    language whose default is [session] loses its entry. *)
Definition drop_defaults (session : string) (defaults : gmap Language string)
  : gmap Language string :=
  map_fold (λ lang id m, if decide (id = session) then delete lang m else m)
    defaults defaults.

(** [deleteSessionAndCleanup]. [DeleteSession] is the Jupyter server's
    answer to the request that deletes a session; [log] lists the sessions
    that request was sent for, oldest first. *)
Definition deleteSessionAndCleanup (DeleteSession : string → option error)
    (session : string) (st : Controller * list string)
  : option error * (Controller * list string) :=
  let '(c, log) := st in
  match getJupyterKernel c session with
  | None => (Some ErrContextNotFound, (c, log))
  | Some _ =>
      match DeleteSession session with
      | Some e => (Some e, (c, log ++ [session]))
      | None =>
          (None,
           (set_defaultSessions
              (drop_defaults session (defaultLanguageJupyterSessions c))
              (set_jupyterClientMap (delete session (jupyterClientMap c)) c),
            log ++ [session]))
      end
  end.

Definition DeleteContext := deleteSessionAndCleanup.

(** The loop of [DeleteLanguageContext] over the listed contexts, with the
    set of ids already handled. *)
Fixpoint delete_each (DeleteSession : string → option error)
    (contexts : list CodeContext) (seen : gset string)
    (st : Controller * list string)
  : option error * (Controller * list string) :=
  match contexts with
  | [] => (None, st)
  | context :: rest =>
      if decide (ID context ∈ seen) then delete_each DeleteSession rest seen st
      else
        match deleteSessionAndCleanup DeleteSession (ID context) st with
        | (Some e, st') =>
            (Some ("error deleting context " +:+ ID context +:+ ": " +:+ e), st')
        | (None, st') =>
            delete_each DeleteSession rest ({[ID context]} ∪ seen) st'
        end
  end.

Definition DeleteLanguageContext (DeleteSession : string → option error)
    (lang : Language) (st : Controller * list string)
  : option error * (Controller * list string) :=
  delete_each DeleteSession (listLanguageContexts st.1 lang) ∅ st.

(** The operations that change the two kernel maps, with what the Jupyter
    server answered. *)
Inductive op : Type :=
| OpCreate (lang : Language) (sessionID kid : string)
| OpCreateDefault (lang : Language) (sessionID kid : string)
| OpDelete (DeleteSession : string → option error) (session : string)
| OpDeleteLanguage (DeleteSession : string → option error) (lang : Language).

Definition apply_op (o : op) (c : Controller) : Controller :=
  match o with
  | OpCreate lang sessionID kid => CreateContext lang sessionID kid c
  | OpCreateDefault lang sessionID kid =>
      createDefaultLanguageContext lang sessionID kid c
  | OpDelete DeleteSession session =>
      (deleteSessionAndCleanup DeleteSession session (c, [])).2.1
  | OpDeleteLanguage DeleteSession lang =>
      (DeleteLanguageContext DeleteSession lang (c, [])).2.1
  end.

Definition apply_ops (ops : list op) (c : Controller) : Controller :=
  fold_left (λ acc o, apply_op o acc) ops c.

(** Every default session is a key of the kernel map. *)
Definition defaults_registered (c : Controller) : Prop :=
  ∀ lang sessionID,
    defaultLanguageJupyterSessions c !! lang = Some sessionID →
    is_Some (jupyterClientMap c !! sessionID).

(** The ids a listing of [lang] holds. *)
Definition listed (c : Controller) (lang : Language) (id : string) : Prop :=
  (∃ kernel, jupyterClientMap c !! id = Some kernel ∧ language kernel = lang)
  ∨ (defaultLanguageJupyterSessions c !! lang = Some id ∧ id ≠ "").

End ContextOps.

(** ** What an interrupt costs and what its success rests on *)

Module Budget.
Import Interrupt.

(** The time a call can take at most: a sleep in full, a wait up to its
    timeout. *)
Definition delay (e : event) : Z :=
  match e with
  | EvSleep ms => ms
  | EvAwait _ ms _ => ms
  | _ => 0
  end.

Definition total_delay (tr : list event) : Z :=
  foldr (λ e acc, delay e + acc) 0 tr.

(** An answer of the operating system that says the process is gone: a
    signal refused because the process has finished (for the probe also
    because there is no such process), or a wait that returned no error. *)
Definition evidence (e : event) : bool :=
  match e with
  | EvKill _ SIGTERM (Some m) => Contains m "already finished"
  | EvKill _ SIGKILL (Some m) => Contains m "already finished"
  | EvKill _ Signal0 (Some m) => gone m
  | EvAwait _ _ (Exited None) => true
  | _ => false
  end.

End Budget.

(** ** The command executors and their callbacks ([runCommand],
    [runBackgroundCommand] of the Unix build) *)

Module Exec.
Import Command Tail.

(** The callbacks of [ExecuteResultHook] the command executors call. *)
Inductive hook : Type :=
| OnExecuteInit (session : string)
| OnExecuteStdout (text : list byte)
| OnExecuteStderr (text : list byte)
| OnExecuteError (ename evalue : string) (traceback : list string)
| OnExecuteComplete (executionTime : Z).

(** What an execution does that others can see: a callback, or one
    critical section on the registry. *)
Inductive event : Type :=
| Hook (h : hook)
| Registry (a : action).

(** The steps of two goroutines in one order: [true] lets the first one
    take its next step. A goroutine that has no step left lets the other
    run. *)
Fixpoint weave {A : Type} (sched : list bool) (a b : list A) : list A :=
  match sched with
  | [] => a ++ b
  | first :: sched' =>
      match a, b with
      | [], _ => b
      | _, [] => a
      | x :: a', y :: b' =>
          if first then x :: weave sched' a' b else y :: weave sched' a b'
      end
  end.

(** What the operating system and the scheduler contribute to one
    execution: the answers of [stdLogDescriptor] (or
    [combinedOutputDescriptor]), [cmd.Start] and [cmd.Wait]; the contents
    of the two log files at every tick of each tailer and when [done] is
    closed; what [time.Since] reads; the order of the goroutines. *)
Record observation : Type := MkObservation {
  ob_descriptor : option error;
  ob_start : startResult;
  ob_wait : waitResult;
  ob_stdout_ticks : list (list byte);
  ob_stdout : list byte;
  ob_stderr_ticks : list (list byte);
  ob_stderr : list byte;
  ob_elapsed : Z;
  ob_tailers : list bool;
  ob_main : list bool
}.

(** What a call leaves: the events in the order they happened, the error
    returned, and whether the channel [done] the tailers wait for was
    closed. *)
Record execution : Type := MkExecution {
  trace : list event;
  returned : option error;
  done_closed : bool
}.

(** [strconv.Itoa]. *)
Definition Itoa (n : Z) : string := pretty n.

Definition foreground_kernel (r : commandRequest) (p : Z) : commandKernel :=
  {| pid := p;
     stdoutPath := req_stdoutPath r;
     stderrPath := req_stderrPath r;
     startedAt := req_startAt r;
     finishedAt := None;
     exitCode := None;
     errMsg := "";
     running := true;
     isBackground := false;
     content := req_Code r |}.

(** The two tailers of [runCommand], one per log file, each calling its
    own callback. *)
Definition tailers (o : observation) : list event :=
  weave (ob_tailers o)
    ((λ line, Hook (OnExecuteStdout line))
       <$> tailStdPipe (ob_stdout_ticks o) (ob_stdout o))
    ((λ line, Hook (OnExecuteStderr line))
       <$> tailStdPipe (ob_stderr_ticks o) (ob_stderr o)).

(** What [runCommand] does once [cmd.Wait] has returned and the tailers
    have made their last read. *)
Definition after_wait (session : string) (w : waitResult) (elapsed : Z)
  : list event :=
  match w with
  | WaitOk =>
      [ Registry (Mark session 0 "");
        Hook (OnExecuteComplete elapsed) ]
  | WaitExit code msg =>
      [ Hook (OnExecuteError "CommandExecError" (Itoa code) [msg]);
        Registry (Mark session code msg) ]
  | WaitErr msg =>
      [ Hook (OnExecuteError "CommandExecError" msg [msg]);
        Registry (Mark session 1 msg) ]
  end.

(** [runCommand]. The tailers are started before [cmd.Start], so their
    callbacks can come before the registration and [OnExecuteInit]; they
    have all come when [wg.Wait] returns. When [cmd.Start] fails the
    function returns without closing [done]: the tailers stay, reading
    two files that were created empty and that no process writes. *)
Definition runCommand (r : commandRequest) (o : observation) : execution :=
  match ob_descriptor o with
  | Some e =>
      {| trace := [];
         returned := Some ("failed to get stdlog descriptor: " +:+ e);
         done_closed := false |}
  | None =>
      match ob_start o with
      | StartErr msg =>
          {| trace := [ Hook (OnExecuteInit (req_session r));
                        Hook (OnExecuteError "CommandExecError" msg []) ];
             returned := None;
             done_closed := false |}
      | StartOk p =>
          {| trace :=
               weave (ob_main o)
                 [ Registry (Store (req_session r) (foreground_kernel r p));
                   Hook (OnExecuteInit (req_session r)) ]
                 (tailers o)
               ++ after_wait (req_session r) (ob_wait o) (ob_elapsed o);
             returned := None;
             done_closed := true |}
      end
  end.

(** [runBackgroundCommand]: the caller's goroutine calls [OnExecuteInit],
    hands the process to a goroutine of its own and calls
    [OnExecuteComplete] at once; the registry is written by the other
    goroutine only. There are no tailers and no channel [done]. *)
Definition runBackgroundCommand (r : commandRequest) (o : observation)
  : execution :=
  match ob_descriptor o with
  | Some e =>
      {| trace := [Hook (OnExecuteInit (req_session r))];
         returned := Some ("failed to get combined output descriptor: " +:+ e);
         done_closed := false |}
  | None =>
      {| trace :=
           Hook (OnExecuteInit (req_session r))
           :: weave (ob_main o)
                [Hook (OnExecuteComplete (ob_elapsed o))]
                (Registry <$> Command.runBackgroundCommand r (ob_start o)
                                (ob_wait o));
         returned := None;
         done_closed := false |}
  end.

Definition hooks (tr : list event) : list hook :=
  omap (λ e, match e with Hook h => Some h | Registry _ => None end) tr.

Definition registry (tr : list event) : list action :=
  omap (λ e, match e with Registry a => Some a | Hook _ => None end) tr.

Definition stdout_lines (tr : list event) : list (list byte) :=
  omap (λ e, match e with
             | Hook (OnExecuteStdout line) => Some line
             | _ => None
             end) tr.

Definition stderr_lines (tr : list event) : list (list byte) :=
  omap (λ e, match e with
             | Hook (OnExecuteStderr line) => Some line
             | _ => None
             end) tr.

Definition is_output (h : hook) : bool :=
  match h with
  | OnExecuteStdout _ | OnExecuteStderr _ => true
  | _ => false
  end.

(** The callbacks that are not output. *)
Definition control (tr : list event) : list hook :=
  filter (λ h, is_output h = false) (hooks tr).

(** The registry after the critical sections of [tr], each entered when
    the clock reads [now]. *)
Definition replay (now : Z) (tr : list event) (c : Controller) : Controller :=
  fold_left (λ c e, match e with
                    | Registry a => perform a now c
                    | Hook _ => c
                    end) tr c.

(** What a client that asks for the status on receiving the callback [h]
    is told at the earliest: the registry is as the events before [h]
    left it. *)
Definition status_at (now : Z) (h : hook) (tr : list event) (c : Controller)
    (session : string) (st : result CommandStatus) : Prop :=
  ∃ before after,
    tr = before ++ Hook h :: after
    ∧ GetCommandStatus (replay now before c) session = st.

(** The session a critical section writes, and whether an event writes
    the record of [s]. *)
Definition session_of (a : action) : string :=
  match a with
  | Store session _ => session
  | Mark session _ _ => session
  end.

Definition touches (s : string) (e : event) : bool :=
  match e with
  | Registry a => bool_decide (session_of a = s)
  | Hook _ => false
  end.

(** The events of the main goroutine: everything but the output. *)
Definition own (e : event) : option event :=
  match e with
  | Hook (OnExecuteStdout _) | Hook (OnExecuteStderr _) => None
  | _ => Some e
  end.

(** One event's effect on the registry. *)
Definition once (now : Z) (e : event) (c : Controller) : Controller :=
  match e with
  | Registry a => perform a now c
  | Hook _ => c
  end.

(** One of the two executors. *)
Definition execute (background : bool) (r : commandRequest) (o : observation)
  : execution :=
  if background then runBackgroundCommand r o else runCommand r o.

End Exec.

(** ** The lazily opened database ([initDB] of [sql.go]) *)

Module Database.

(** What the MySQL server answers to the four steps of the first call:
    [sql.Open], [db.Ping], and the two statements. *)
Record server : Type := MkServer {
  srv_Open : option error;
  srv_Ping : option error;
  srv_Create : option error;
  srv_Use : option error
}.

(** The fields [dbOnce] and [db] of the controller: whether the [Once] has
    run, and whether [c.db] is set. [contacted] lists the steps made at
    the server so far. *)
Record state : Type := MkState {
  dbOnce : bool;
  db : bool;
  contacted : list string
}.

Definition fresh : state := {| dbOnce := false; db := false; contacted := [] |}.

(** The function handed to [c.dbOnce.Do]: the steps in order, up to the
    first that fails; [c.db] is set after the last. The result is
    [initErr]. *)
Definition open (srv : server) (st : state) : option error * state :=
  let step (name : string) (st : state) : state :=
    {| dbOnce := dbOnce st; db := db st;
       contacted := contacted st ++ [name] |} in
  let st := step "sql.Open" st in
  match srv_Open srv with
  | Some e => (Some e, st)
  | None =>
      let st := step "Ping" st in
      match srv_Ping srv with
      | Some e => (Some e, st)
      | None =>
          let st := step "CREATE DATABASE IF NOT EXISTS sandbox" st in
          match srv_Create srv with
          | Some e => (Some e, st)
          | None =>
              let st := step "USE sandbox" st in
              match srv_Use srv with
              | Some e => (Some e, st)
              | None =>
                  (None, {| dbOnce := dbOnce st; db := true;
                            contacted := contacted st |})
              end
          end
      end
  end.

(** [initDB]: [Once.Do] runs its function on the first call only, whether
    or not it succeeded. *)
Definition initDB (srv : server) (st : state) : option error * state :=
  let '(initErr, st) :=
    if dbOnce st then (None, st)
    else
      open srv {| dbOnce := true; db := db st; contacted := contacted st |} in
  match initErr with
  | Some e => (Some e, st)
  | None =>
      if db st then (None, st) else (Some "db is not initialized", st)
  end.

(** SQL requests one after the other, the server as it is at each. *)
Fixpoint calls (srvs : list server) (st : state)
  : list (option error) * state :=
  match srvs with
  | [] => ([], st)
  | srv :: srvs' =>
      let '(r, st) := initDB srv st in
      let '(rs, st) := calls srvs' st in
      (r :: rs, st)
  end.

Definition up : server :=
  {| srv_Open := None; srv_Ping := None; srv_Create := None; srv_Use := None |}.

End Database.

(** ** Code execution through a Jupyter kernel ([runJupyter],
    [runJupyterCode]) *)

Module Jupyter.
Import SQL.

(** [execute.ErrorOutput], [execute.StreamOutput], [execute.ExecutionResult]. *)
Record ErrorOutput : Type := MkErrorOutput {
  EName : string;
  EValue : string;
  Traceback : list string
}.

Record StreamOutput : Type := MkStreamOutput {
  so_Name : string;
  so_Text : list byte
}.

Record ExecutionResult : Type := MkExecutionResult {
  er_Status : string;
  er_ExecutionCount : Z;
  er_Stream : list StreamOutput;
  er_Error : option ErrorOutput;
  er_ExecutionTime : Z;
  er_ExecutionData : gmap string json
}.

Definition StreamStdout : string := "stdout".
Definition StreamStderr : string := "stderr".

(** The seven callbacks of [ExecuteResultHook]. The error callback takes a
    pointer, which the handlers test for nil. *)
Inductive hook : Type :=
| OnExecuteInit (session : string)
| OnExecuteResult (result : gmap string json) (count : Z)
| OnExecuteStatus (status : string)
| OnExecuteStdout (text : list byte)
| OnExecuteStderr (text : list byte)
| OnExecuteError (err : option ErrorOutput)
| OnExecuteComplete (executionTime : Z).

(** What the execution does at the kernel and at its caller. *)
Inductive event : Type :=
| Hook (h : hook)
| ConnectToKernel (kid : string)
| ExecuteCodeStream (kid : string) (code : string)
| InterruptKernel (kid : string)
| DisconnectFromKernel (kid : string).

(** What the [select] of the loop receives next: a value of the channel
    [results] (nil or a result), or the end of the context. *)
Inductive incoming : Type :=
| Message (result : option ExecutionResult)
| Cancelled.

Definition stream_hook (s : StreamOutput) : option hook :=
  if decide (so_Name s = StreamStdout) then Some (OnExecuteStdout (so_Text s))
  else if decide (so_Name s = StreamStderr)
       then Some (OnExecuteStderr (so_Text s))
       else None.

(** The body of the loop for one result that is not nil. *)
Definition deliver (r : ExecutionResult) : list hook :=
  (if (0 <? er_ExecutionCount r) || negb (bool_decide (er_ExecutionData r = ∅))
   then [OnExecuteResult (er_ExecutionData r) (er_ExecutionCount r)] else [])
  ++ (if bool_decide (er_Status r = "") then []
      else [OnExecuteStatus (er_Status r)])
  ++ (if 0 <? er_ExecutionTime r
      then [OnExecuteComplete (er_ExecutionTime r)] else [])
  ++ match er_Error r with
     | Some e => [OnExecuteError (Some e)]
     | None => []
     end
  ++ omap stream_hook (er_Stream r).

(** The loop. The result is [None] while the loop waits for more. The
    answer of [InterruptKernel] is logged and dropped. *)
Fixpoint loop (kid : string) (msgs : list incoming)
  : list event * option (option error) :=
  match msgs with
  | [] => ([], None)
  | Message None :: _ => ([], Some None)
  | Message (Some r) :: rest =>
      let '(tr, res) := loop kid rest in
      ((Hook <$> deliver r) ++ tr, res)
  | Cancelled :: _ =>
      ([ InterruptKernel kid;
         Hook (OnExecuteError
                 (Some {| EName := "ContextCancelled";
                          EValue := "Interrupt kernel";
                          Traceback := [] |})) ],
       Some (Some "context cancelled, interrupt kernel"))
  end.

(** The kernel's mutex and what its client answers. *)
Record kernelClient : Type := MkKernelClient {
  locked : bool;
  on_Connect : option error;
  on_Execute : option error
}.

(** [runJupyterCode]; the deferred disconnect runs when the function
    returns after a successful connect. *)
Definition runJupyterCode (kernel : jupyterKernel) (cl : kernelClient)
    (code : string) (msgs : list incoming)
  : list event * option (option error) :=
  let kid := kernelID kernel in
  if locked cl then ([], Some (Some "session is busy"))
  else
    match on_Connect cl with
    | Some e => ([ConnectToKernel kid], Some (Some e))
    | None =>
        match on_Execute cl with
        | Some e =>
            ([ ConnectToKernel kid; ExecuteCodeStream kid code;
               DisconnectFromKernel kid ], Some (Some e))
        | None =>
            let '(tr, res) := loop kid msgs in
            ([ConnectToKernel kid; ExecuteCodeStream kid code] ++ tr
             ++ match res with
                | Some _ => [DisconnectFromKernel kid]
                | None => []
                end,
             res)
        end
    end.

Record request : Type := MkRequest {
  rq_Language : Language;
  rq_Code : string;
  rq_Context : string
}.

(** [runJupyter]. [create] is how [createDefaultLanguageContext] ends at
    the Jupyter server when it is called: with an error, or with the ids
    of the new session and its kernel. *)
Definition runJupyter (c : Controller) (rq : request)
    (create : result (string * string)) (cl : kernelClient)
    (msgs : list incoming)
  : Controller * list event * option (option error) :=
  if bool_decide (baseURL c = "") || bool_decide (token c = "") then
    (c, [],
     Some (Some "language runtime server not configured, please check your image runtime"))
  else
    let prepared : result Controller :=
      if bool_decide (rq_Context rq = "") then
        match defaultLanguageJupyterSessions c !! rq_Language rq with
        | Some _ => Ok c
        | None =>
            match create with
            | Err e => Err e
            | Ok (sessionID, kid) =>
                Ok (Context.createDefaultLanguageContext (rq_Language rq)
                      sessionID kid c)
            end
        end
      else Ok c in
    match prepared with
    | Err e => (c, [], Some (Some e))
    | Ok c' =>
        let targetSessionID :=
          if bool_decide (rq_Context rq = "")
          then default "" (defaultLanguageJupyterSessions c' !! rq_Language rq)
          else rq_Context rq in
        match getJupyterKernel c' targetSessionID with
        | None => (c', [], Some (Some ContextOps.ErrContextNotFound))
        | Some kernel =>
            let '(tr, res) := runJupyterCode kernel cl (rq_Code rq) msgs in
            (c', Hook (OnExecuteInit targetSessionID) :: tr, res)
        end
    end.

(** The results the loop gets to see: those before the first nil and
    before the context ends. *)
Fixpoint taken (msgs : list incoming) : list ExecutionResult :=
  match msgs with
  | Message (Some r) :: rest => r :: taken rest
  | _ => []
  end.

Definition streamed (name : string) (rs : list ExecutionResult)
  : list (list byte) :=
  rs ≫= λ r, so_Text <$> filter (λ s, so_Name s = name) (er_Stream r).

Definition stdout_texts (tr : list event) : list (list byte) :=
  omap (λ e, match e with
             | Hook (OnExecuteStdout text) => Some text
             | _ => None
             end) tr.

Definition stderr_texts (tr : list event) : list (list byte) :=
  omap (λ e, match e with
             | Hook (OnExecuteStderr text) => Some text
             | _ => None
             end) tr.

(** How the loop of [runJupyterCode] ends on [msgs]: on the first message
    that is not a result, if there is one. *)
Fixpoint ending (msgs : list incoming) : option incoming :=
  match msgs with
  | [] => None
  | Message (Some _) :: rest => ending rest
  | m :: _ => Some m
  end.

Definition is_interrupt (e : event) : bool :=
  match e with
  | InterruptKernel _ => true
  | _ => false
  end.

End Jupyter.

(** ** From callbacks to server-sent events ([setServerEventsHandler],
    [ServerStreamEvent.ToJSON]) *)

Module Web.
Import SQL Jupyter.

Record ServerStreamEvent : Type := MkServerStreamEvent {
  ev_Type : string;
  ev_Text : string;
  ev_ExecutionCount : Z;
  ev_ExecutionTime : Z;
  ev_Timestamp : Z;
  ev_Results : gmap string json;
  ev_Error : option ErrorOutput
}.

Definition StreamEventTypeInit : string := "init".
Definition StreamEventTypeStatus : string := "status".
Definition StreamEventTypeError : string := "error".
Definition StreamEventTypeStdout : string := "stdout".
Definition StreamEventTypeStderr : string := "stderr".
Definition StreamEventTypeResult : string := "result".
Definition StreamEventTypeComplete : string := "execution_complete".
Definition StreamEventTypeCount : string := "execution_count".

(** An event of type [type] stamped [now], its other fields zero. *)
Definition stamped (type : string) (now : Z) : ServerStreamEvent :=
  {| ev_Type := type; ev_Text := ""; ev_ExecutionCount := 0;
     ev_ExecutionTime := 0; ev_Timestamp := now; ev_Results := ∅;
     ev_Error := None |}.

Definition with_text (text : string) (e : ServerStreamEvent)
  : ServerStreamEvent :=
  {| ev_Type := ev_Type e; ev_Text := text;
     ev_ExecutionCount := ev_ExecutionCount e;
     ev_ExecutionTime := ev_ExecutionTime e; ev_Timestamp := ev_Timestamp e;
     ev_Results := ev_Results e; ev_Error := ev_Error e |}.

Definition with_count (count : Z) (e : ServerStreamEvent)
  : ServerStreamEvent :=
  {| ev_Type := ev_Type e; ev_Text := ev_Text e;
     ev_ExecutionCount := count;
     ev_ExecutionTime := ev_ExecutionTime e; ev_Timestamp := ev_Timestamp e;
     ev_Results := ev_Results e; ev_Error := ev_Error e |}.

Definition with_time (ms : Z) (e : ServerStreamEvent) : ServerStreamEvent :=
  {| ev_Type := ev_Type e; ev_Text := ev_Text e;
     ev_ExecutionCount := ev_ExecutionCount e;
     ev_ExecutionTime := ms; ev_Timestamp := ev_Timestamp e;
     ev_Results := ev_Results e; ev_Error := ev_Error e |}.

Definition with_results (results : gmap string json) (e : ServerStreamEvent)
  : ServerStreamEvent :=
  {| ev_Type := ev_Type e; ev_Text := ev_Text e;
     ev_ExecutionCount := ev_ExecutionCount e;
     ev_ExecutionTime := ev_ExecutionTime e; ev_Timestamp := ev_Timestamp e;
     ev_Results := results; ev_Error := ev_Error e |}.

Definition with_error (err : ErrorOutput) (e : ServerStreamEvent)
  : ServerStreamEvent :=
  {| ev_Type := ev_Type e; ev_Text := ev_Text e;
     ev_ExecutionCount := ev_ExecutionCount e;
     ev_ExecutionTime := ev_ExecutionTime e; ev_Timestamp := ev_Timestamp e;
     ev_Results := ev_Results e; ev_Error := Some err |}.

(** [time.Duration.Milliseconds] of a duration in nanoseconds. *)
Definition Milliseconds (d : Z) : Z := Z.quot d 1000000.

(** The loop of the result callback: every member is copied, the one
    under [text/plain] to [text]. The order of the loop is that of a Go
    map; [map_fold] fixes one. *)
Definition rename (k : string) : string :=
  if decide (k = "text/plain") then "text" else k.

Definition mutated (result : gmap string json) : gmap string json :=
  map_fold (λ k v m, <[rename k := v]> m) ∅ result.

(** [setServerEventsHandler]: the events each callback writes, in order.
    [now] is what [time.Now().UnixMilli()] reads. The keep-alive the init
    callback starts writes its pings on its own. *)
Definition setServerEventsHandler (now : Z) (h : hook)
  : list ServerStreamEvent :=
  match h with
  | OnExecuteInit session =>
      [with_text session (stamped StreamEventTypeInit now)]
  | OnExecuteResult result count =>
      (if 0 <? count
       then [with_count count (stamped StreamEventTypeCount now)] else [])
      ++ (if decide (size (mutated result) = 0%nat) then []
          else [with_results (mutated result)
                  (stamped StreamEventTypeResult now)])
  | OnExecuteComplete executionTime =>
      [with_time (Milliseconds executionTime)
         (stamped StreamEventTypeComplete now)]
  | OnExecuteError None => []
  | OnExecuteError (Some err) =>
      [with_error err (stamped StreamEventTypeError now)]
  | OnExecuteStatus status =>
      [with_text status (stamped StreamEventTypeStatus now)]
  | OnExecuteStdout text =>
      match text with
      | [] => []
      | _ => [with_text (string_of_list_byte text)
                (stamped StreamEventTypeStdout now)]
      end
  | OnExecuteStderr text =>
      match text with
      | [] => []
      | _ => [with_text (string_of_list_byte text)
                (stamped StreamEventTypeStderr now)]
      end
  end.

Definition frames (now : Z) (hooks : list hook) : list ServerStreamEvent :=
  hooks ≫= setServerEventsHandler now.

(** The callbacks of the SQL executor and of the command executors as
    values of [ExecuteResultHook]'s types: the SQL result map holds
    strings, the errors are built in place. *)
Definition of_sql (h : SQL.hook) : hook :=
  match h with
  | SQL.OnExecuteInit session => OnExecuteInit session
  | SQL.OnExecuteError ename evalue =>
      OnExecuteError (Some {| EName := ename; EValue := evalue;
                              Traceback := [] |})
  | SQL.OnExecuteResult result count =>
      OnExecuteResult (JString <$> result) count
  | SQL.OnExecuteComplete executionTime => OnExecuteComplete executionTime
  end.

Definition of_exec (h : Exec.hook) : hook :=
  match h with
  | Exec.OnExecuteInit session => OnExecuteInit session
  | Exec.OnExecuteStdout text => OnExecuteStdout text
  | Exec.OnExecuteStderr text => OnExecuteStderr text
  | Exec.OnExecuteError ename evalue traceback =>
      OnExecuteError (Some {| EName := ename; EValue := evalue;
                              Traceback := traceback |})
  | Exec.OnExecuteComplete executionTime => OnExecuteComplete executionTime
  end.

Definition texts (type : string) (fs : list ServerStreamEvent) : list string :=
  ev_Text <$> filter (λ e, ev_Type e = type) fs.

Section Encoding.

(** What [encoding/json] makes of the result map and of the error. *)
Variable encode_results : gmap string json → json.
Variable encode_error : ErrorOutput → json.

(** [ToJSON]: every field is tagged [omitempty]. *)
Definition ToJSON (e : ServerStreamEvent) : json :=
  JObject
    (member "type" (String.eqb (ev_Type e) "") (JString (ev_Type e))
     ++ member "text" (String.eqb (ev_Text e) "") (JString (ev_Text e))
     ++ member "execution_count" (ev_ExecutionCount e =? 0)
          (JNumber (ev_ExecutionCount e))
     ++ member "execution_time" (ev_ExecutionTime e =? 0)
          (JNumber (ev_ExecutionTime e))
     ++ member "timestamp" (ev_Timestamp e =? 0) (JNumber (ev_Timestamp e))
     ++ member "results" (bool_decide (size (ev_Results e) = 0%nat))
          (encode_results (ev_Results e))
     ++ match ev_Error e with
        | Some err => [("error", encode_error err)]
        | None => []
        end).

End Encoding.

End Web.

(** * Properties *)

(** ** List helpers *)

Lemma filter_all {A} (P : A → Prop) `{∀ x, Decision (P x)} (l : list A) :
  Forall P l → filter P l = l.
Proof.
  induction 1 as [|x l Hx _ IH]; [done|].
  by rewrite filter_cons, decide_True, IH.
Qed.

Lemma filter_none {A} (P : A → Prop) `{∀ x, Decision (P x)} (l : list A) :
  Forall (λ x, ¬ P x) l → filter P l = [].
Proof.
  induction 1 as [|x l Hx _ IH]; [done|].
  by rewrite filter_cons, decide_False, IH.
Qed.

(** ** The command registry *)

Module CommandFacts.
Import Command.

















End CommandFacts.

(** ** Reading the output file by cursor *)

Module SeekFacts.
Import Command.

(** C3, as stated, fails: a negative cursor is a cursor value, and for it
    [Seek] fails, so the call returns an error and no bytes or cursor. *)
Lemma C3_negative_cursor_counterexample :
  let k := {| pid := 7; stdoutPath := "/tmp/s1.output";
              stderrPath := "/tmp/s1.output"; startedAt := 100;
              finishedAt := None; exitCode := None; errMsg := "";
              running := true; isBackground := true; content := "make" |} in
  let c := storeCommandKernel "s1" k (NewController "" "") in
  let fs : gmap string (list byte) := {[ "/tmp/s1.output" := [x6f; x6b; x0a] ]} in
  SeekBackgroundCommandOutput c fs "s1" (-1)
  = Err "error seek file: invalid argument"
  ∧ ¬ ∃ bytes new_cursor,
        SeekBackgroundCommandOutput c fs "s1" (-1) = Ok (bytes, new_cursor).
Proof.
  split; [reflexivity|]. intros (bytes & new_cursor & H). discriminate H.
Qed.

(** C3, amended. For every registered background command session whose
    combined output file can be opened and every cursor that is not
    negative, the call returns [(bytes, new_cursor)] with
    [new_cursor >= cursor] and [bytes = file[cursor:new_cursor]]; the new
    cursor is the end of the file, or the cursor itself when that lies
    beyond the end; a second call with the returned cursor on the same
    file returns no bytes and the same cursor. *)
Theorem C3_seek_output (c : Controller) (fs : gmap string (list byte))
    (session : string) (kernel : commandKernel) (file : list byte)
    (cursor : Z) :
  commandClientMap c !! session = Some kernel →
  isBackground kernel = true →
  fs !! stdoutPath kernel = Some file →
  0 ≤ cursor →
  ∃ bytes new_cursor,
    SeekBackgroundCommandOutput c fs session cursor = Ok (bytes, new_cursor)
    ∧ cursor ≤ new_cursor
    ∧ bytes = slice file cursor new_cursor
    ∧ new_cursor = Z.max cursor (Z.of_nat (length file))
    ∧ SeekBackgroundCommandOutput c fs session new_cursor
      = Ok ([], new_cursor).
Proof.
  intros Hk Hbg Hfile Hcur.
  unfold SeekBackgroundCommandOutput, commandSnapshot.
  rewrite Hk, Hbg, Hfile. simpl.
  destruct (Z.ltb_spec cursor 0) as [?|_]; [lia|].
  eexists _, _. split; [reflexivity|].
  rewrite length_drop.
  assert (Hmax : cursor + Z.of_nat (length file - Z.to_nat cursor)
                 = Z.max cursor (Z.of_nat (length file))) by lia.
  rewrite Hmax.
  split; [lia|]. split; [|split; [done|]].
  - unfold slice. rewrite take_ge; [done|]. rewrite length_drop. lia.
  - destruct (Z.ltb_spec (Z.max cursor (Z.of_nat (length file))) 0) as [?|_];
      [lia|].
    rewrite drop_ge by lia. simpl. do 2 f_equal. lia.
Qed.

Lemma C3_seek_output_witness :
  let k := {| pid := 7; stdoutPath := "/tmp/s1.output";
              stderrPath := "/tmp/s1.output"; startedAt := 100;
              finishedAt := None; exitCode := None; errMsg := "";
              running := true; isBackground := true; content := "make" |} in
  let c := storeCommandKernel "s1" k (NewController "" "") in
  let fs : gmap string (list byte) := {[ "/tmp/s1.output" := [x6f; x6b; x0a] ]} in
  ∃ bytes new_cursor,
    SeekBackgroundCommandOutput c fs "s1" 1 = Ok (bytes, new_cursor)
    ∧ 1 ≤ new_cursor
    ∧ bytes = slice [x6f; x6b; x0a] 1 new_cursor
    ∧ new_cursor = Z.max 1 (Z.of_nat (length [x6f; x6b; x0a]))
    ∧ SeekBackgroundCommandOutput c fs "s1" new_cursor = Ok ([], new_cursor).
Proof.
  intros k c fs.
  apply (C3_seek_output c fs "s1" k [x6f; x6b; x0a] 1);
    [reflexivity|reflexivity|reflexivity|lia].
Defined.

End SeekFacts.

(** ** The file-tail streamer *)

Module TailFacts.
Import Tail.

Lemma pieces_nonempty s : pieces s ≠ [].
Proof.
  destruct s as [|b s]; simpl; [done|].
  destruct (isTerminator b); [done|]. by destruct (pieces s).
Qed.

Lemma pieces_unterminated s : unterminated s → pieces s = [s].
Proof.
  induction 1 as [|b s Hb _ IH]; simpl; [done|]. by rewrite Hb, IH.
Qed.

Lemma glue_nil ps : ps ≠ [] → glue [] ps = ps.
Proof. by destruct ps. Qed.

Lemma removelast_cons {A} (x : A) l : l ≠ [] → removelast (x :: l) = x :: removelast l.
Proof. by destruct l. Qed.

Lemma last_cons {A} (x d : A) l : l ≠ [] → List.last (x :: l) d = List.last l d.
Proof. by destruct l. Qed.

(** Cutting a concatenation: the last piece of the left part joins the
    first piece of the right part. *)
Lemma pieces_app a b :
  pieces (a ++ b)
  = removelast (pieces a) ++ glue (List.last (pieces a) []) (pieces b).
Proof.
  induction a as [|x a IH]; simpl.
  - by rewrite glue_nil by apply pieces_nonempty.
  - destruct (isTerminator x).
    + rewrite removelast_cons, last_cons by apply pieces_nonempty.
      simpl. by rewrite IH.
    + rewrite IH. pose proof (pieces_nonempty a) as Ha.
      destruct (pieces a) as [|p [|q ps]]; [done| |].
      * simpl. pose proof (pieces_nonempty b). by destruct (pieces b).
      * done.
Qed.

Lemma pieces_whole_lines s :
  whole_lines s → pieces s = removelast (pieces s) ++ [[]].
Proof.
  intros [->|(s' & t & -> & Ht)]; [done|].
  rewrite pieces_app. simpl. rewrite Ht. simpl.
  rewrite removelast_app by done. simpl. by rewrite <- app_assoc.
Qed.

Lemma filter_nonempty_drop_nil (l : list (list byte)) :
  filter (λ l, nonempty l = true) (l ++ [[]]) = filter (λ l, nonempty l = true) l.
Proof. rewrite filter_app. simpl. apply app_nil_r. Qed.

(** The unread bytes, cut into whole lines and the trailing partial. *)
Lemma pieces_lines_partial consumed part :
  whole_lines consumed → unterminated part →
  pieces (consumed ++ part) = removelast (pieces consumed) ++ [part]
  ∧ all_lines consumed
    = filter (λ l, nonempty l = true) (removelast (pieces consumed)).
Proof.
  intros Hc Hp. split.
  - rewrite pieces_app, (pieces_unterminated part Hp).
    rewrite (pieces_whole_lines _ Hc) at 2.
    by rewrite last_last.
  - unfold all_lines. rewrite (pieces_whole_lines _ Hc) at 1.
    apply filter_nonempty_drop_nil.
Qed.

Lemma decompose s :
  ∃ consumed part,
    s = consumed ++ part ∧ whole_lines consumed ∧ unterminated part.
Proof.
  induction s as [|b s (consumed & part & -> & Hc & Hp)] using rev_ind.
  - exists [], []. repeat split; [by left|constructor].
  - destruct (isTerminator b) eqn:Hb.
    + exists ((consumed ++ part) ++ [b]), []. rewrite app_nil_r.
      repeat split; [|constructor]. right. eauto.
    + exists consumed, (part ++ [b]). rewrite app_assoc.
      repeat split; [done|]. apply Forall_app. split; [done|].
      by constructor.
Qed.

(** The loop, for any state it is entered in. *)
Lemma read_loop_spec input : ∀ buffer emitted currentPos,
  let ps := glue buffer (pieces input) in
  read_loop input buffer emitted currentPos false
  = (emitted ++ filter (λ l, nonempty l = true) (removelast ps),
     List.last ps [], currentPos + Z.of_nat (length input))
  ∧ read_loop input buffer emitted currentPos true
    = (emitted ++ filter (λ l, nonempty l = true) ps, [],
       currentPos + Z.of_nat (length input)).
Proof.
  induction input as [|b input IH]; intros buffer emitted currentPos; simpl.
  - rewrite !app_nil_r, Z.add_0_r. split; [done|].
    destruct buffer; simpl; [by rewrite app_nil_r|done].
  - assert (Hpos : currentPos + 1 + Z.of_nat (length input)
                   = currentPos + Z.pos (Pos.of_succ_nat (length input))) by lia.
    pose proof (pieces_nonempty input) as Hne.
    destruct (isTerminator b); simpl.
    + rewrite app_nil_r.
      destruct buffer as [|x buffer]; simpl.
      * destruct (IH [] emitted (currentPos + 1)) as [-> ->].
        rewrite Hpos, glue_nil by done.
        destruct (pieces input) eqn:Hp; [done|]. by rewrite <- Hp.
      * destruct (IH [] (emitted ++ [x :: buffer]) (currentPos + 1)) as [-> ->].
        rewrite Hpos, glue_nil by done.
        rewrite <- !app_assoc. simpl.
        destruct (pieces input) eqn:Hp; [done|]. by rewrite <- Hp.
    + destruct (IH (buffer ++ [b]) emitted (currentPos + 1)) as [-> ->].
      rewrite Hpos.
      destruct (pieces input) as [|p ps]; [done|]. simpl.
      by rewrite <- !app_assoc.
Qed.

Lemma pieces_all_unterminated s : Forall unterminated (pieces s).
Proof.
  induction s as [|b s IH]; simpl; [by repeat constructor|].
  destruct (isTerminator b) eqn:Hb; [by constructor; [constructor|]|].
  destruct (pieces s) as [|p ps]; [by repeat constructor|].
  inversion IH; subst. constructor; [by constructor|done].
Qed.

Lemma pieces_concat s :
  concat (pieces s) = filter (λ b, isTerminator b = false) s.
Proof.
  induction s as [|b s IH]; simpl; [done|].
  rewrite filter_cons. case_decide as Hb.
  - rewrite Hb, <- IH.
    pose proof (pieces_nonempty s). by destruct (pieces s).
  - apply not_false_is_true in Hb. by rewrite Hb.
Qed.

Lemma concat_filter_nonempty (l : list (list byte)) :
  concat (filter (λ l, nonempty l = true) l) = concat l.
Proof.
  induction l as [|x l IH]; [done|].
  rewrite filter_cons. case_decide as Hx; simpl; [by rewrite IH|].
  by destruct x.
Qed.

Lemma last_pieces_whole_lines s : whole_lines s → List.last (pieces s) [] = [].
Proof.
  intros H. rewrite (pieces_whole_lines s H). apply last_last.
Qed.

(** Whole lines can be cut off the front. *)
Lemma all_lines_app consumed rest :
  whole_lines consumed →
  all_lines (consumed ++ rest) = all_lines consumed ++ all_lines rest.
Proof.
  intros Hc. unfold all_lines at 1.
  rewrite pieces_app, (last_pieces_whole_lines _ Hc).
  rewrite glue_nil by apply pieces_nonempty.
  rewrite filter_app. f_equal.
  unfold all_lines. rewrite (pieces_whole_lines _ Hc) at 2.
  by rewrite filter_nonempty_drop_nil.
Qed.

Lemma all_lines_unterminated part :
  unterminated part → all_lines part = flushed part.
Proof.
  intros Hp. unfold all_lines, flushed. rewrite (pieces_unterminated _ Hp).
  rewrite filter_cons. case_decide as Hx; destruct part; done.
Qed.

Lemma all_lines_wellformed s :
  Forall (λ l, l ≠ [] ∧ unterminated l) (all_lines s).
Proof.
  unfold all_lines. apply Forall_forall. intros l Hl.
  apply list_elem_of_filter in Hl as [Hne Hin].
  split; [by destruct l|].
  pose proof (pieces_all_unterminated s) as Hall.
  rewrite Forall_forall in Hall. by apply Hall.
Qed.

(** The cut is the one [pieces] computes. *)
Lemma cut_unique consumed part :
  whole_lines consumed → unterminated part →
  partial (consumed ++ part) = part
  ∧ complete_lines (consumed ++ part) = all_lines consumed.
Proof.
  intros Hc Hp. unfold partial, complete_lines.
  destruct (pieces_lines_partial consumed part Hc Hp) as [-> ->].
  by rewrite last_last, removelast_last.
Qed.

(** One read, for any way of cutting the unread bytes into whole lines and
    an unterminated rest. *)
Lemma readFromPos_spec data startPos consumed part :
  0 ≤ startPos →
  drop (Z.to_nat startPos) data = consumed ++ part →
  whole_lines consumed → unterminated part →
  readFromPos false (Some data) startPos false
  = (all_lines consumed, startPos + Z.of_nat (length consumed))
  ∧ readFromPos false (Some data) startPos true
    = (all_lines consumed ++ flushed part,
       startPos + Z.of_nat (length consumed + length part)).
Proof.
  intros Hpos Hcut Hc Hp. unfold readFromPos.
  destruct (Z.ltb_spec startPos 0) as [?|_]; [lia|].
  rewrite Hcut.
  destruct (read_loop_spec (consumed ++ part) [] [] startPos) as [-> ->].
  rewrite glue_nil by apply pieces_nonempty.
  destruct (pieces_lines_partial consumed part Hc Hp) as [Hpieces Hlines].
  rewrite Hpieces, removelast_last, last_last, filter_app, <- Hlines, length_app.
  simpl. split.
  - destruct part; simpl; f_equal; lia.
  - do 2 f_equal.
    rewrite <- (all_lines_unterminated part Hp).
    unfold all_lines. by rewrite (pieces_unterminated _ Hp).
Qed.

Lemma append_only_prefix snapshot ticks final :
  append_only (snapshot :: ticks) final → snapshot `prefix_of` final.
Proof.
  revert snapshot. induction ticks as [|next ticks IH]; intros snapshot [H1 H2].
  - done.
  - etrans; [exact H1|]. by apply IH.
Qed.

Lemma tail_loop_spec ticks final : ∀ lastPos,
  append_only ticks final →
  0 ≤ lastPos ≤ Z.of_nat (length (hd final ticks)) →
  tail_loop ticks final lastPos = all_lines (drop (Z.to_nat lastPos) final).
Proof.
  induction ticks as [|snapshot ticks IH]; intros lastPos Hgrow Hpos;
    cbn [tail_loop hd] in *.
  - destruct (decompose (drop (Z.to_nat lastPos) final))
      as (consumed & part & Hcut & Hc & Hp).
    destruct (readFromPos_spec final lastPos consumed part) as [_ ->]; try done; [lia|].
    simpl. rewrite Hcut, all_lines_app by done.
    by rewrite (all_lines_unterminated part Hp).
  - destruct (decompose (drop (Z.to_nat lastPos) snapshot))
      as (consumed & part & Hcut & Hc & Hp).
    destruct (readFromPos_spec snapshot lastPos consumed part) as [-> _]; try done; [lia|].
    pose proof (append_only_prefix _ _ _ Hgrow) as [more Hfinal].
    destruct Hgrow as [Hnext Hgrow].
    assert (Hlen : length snapshot = (Z.to_nat lastPos + length consumed + length part)%nat).
    { rewrite <- (take_drop (Z.to_nat lastPos) snapshot) at 1.
      rewrite Hcut, !length_app, length_take. lia. }
    rewrite IH; [|done|].
    + assert (Hsnap : snapshot = take (Z.to_nat lastPos) snapshot ++ consumed ++ part).
      { rewrite <- Hcut. by rewrite take_drop. }
      rewrite Hfinal. rewrite Hsnap at 1 2.
      rewrite <- !app_assoc.
      assert (Htake : length (take (Z.to_nat lastPos) snapshot) = Z.to_nat lastPos)
        by (rewrite length_take; lia).
      rewrite (drop_app_length' _ _ (Z.to_nat lastPos)) by done.
      rewrite (app_assoc (take _ _) consumed).
      rewrite (drop_app_length' _ _ (Z.to_nat (lastPos + Z.of_nat (length consumed))))
        by (rewrite length_app; lia).
      by rewrite (all_lines_app consumed (part ++ more) Hc).
    + apply prefix_length in Hnext.
      destruct ticks; simpl in *; lia.
Qed.

(** The cases of [command_test.go]. *)
Example readFromPos_splits_on_CR_and_LF :
  let b := list_byte_of_string in
  let initial := b "line1" ++ [LF] ++ b "prog 10%" ++ [CR] ++ b "prog 20%"
                 ++ [CR] ++ b "prog 30%" ++ [LF] ++ b "last" ++ [LF] in
  readFromPos false (Some initial) 0 false
  = ([b "line1"; b "prog 10%"; b "prog 20%"; b "prog 30%"; b "last"], 38)
  ∧ readFromPos false
      (Some (initial ++ b "tail1" ++ [CR; LF] ++ b "tail2" ++ [LF])) 38 false
    = ([b "tail1"; b "tail2"], 51).
Proof. by vm_compute. Qed.

Example readFromPos_flushes_trailing_line :
  let b := list_byte_of_string in
  let file := b "line1" ++ [LF] ++ b "lastline-without-newline" in
  readFromPos false (Some file) 0 false = ([b "line1"], 6)
  ∧ readFromPos false (Some file) 6 true
    = ([b "lastline-without-newline"], 30)
  ∧ readFromPos true (Some file) 6 true = ([], -1)
  ∧ readFromPos false None 6 false = ([], 6).
Proof. by vm_compute. Qed.

(** Tailing a file that only grows hands over every line of the final
    file, each once and in order, the trailing partial line last. *)
Theorem tailStdPipe_emits_every_line ticks final :
  append_only ticks final → tailStdPipe ticks final = all_lines final.
Proof.
  intros H. unfold tailStdPipe. rewrite tail_loop_spec; [done|done|]. lia.
Qed.

(** C2. The unread bytes are whole lines followed by the trailing partial
    line, the piece after the last terminator. A periodic read hands over
    the whole lines and returns the offset at which the partial line
    starts, so the next read sees those bytes again, followed by what was
    appended; the final read hands over the same lines and then the
    partial line, if there is one, as the last line. Lines are cut at both
    [\n] and [\r]: no line handed over is empty or contains either byte. *)
Theorem C2_tail_partial_line (data : list byte) (startPos : Z) :
  0 ≤ startPos →
  ∃ consumed part,
    drop (Z.to_nat startPos) data = consumed ++ part
    ∧ whole_lines consumed
    ∧ unterminated part
    ∧ part = partial (drop (Z.to_nat startPos) data)
    ∧ all_lines consumed = complete_lines (drop (Z.to_nat startPos) data)
    ∧ readFromPos false (Some data) startPos false
      = (all_lines consumed, startPos + Z.of_nat (length consumed))
    ∧ readFromPos false (Some data) startPos true
      = (all_lines consumed ++ flushed part,
         startPos + Z.of_nat (length consumed + length part))
    ∧ Forall (λ l, l ≠ [] ∧ unterminated l) (all_lines consumed ++ flushed part)
    ∧ concat (all_lines consumed ++ flushed part)
      = filter (λ b, isTerminator b = false) (consumed ++ part)
    ∧ (startPos ≤ Z.of_nat (length data) →
       ∀ more,
         drop (Z.to_nat (startPos + Z.of_nat (length consumed))) (data ++ more)
         = part ++ more).
Proof.
  intros Hpos.
  destruct (decompose (drop (Z.to_nat startPos) data))
    as (consumed & part & Hcut & Hc & Hp).
  exists consumed, part.
  destruct (readFromPos_spec data startPos consumed part) as [H1 H2]; try done.
  destruct (cut_unique consumed part Hc Hp) as [Hpart Hlines].
  do 3 (split; [done|]).
  split; [by rewrite Hcut|]. split; [by rewrite Hcut|].
  do 2 (split; [done|]).
  rewrite <- (all_lines_unterminated part Hp), <- all_lines_app by done.
  split; [apply all_lines_wellformed|]. split.
  - unfold all_lines. by rewrite concat_filter_nonempty, pieces_concat.
  - intros Hle more.
    rewrite <- (take_drop (Z.to_nat startPos) data) at 1.
    rewrite Hcut, <- !app_assoc, (app_assoc (take _ _) consumed).
    apply drop_app_length'. rewrite length_app, length_take. lia.
Qed.

Lemma C2_tail_partial_line_witness :
  ∃ consumed part,
    drop (Z.to_nat 0) [x61; x0a; x62; x0d; x63] = consumed ++ part
    ∧ whole_lines consumed
    ∧ unterminated part
    ∧ part = partial (drop (Z.to_nat 0) [x61; x0a; x62; x0d; x63])
    ∧ all_lines consumed
      = complete_lines (drop (Z.to_nat 0) [x61; x0a; x62; x0d; x63])
    ∧ readFromPos false (Some [x61; x0a; x62; x0d; x63]) 0 false
      = (all_lines consumed, 0 + Z.of_nat (length consumed))
    ∧ readFromPos false (Some [x61; x0a; x62; x0d; x63]) 0 true
      = (all_lines consumed ++ flushed part,
         0 + Z.of_nat (length consumed + length part))
    ∧ Forall (λ l, l ≠ [] ∧ unterminated l) (all_lines consumed ++ flushed part)
    ∧ concat (all_lines consumed ++ flushed part)
      = filter (λ b, isTerminator b = false) (consumed ++ part)
    ∧ (0 ≤ Z.of_nat (length [x61; x0a; x62; x0d; x63]) →
       ∀ more,
         drop (Z.to_nat (0 + Z.of_nat (length consumed)))
           ([x61; x0a; x62; x0d; x63] ++ more)
         = part ++ more).
Proof.
  apply (C2_tail_partial_line [x61; x0a; x62; x0d; x63] 0). lia.
Defined.

End TailFacts.

(** ** Kernel contexts *)

Module ContextFacts.
Import Context.

Lemma with_contexts_snoc lang l p c :
  with_contexts lang (l ++ [p]) c
  = CreateContext lang p.1 p.2 (with_contexts lang l c).
Proof. unfold with_contexts. by rewrite fold_left_app. Qed.

Lemma with_contexts_defaults lang l c :
  defaultLanguageJupyterSessions (with_contexts lang l c)
  = defaultLanguageJupyterSessions c.
Proof.
  induction l as [|p l IH] using rev_ind; [done|].
  by rewrite with_contexts_snoc.
Qed.

Lemma with_contexts_dom lang l c :
  dom (jupyterClientMap (with_contexts lang l c))
  = list_to_set l.*1 ∪ dom (jupyterClientMap c).
Proof.
  induction l as [|p l IH] using rev_ind.
  - simpl. set_solver.
  - rewrite with_contexts_snoc. unfold CreateContext, storeJupyterKernel. simpl.
    rewrite dom_insert_L, IH, fmap_app, list_to_set_app_L. simpl. set_solver.
Qed.

Lemma with_contexts_language lang l c :
  map_Forall (λ _ k, language k = lang) (jupyterClientMap c) →
  map_Forall (λ _ k, language k = lang)
    (jupyterClientMap (with_contexts lang l c)).
Proof.
  intros Hc. induction l as [|p l IH] using rev_ind; [done|].
  rewrite with_contexts_snoc. unfold CreateContext, storeJupyterKernel. simpl.
  by apply map_Forall_insert_2.
Qed.

(** After [n] explicit contexts of a language and its default context, the
    listing for that language has [n + 2] entries: the default context is
    listed once as an entry of the kernel map and once more as the
    default. *)
Lemma listLanguageContexts_length lang explicit d kid url tok :
  NoDup (d :: explicit.*1) → d ≠ "" →
  let c := createDefaultLanguageContext lang d kid
             (with_contexts lang explicit (NewController url tok)) in
  length (listLanguageContexts c lang) = (length explicit + 2)%nat
  ∧ length (filter (λ x, ID x = d) (listLanguageContexts c lang)) = 2%nat.
Proof.
  intros Hnd Hd c. apply NoDup_cons in Hnd as [Hfresh Hnd].
  unfold listLanguageContexts.
  set (m := jupyterClientMap c).
  assert (Hm : m = <[d := {| kernelID := kid; language := lang |}]>
                     (jupyterClientMap (with_contexts lang explicit
                                          (NewController url tok)))) by done.
  assert (Hdef : defaultLanguageJupyterSessions c !! lang = Some d).
  { unfold c, createDefaultLanguageContext. simpl. apply lookup_insert_eq. }
  rewrite Hdef. simpl. rewrite decide_False by done.
  assert (Hall : Forall (λ p : string * jupyterKernel, language p.2 = lang)
                   (map_to_list m)).
  { apply Forall_forall. intros [s k] Hin.
    apply elem_of_map_to_list in Hin. rewrite Hm in Hin.
    apply lookup_insert_Some in Hin as [[_ <-]|[_ Hin]]; [done|].
    by eapply (with_contexts_language lang explicit (NewController url tok));
      [apply map_Forall_empty|]. }
  rewrite (filter_all _ _ Hall).
  assert (Hnone : jupyterClientMap (with_contexts lang explicit
                                      (NewController url tok)) !! d = None).
  { apply not_elem_of_dom. rewrite with_contexts_dom. simpl.
    rewrite dom_empty_L. set_solver. }
  split.
  - rewrite length_app, length_fmap, length_map_to_list. simpl.
    rewrite Hm, map_size_insert_None by done.
    rewrite <- size_dom, with_contexts_dom. simpl.
    rewrite dom_empty_L, union_empty_r_L, size_list_to_set by done.
    rewrite length_fmap. lia.
  - rewrite filter_app, length_app.
    rewrite (filter_cons _ _ []), decide_True by done. simpl.
    rewrite Hm, map_to_list_insert by done.
    rewrite fmap_cons, filter_cons, decide_True by done. simpl.
    rewrite filter_none; [done|].
    apply Forall_forall. intros x Hx.
    apply list_elem_of_fmap in Hx as ([s k] & -> & Hin). simpl.
    apply elem_of_map_to_list in Hin. intros ->. congruence.
Qed.

(** The case of [context_test.go]: a default session that is not in the
    kernel map. *)
Example list_contexts_test :
  let c := set_defaultSessions {[ "go" := "session-go-default" ]}
             (storeJupyterKernel "session-python"
                {| kernelID := ""; language := "python" |}
                (NewController "http://example" "token")) in
  listLanguageContexts c "python"
  = [ {| ID := "session-python"; ctx_Language := "python" |} ]
  ∧ length (listAllContexts c) = 2%nat.
Proof. by vm_compute. Qed.

(** C4: the code at one explicit Python context and the default one. The
    claim expects two entries; the listing has three, the default context
    twice. *)
Theorem C4_default_context_listed_twice :
  let c := createDefaultLanguageContext "python" "ctx-default" "kernel-2"
             (with_contexts "python" [("ctx-1", "kernel-1")]
                (NewController "http://jupyter" "token")) in
  listLanguageContexts c "python"
  ≡ₚ [ {| ID := "ctx-1"; ctx_Language := "python" |};
       {| ID := "ctx-default"; ctx_Language := "python" |};
       {| ID := "ctx-default"; ctx_Language := "python" |} ]
  ∧ length (listLanguageContexts c "python") = 3%nat
  ∧ length (listLanguageContexts c "python") ≠ (1 + 1)%nat.
Proof.
  intros c.
  assert (H : listLanguageContexts c "python"
              = [ {| ID := "ctx-1"; ctx_Language := "python" |};
                  {| ID := "ctx-default"; ctx_Language := "python" |};
                  {| ID := "ctx-default"; ctx_Language := "python" |} ])
    by (vm_compute; reflexivity).
  rewrite H. split; [done|]. split; [done|]. simpl. lia.
Qed.

(** C9. [GetContext] panics exactly for the ids that have no kernel
    context and returns the context of every id that has one. *)
Theorem C9_GetContext_nil_dereference (c : Controller) (session : string) :
  (getJupyterKernel c session = None
   ↔ ∃ msg, GetContext c session = Panic msg)
  ∧ (is_Some (jupyterClientMap c !! session)
     ↔ ∃ ctx, GetContext c session = Return ctx)
  ∧ GetContext (NewController (baseURL c) (token c)) session
    = Panic "runtime error: invalid memory address or nil pointer dereference"
  ∧ ∀ kernel,
      GetContext (storeJupyterKernel session kernel c) session
      = Return {| ID := session; ctx_Language := language kernel |}.
Proof.
  unfold GetContext, getJupyterKernel.
  split; [|split; [|split]].
  - destruct (jupyterClientMap c !! session); split; eauto; try done.
    by intros [? ?].
  - destruct (jupyterClientMap c !! session); split; eauto.
    + by intros [? ?].
    + by intros [? ?].
  - done.
  - intros kernel. unfold storeJupyterKernel. simpl.
    by rewrite lookup_insert_eq.
Qed.

End ContextFacts.

(** ** Kernel lookup *)

Module KernelFacts.
Import Kernel.

Lemma visit_spec lang acc entry :
  visit lang acc entry = if decide (matches lang entry) then entry.1 else acc.
Proof.
  unfold visit, matches. destruct entry as [name spec]; simpl.
  repeat case_decide; try done; naive_solver.
Qed.

(** The loop keeps the name of the last match it visited. *)
Lemma fold_visit lang visited acc :
  fold_left (visit lang) visited acc
  = default acc (last_match lang visited).
Proof.
  unfold last_match.
  induction visited as [|entry visited IH] using rev_ind; [done|].
  rewrite fold_left_app, filter_app. simpl. rewrite visit_spec, IH.
  rewrite (filter_cons _ entry []).
  case_decide; rewrite filter_nil; simpl.
  - by rewrite last_snoc.
  - by rewrite app_nil_r.
Qed.

(** Whatever the visiting order: when two or more kernelspecs match, the
    one returned is not the first one visited. *)
Lemma last_match_not_first lang (visited : list (string * KernelSpecInfo)) :
  NoDup visited.*1 →
  (2 ≤ length (filter (matches lang) visited))%nat →
  last_match lang visited ≠ first_match lang visited.
Proof.
  intros Hnd Hlen. unfold last_match, first_match.
  assert (Hnd' : NoDup (filter (matches lang) visited).*1).
  { clear Hlen. induction visited as [|e visited IH]; [constructor|].
    apply NoDup_cons in Hnd as [Hfresh Hnd]. rewrite filter_cons.
    case_decide; [|by apply IH]. simpl. apply NoDup_cons. split; [|by apply IH].
    intros Hin. apply Hfresh.
    apply list_elem_of_fmap in Hin as (e' & -> & Hin').
    apply list_elem_of_fmap. exists e'. split; [done|].
    by apply list_elem_of_filter in Hin' as [_ ?]. }
  destruct (filter (matches lang) visited) as [|a l]; [simpl in Hlen; lia|].
  destruct l as [|b l _] using rev_ind; [simpl in Hlen; lia|].
  rewrite app_comm_cons, last_snoc. simpl.
  intros [= Heq]. simpl in Hnd'. apply NoDup_cons in Hnd' as [Hfresh _].
  apply Hfresh. rewrite fmap_app. apply elem_of_app. right. simpl.
  rewrite Heq. apply list_elem_of_here.
Qed.

(** C5, as stated, fails. With two Python kernels besides [python3], the
    lookup returns the one the loop visits last, whichever order the map
    is visited in, and so never the first one. *)
Lemma C5_first_match_counterexample :
  let a := python "python-datascience" in
  let b := python "python-custom" in
  searchKernel (Ok [a; b; python "python3"]) "python" = Ok "python-custom"
  ∧ first_match "python" [a; b; python "python3"] = Some "python-datascience"
  ∧ searchKernel (Ok [b; python "python3"; a]) "python"
    = Ok "python-datascience"
  ∧ first_match "python" [b; python "python3"; a] = Some "python-custom".
Proof. repeat split; reflexivity. Qed.

(** C5, amended. The lookup returns the name of a kernelspec other than
    [python3] whose [spec.language] equals the target language: of the
    matching specs, the one the iteration over the map visits last. It
    fails with the NoKernelSpec error when no spec other than [python3]
    matches (a matching spec whose name is empty is not returned either). *)
Theorem C5_searchKernel_last_match
    (visited : list (string * KernelSpecInfo)) (lang : Language) :
  searchKernel (Ok visited) lang
  = match last_match lang visited with
    | Some name =>
        if decide (name = "") then Err "no kernel specs found" else Ok name
    | None => Err "no kernel specs found"
    end
  ∧ (∀ name,
       searchKernel (Ok visited) lang = Ok name →
       name ≠ "python3"
       ∧ ∃ info, (name, info) ∈ visited
                 ∧ spec_Language (Spec info) = Language_String lang)
  ∧ (Forall (λ entry, ¬ matches lang entry) visited →
     searchKernel (Ok visited) lang = Err "no kernel specs found").
Proof.
  assert (Hcode :
    searchKernel (Ok visited) lang
    = match last_match lang visited with
      | Some name =>
          if decide (name = "") then Err "no kernel specs found" else Ok name
      | None => Err "no kernel specs found"
      end).
  { unfold searchKernel. rewrite fold_visit.
    case_decide as Hlen.
    - destruct visited; [done|discriminate Hlen].
    - by destruct (last_match lang visited). }
  split; [exact Hcode|]. split.
  - intros name. rewrite Hcode. unfold last_match.
    destruct (last (filter (matches lang) visited)) as [[n info]|] eqn:Hlast;
      simpl; [|done].
    case_decide; [done|]. intros [= ->].
    apply last_Some_elem_of, list_elem_of_filter in Hlast as [[Hn Hl] Hin].
    split; [done|]. by exists info.
  - intros Hnone. rewrite Hcode. unfold last_match.
    rewrite filter_none; [done|exact Hnone].
Qed.

End KernelFacts.

(** ** Interrupt *)

Module InterruptFacts.
Import Interrupt.

#[local] Arguments still_running : simpl never.
#[local] Arguments kill_failed : simpl never.
#[local] Arguments gone : simpl never.
#[local] Arguments Contains : simpl never.

(** Take the next answer of the world apart. *)
Ltac answer :=
  simpl;
  match goal with
  | |- context [on_find ?w ?n ?p] =>
      destruct (on_find w n p) eqn:?
  | |- context [on_await ?w ?n ?p ?ms] =>
      destruct (on_await w n p ms) as [[?|]|] eqn:?
  | |- context [gone ?e] =>
      destruct (gone e) eqn:?
  | |- context [Contains ?e ?s] =>
      destruct (Contains e s) eqn:?
  | |- context [on_kill ?w ?n ?t ?s] =>
      destruct (on_kill w n t s) eqn:?
  end.

Ltac refute_elem H :=
  repeat (apply elem_of_cons in H as [H|H]; [try discriminate H|]);
  try (by apply elem_of_nil in H).

Ltac path :=
  simpl; unfold delay_ok;
  repeat split; intros;
  repeat match goal with
         | H : _ ∈ _ |- _ => refute_elem H
         end;
  try done;
  try (by repeat constructor);
  try (by eexists);
  try (left; by eexists);
  try (right; by eexists);
  try (apply list_elem_of_In; simpl; by auto 10).

(** A child that ignores every signal: the whole escalation. *)
Example killPid_stubborn :
  exec (killPid 42) stubborn 0
  = ([ EvFind 42; EvKill (Process 42) SIGTERM None; EvAwait 42 3000 TimedOut;
       EvKill (Process 42) SIGKILL None;
       EvKill (Process 42) Signal0 None; EvSleep 50;
       EvKill (Process 42) Signal0 None; EvSleep 50;
       EvKill (Process 42) Signal0 None; EvSleep 50 ],
     Some "process 42 might still be running").
Proof. by vm_compute. Qed.

(** The relay of [runCommand] is the one place that signals the group. *)
Example relay_signals_group :
  signals (exec (relay 42 SIGTERM) stubborn 0).1 = [(ProcessGroup 42, SIGTERM)]
  ∧ signals (exec (relay 42 SIGURG) stubborn 0).1 = [].
Proof. by vm_compute. Qed.



End InterruptFacts.

(** ** The SQL executor *)

Module SQLFacts.
Import Text SQL.

Lemma fields_from_nil s : ∀ cur,
  fields_from s cur = [] ↔ cur = [] ∧ Forall (λ r, IsSpace r = true) s.
Proof.
  induction s as [|r s IH]; intros cur; simpl.
  - destruct cur; split; try done. by intros [? _].
  - destruct (IsSpace r) eqn:Hr.
    + destruct cur as [|c cur].
      * rewrite IH. split; intros [? H]; split; try done.
        -- by constructor.
        -- by inversion H.
      * split; [done|]. by intros [? _].
    + rewrite IH. split.
      * intros [H _]. by destruct cur.
      * intros [_ H]. inversion H; congruence.
Qed.

Lemma Fields_nil code :
  Fields code = [] ↔ Forall (λ r, IsSpace r = true) code.
Proof. unfold Fields. rewrite fields_from_nil. naive_solver. Qed.

Lemma some_token code :
  Exists (λ r, IsSpace r = false) code
  ↔ ¬ Forall (λ r, IsSpace r = true) code.
Proof.
  induction code as [|r code IH].
  - split; [by inversion 1|]. intros H. by destruct H.
  - rewrite Exists_cons, Forall_cons, IH.
    destruct (IsSpace r); split; try tauto; try naive_solver.
Qed.

Lemma scan_all_ok {value : Type} (Sprint : value → string)
    (rows : list (list (option value))) : ∀ acc,
  scan Sprint (Ok <$> rows) acc
  = Ok (acc ++ ((λ row : list (option value), convert Sprint <$> row) <$> rows)).
Proof.
  induction rows as [|row rows IH]; intros acc; simpl.
  - by rewrite app_nil_r.
  - rewrite IH. by rewrite <- app_assoc.
Qed.

(** C10. A query without a token makes [getQueryType] index an empty list:
    it panics exactly for the queries that are empty or all white space,
    and returns for every query with a token. [runSQL] calls it once the
    database is initialised and answers the ping, and then panics too,
    after [OnExecuteInit] and without returning an error; only a failing
    [initDB] or ping makes it return before. *)
Theorem C10_blank_query_panics (upper : rune → rune) (value : Type)
    (Sprint : value → string) (encode : json → string)
    (db : database value) (session : string) (elapsed : Z) (code : text) :
  (Forall (λ r, IsSpace r = true) code
   ↔ getQueryType upper code
     = Panic "runtime error: index out of range [0] with length 0")
  ∧ (Exists (λ r, IsSpace r = false) code
     ↔ ∃ kind, getQueryType upper code = Return kind)
  ∧ (Forall (λ r, IsSpace r = true) code →
     match initDB db, PingContext db with
     | None, None =>
         runSQL upper Sprint encode db session elapsed code
         = ([OnExecuteInit session],
            Panic "runtime error: index out of range [0] with length 0")
     | Some e, _ =>
         runSQL upper Sprint encode db session elapsed code
         = ([OnExecuteInit session; OnExecuteError "DBInitError" e],
            Return (Some e))
     | None, Some e =>
         runSQL upper Sprint encode db session elapsed code
         = ([OnExecuteInit session; OnExecuteError "DBPingError" e],
            Return (Some e))
     end).
Proof.
  assert (Hblank : Forall (λ r, IsSpace r = true) code
                   ↔ getQueryType upper code
                     = Panic "runtime error: index out of range [0] with length 0").
  { unfold getQueryType. rewrite <- Fields_nil.
    destruct (Fields code); split; done. }
  split; [exact Hblank|]. split.
  - rewrite some_token, <- Fields_nil. unfold getQueryType.
    destruct (Fields code); split; try done; eauto.
    by intros [? ?].
  - intros Hb. apply Hblank in Hb. unfold runSQL. rewrite Hb.
    by destruct (initDB db), (PingContext db).
Qed.

Lemma marshal_described columns rows :
  columns ≠ [] → rows ≠ [] →
  marshal {| Columns := columns; Rows := rows; Error := "" |}
  = described columns rows.
Proof. by destruct columns, rows. Qed.

(** The case of [sql_test.go]. *)
Example select_two_rows :
  runSQL ascii_upper pretty print_json
    (sample_db [[Some 1; Some 10]; [Some 2; None]] 0) "uuid-0" 5
    (of_string "select * from t")
  = ([ OnExecuteInit "uuid-0";
       OnExecuteResult
         {[ "text/plain" :=
              print_json
                (described ["id"; "name"]
                   [ [AnyString "1"; AnyString "10"];
                     [AnyString "2"; AnyNil] ]) ]}
         1;
       OnExecuteComplete 5 ], Return None).
Proof. by vm_compute. Qed.

(** C7, as stated, fails for a [SELECT] without result rows: the [rows]
    member is tagged [omitempty], so the payload has the columns only. *)
Lemma C7_empty_result_counterexample :
  let code := of_string "SELECT id, name FROM t WHERE id < 0" in
  runSQL ascii_upper pretty print_json (sample_db [] 0) "uuid-1" 7 code
  = ([ OnExecuteInit "uuid-1";
       OnExecuteResult
         {[ "text/plain" :=
              print_json
                (JObject [("columns", JArray [JString "id"; JString "name"])]) ]}
         1;
       OnExecuteComplete 7 ], Return None)
  ∧ print_json (JObject [("columns", JArray [JString "id"; JString "name"])])
    ≠ print_json (described ["id"; "name"] []).
Proof.
  split; [by vm_compute|]. vm_compute. discriminate.
Qed.

(** C7, amended. When the database is initialised and answers the ping, a
    statement whose first token uppercased is [SELECT] runs as a query; if
    the query succeeds, its result is the object of [columns] and [rows],
    every cell nil (JSON null) or the printed value as a string, where a
    member whose list is empty is left out. Every other statement runs as
    an execute; if it succeeds the result is
    [{columns:["affected_rows"], rows:[[N]]}]. In both cases the payload is
    JSON-encoded and handed over by one [on_result] call with the map
    [{"text/plain": payload}] and count 1, followed by one [on_complete]
    call with the duration. *)
Theorem C7_sql_result (upper : rune → rune) (value : Type)
    (Sprint : value → string) (encode : json → string)
    (db : database value) (session : string) (elapsed : Z) (code kind : text) :
  initDB db = None →
  PingContext db = None →
  getQueryType upper code = Return kind →
  (kind = of_string "SELECT" →
   ∀ columns (rows : list (list (option value))),
     QueryContext db code
     = Ok {| rs_columns := Ok columns; rs_rows := Ok <$> rows |} →
     let cells := (λ row : list (option value), convert Sprint <$> row) <$> rows in
     let q := {| Columns := columns; Rows := cells; Error := "" |} in
     runSQL upper Sprint encode db session elapsed code
     = ([ OnExecuteInit session;
          OnExecuteResult {[ "text/plain" := encode (marshal q) ]} 1;
          OnExecuteComplete elapsed ], Return None)
     ∧ (columns ≠ [] → rows ≠ [] → marshal q = described columns cells)
     ∧ (columns ≠ [] → rows = [] →
        marshal q = JObject [("columns", JArray (JString <$> columns))])
     ∧ json_of_any (convert Sprint None) = JNull
     ∧ ∀ v, json_of_any (convert Sprint (Some v)) = JString (Sprint v))
  ∧ (kind ≠ of_string "SELECT" →
     ∀ affected,
       ExecContext db code = Ok affected →
       runSQL upper Sprint encode db session elapsed code
       = ([ OnExecuteInit session;
            OnExecuteResult
              {[ "text/plain" :=
                   encode (described ["affected_rows"] [[AnyInt64 affected]]) ]}
              1;
            OnExecuteComplete elapsed ], Return None)).
Proof.
  intros Hinit Hping Hkind. split.
  - intros -> columns rows Hquery cells q.
    split; [|split; [|split; [|done]]].
    + unfold runSQL. rewrite Hinit, Hping, Hkind, decide_True by done.
      unfold executeSelectSQLQuery. rewrite Hquery. simpl.
      by rewrite scan_all_ok.
    + intros Hc Hr. apply marshal_described; [done|]. by destruct rows.
    + intros Hc ->. by destruct columns.
  - intros Hne affected Hexec.
    unfold runSQL. rewrite Hinit, Hping, Hkind, decide_False by done.
    unfold executeUpdateSQLQuery. by rewrite Hexec.
Qed.

Lemma C7_sql_result_witness :
  runSQL ascii_upper pretty print_json (sample_db [] 3) "uuid-2" 9
    (of_string "update t set name = 1")
  = ([ OnExecuteInit "uuid-2";
       OnExecuteResult
         {[ "text/plain" :=
              print_json (described ["affected_rows"] [[AnyInt64 3]]) ]}
         1;
       OnExecuteComplete 9 ], Return None).
Proof.
  refine (proj2 (C7_sql_result ascii_upper Z pretty print_json
                   (sample_db [] 3) "uuid-2" 9
                   (of_string "update t set name = 1") (of_string "UPDATE")
                   eq_refl eq_refl eq_refl) _ 3 eq_refl).
  discriminate.
Defined.

End SQLFacts.

(** ** Expanding variables *)

Module TextFacts.
Import Text.

Lemma expand_with_fuel mapping fuel1 : ∀ fuel2 s,
  (length s ≤ fuel1)%nat → (length s ≤ fuel2)%nat →
  expand_with fuel1 mapping s = expand_with fuel2 mapping s.
Proof.
  induction fuel1 as [|fuel1 IH]; intros fuel2 s H1 H2.
  - destruct s; [|simpl in H1; lia]. by destruct fuel2.
  - destruct fuel2 as [|fuel2]; [destruct s; [done|simpl in H2; lia]|].
    destruct s as [|c rest]; [done|]. simpl in *.
    destruct ((c =? 36) && nonempty_text rest).
    + destruct (getShellName rest) as [name w]. f_equal.
      apply IH; rewrite length_drop; lia.
    + f_equal. apply IH; lia.
Qed.

Lemma Expand_cons_plain mapping c s :
  c ≠ DOLLAR → Expand mapping (c :: s) = c :: Expand mapping s.
Proof.
  intros Hc. unfold Expand. simpl.
  destruct (Z.eqb_spec c 36) as [->|_]; done.
Qed.

(** Text without a dollar sign is left as it is. *)
Lemma Expand_no_dollar mapping s : DOLLAR ∉ s → Expand mapping s = s.
Proof.
  induction s as [|c s IH]; [done|].
  intros [Hc Hs]%not_elem_of_cons.
  rewrite Expand_cons_plain by done. by rewrite IH.
Qed.

Lemma alnum_prefix_app name rest :
  Forall (λ c, isAlphaNum c = true) name → ends_name rest →
  alnum_prefix (name ++ rest) = name.
Proof.
  induction 1 as [|c name Hc _ IH]; intros Hrest; simpl.
  - destruct rest as [|c rest]; [done|]. simpl in *. by rewrite Hrest.
  - by rewrite Hc, IH.
Qed.

(** One dollar sign followed by something. *)
Lemma Expand_dollar mapping s name w :
  s ≠ [] → getShellName s = (name, w) →
  Expand mapping (DOLLAR :: s)
  = match name with
    | [] => match w with O => [DOLLAR] | S _ => [] end
    | _ :: _ => mapping name
    end ++ Expand mapping (drop w s).
Proof.
  intros Hs Hname. unfold Expand. cbn [length expand_with].
  change (DOLLAR =? 36) with true.
  destruct s as [|c s']; [done|]. cbn [andb nonempty_text].
  rewrite Hname. f_equal.
  apply expand_with_fuel; [|done]. rewrite length_drop. lia.
Qed.

(** [$NAME] is replaced by the value of [NAME]. *)
Lemma Expand_variable mapping name rest :
  plain_name name → ends_name rest →
  Expand mapping (DOLLAR :: name ++ rest)
  = mapping name ++ Expand mapping rest.
Proof.
  intros Hname Hrest. destruct name as [|c name]; [done|].
  destruct Hname as [Hspecial Hall].
  assert (Hbrace : (c =? 123) = false).
  { inversion Hall as [|? ? Hc _]; subst.
    destruct (Z.eqb_spec c 123) as [->|]; [by vm_compute in Hc|done]. }
  rewrite (Expand_dollar mapping ((c :: name) ++ rest) (c :: name)
             (length (c :: name))).
  - by rewrite drop_app_length.
  - done.
  - unfold getShellName. cbn [app]. rewrite Hbrace, Hspecial.
    change (c :: name ++ rest) with ((c :: name) ++ rest).
    by rewrite (alnum_prefix_app (c :: name) rest Hall Hrest).
Qed.

End TextFacts.

(** ** The extra-env loader *)

Module EnvFacts.
Import Text Env.

(** [SplitN2] finds the first separator, or none. *)
Lemma SplitN2_spec sep s :
  (∃ k v, s = k ++ sep :: v ∧ (sep ∉ k) ∧ SplitN2 sep s = [k; v])
  ∨ ((sep ∉ s) ∧ SplitN2 sep s = [s]).
Proof.
  induction s as [|r s IH]; simpl.
  - right. split; [apply not_elem_of_nil|done].
  - destruct (Z.eqb_spec r sep) as [->|Hne].
    + left. exists [], s. repeat split. apply not_elem_of_nil.
    + destruct IH as [(k & v & -> & Hk & ->)|[Hs ->]].
      * left. exists (r :: k), v. repeat split.
        apply not_elem_of_cons. split; [congruence|done].
      * right. split; [|done].
        apply not_elem_of_cons. split; [congruence|done].
Qed.

Lemma SplitN2_pair sep k v :
  sep ∉ k → SplitN2 sep (k ++ sep :: v) = [k; v].
Proof.
  induction k as [|r k IH]; intros Hk; simpl.
  - by rewrite Z.eqb_refl.
  - apply not_elem_of_cons in Hk as [Hr Hk].
    destruct (Z.eqb_spec r sep) as [->|_]; [done|]. by rewrite IH.
Qed.

Lemma split_unique sep (k k' v v' : text) :
  sep ∉ k → sep ∉ k' → k ++ sep :: v = k' ++ sep :: v' → k = k' ∧ v = v'.
Proof.
  intros Hk Hk' Heq.
  pose proof (SplitN2_pair sep k v Hk) as H1.
  rewrite Heq, (SplitN2_pair sep k' v' Hk') in H1. by injection H1.
Qed.

(** What a line of the file does to the map. *)
Lemma parse_line_defines getenv envs line k v :
  defines line k v → parse_line getenv envs line = <[k := Expand getenv v]> envs.
Proof.
  unfold defines, parse_line. cbv zeta.
  intros (Hne & Hhash & Hk & Hl).
  rewrite Hhash, Hl, SplitN2_pair by done.
  rewrite Hl in Hne. by destruct (k ++ EQUALS :: v).
Qed.

Lemma parse_line_cases getenv envs line :
  (∃ k v, defines line k v
          ∧ parse_line getenv envs line = <[k := Expand getenv v]> envs)
  ∨ ((∀ k v, ¬ defines line k v) ∧ parse_line getenv envs line = envs).
Proof.
  unfold parse_line, defines.
  destruct (TrimSpace line) as [|r l] eqn:Ht.
  { right. split; [|done]. by intros k v [? _]. }
  destruct (HasPrefix1 (r :: l) HASH) eqn:Hh.
  { right. split; [|done]. by intros k v (_ & ? & _). }
  cbn [is_nil orb].
  destruct (SplitN2_spec EQUALS (r :: l)) as [(k & v & Heq & Hk & ->)|[Hs ->]].
  - left. exists k, v. by repeat split.
  - right. split; [|done]. intros k v (_ & _ & _ & Heq).
    apply Hs. rewrite Heq. apply elem_of_app. right. apply list_elem_of_here.
Qed.

Lemma defines_unique line k v k' v' :
  defines line k v → defines line k' v' → k = k' ∧ v = v'.
Proof.
  intros (_ & _ & Hk & Hl) (_ & _ & Hk' & Hl').
  eapply split_unique; [exact Hk|exact Hk'|]. by rewrite <- Hl, <- Hl'.
Qed.

(** Every entry of the loaded map comes from a line that defines it. *)
Lemma load_sound getenv lines k x :
  fold_left (parse_line getenv) lines ∅ !! k = Some x →
  ∃ line v, line ∈ lines ∧ defines line k v ∧ x = Expand getenv v.
Proof.
  induction lines as [|line lines IH] using rev_ind; simpl.
  - by rewrite lookup_empty.
  - rewrite fold_left_app. simpl.
    destruct (parse_line_cases getenv (fold_left (parse_line getenv) lines ∅) line)
      as [(k' & v' & Hdef & ->)|[_ ->]].
    + intros [[-> <-]|[_ Hold]]%lookup_insert_Some.
      * exists line, v'. split; [|done]. apply elem_of_app. right.
        apply list_elem_of_here.
      * destruct (IH Hold) as (l & v & Hin & Hd & ->).
        exists l, v. split; [|done]. apply elem_of_app. by left.
    + intros Hold. destruct (IH Hold) as (l & v & Hin & Hd & ->).
      exists l, v. split; [|done]. apply elem_of_app. by left.
Qed.

(** Every defining line contributes: its key is in the map, with the value
    of the last line that defines the key. *)
Lemma load_complete getenv lines i line k v :
  lines !! i = Some line → defines line k v →
  is_Some (fold_left (parse_line getenv) lines ∅ !! k)
  ∧ ((∀ j line' v', (i < j)%nat → lines !! j = Some line' → ¬ defines line' k v') →
     fold_left (parse_line getenv) lines ∅ !! k = Some (Expand getenv v)).
Proof.
  revert i. induction lines as [|l lines IH] using rev_ind; intros i Hi Hdef.
  - done.
  - rewrite fold_left_app. simpl.
    destruct (decide (i = length lines)) as [->|Hne].
    + rewrite lookup_app_r, Nat.sub_diag in Hi by done.
      injection Hi as ->.
      rewrite (parse_line_defines _ _ _ _ _ Hdef), lookup_insert_eq. eauto.
    + assert (Hlt : (i < length lines)%nat).
      { apply lookup_lt_Some in Hi. rewrite length_app in Hi. simpl in Hi. lia. }
      rewrite lookup_app_l in Hi by done.
      destruct (IH i Hi Hdef) as [Hsome Hlast].
      destruct (parse_line_cases getenv (fold_left (parse_line getenv) lines ∅) l)
        as [(k' & v' & Hdef' & ->)|[_ ->]].
      * destruct (decide (k' = k)) as [->|Hk].
        -- rewrite lookup_insert_eq. split; [eauto|].
           intros Hno. exfalso.
           eapply (Hno (length lines) l v'); [done| |done].
           rewrite lookup_app_r, Nat.sub_diag by done. done.
        -- rewrite lookup_insert_ne by done. split; [done|].
           intros Hno. apply Hlast. intros j line' w Hj Hline'.
           apply (Hno j line' w Hj). by apply lookup_app_l_Some.
      * split; [done|].
        intros Hno. apply Hlast. intros j line' w Hj Hline'.
        apply (Hno j line' w Hj). by apply lookup_app_l_Some.
Qed.

(** *** The overlay *)

Lemma add_pair_render m k v :
  EQUALS ∉ k → add_pair m (render (k, v)) = <[k := v]> m.
Proof. intros Hk. unfold add_pair, render. simpl. by rewrite SplitN2_pair. Qed.

Lemma env_of_keys env : ∀ m,
  map_Forall (λ k _, EQUALS ∉ k) m →
  map_Forall (λ k _, EQUALS ∉ k) (fold_left add_pair env m).
Proof.
  induction env as [|kv env IH]; intros m Hm; simpl; [done|].
  apply IH. unfold add_pair.
  destruct (SplitN2_spec EQUALS kv) as [(k & v & _ & Hk & ->)|[_ ->]]; [|done].
  by apply map_Forall_insert_2.
Qed.

Lemma overlay_union (extra merged : gmap text text) :
  map_fold (λ k v m, <[k := v]> m) merged extra = extra ∪ merged.
Proof.
  apply (map_fold_weak_ind (λ r m, r = m ∪ merged)).
  - symmetry. apply (left_id_L ∅ (∪)).
  - intros k v m r Hk ->. by rewrite insert_union_l.
Qed.

Lemma fold_insert_list_to_map (l : list (text * text)) :
  fold_left (λ m p, <[p.1 := p.2]> m) l ∅
  = (list_to_map (reverse l) : gmap text text).
Proof.
  induction l as [|p l IH] using rev_ind; [done|].
  rewrite fold_left_app, reverse_app. simpl. by rewrite IH.
Qed.

Lemma env_of_render (l : list (text * text)) : ∀ m,
  Forall (λ p, EQUALS ∉ p.1) l →
  fold_left add_pair (render <$> l) m = fold_left (λ m p, <[p.1 := p.2]> m) l m.
Proof.
  induction l as [|[k v] l IH]; intros m Hl; simpl; [done|].
  inversion Hl; subst. rewrite add_pair_render by done. by apply IH.
Qed.

(** Listing a map as [KEY=VALUE] strings and reading the list back gives
    the map. *)
Lemma env_of_listing (m : gmap text text) :
  map_Forall (λ k _, EQUALS ∉ k) m → env_of (render <$> map_to_list m) = m.
Proof.
  intros Hm. unfold env_of. rewrite env_of_render.
  - rewrite fold_insert_list_to_map.
    rewrite <- (list_to_map_to_list m) at 2.
    apply list_to_map_proper; [|apply reverse_Permutation].
    rewrite fmap_reverse, reverse_Permutation. apply NoDup_fst_map_to_list.
  - apply Forall_forall. intros [k v] Hin.
    apply elem_of_map_to_list in Hin. by apply (Hm k v).
Qed.

Lemma mergeEnvs_lookup (base : list text) (extra : gmap text text) (k : text) :
  map_Forall (λ k _, EQUALS ∉ k) extra →
  env_of (mergeEnvs base extra) !! k
  = match extra !! k with
    | Some v => Some v
    | None => env_of base !! k
    end.
Proof.
  intros Hextra. unfold mergeEnvs. case_decide as Hsize.
  - apply map_size_empty_iff in Hsize. subst extra. by rewrite lookup_empty.
  - rewrite overlay_union, env_of_listing.
    + rewrite lookup_union. unfold env_of.
      destruct (extra !! k), (fold_left add_pair base ∅ !! k); done.
    + apply map_Forall_union_2; [done|].
      apply env_of_keys, map_Forall_empty.
Qed.

Lemma load_keys getenv readFile :
  map_Forall (λ k _, EQUALS ∉ k) (loadExtraEnvFromFile getenv readFile).
Proof.
  unfold loadExtraEnvFromFile.
  destruct (is_nil _); [apply map_Forall_empty|].
  destruct (readFile _) as [data|]; [|apply map_Forall_empty].
  intros k x Hk. apply load_sound in Hk as (line & v & _ & Hdef & _).
  by destruct Hdef as (_ & _ & ? & _).
Qed.

(** The cases of [env_test.go]. *)
Example load_parses_and_expands :
  let t := of_string in
  let getenv k :=
    if decide (k = t "EXECD_ENVS") then t "/tmp/env"
    else if decide (k = t "BASE_DIR") then t "/opt/base"
    else [] in
  let data := t "# comment" ++ [NEWLINE] ++ t "FOO=bar" ++ [NEWLINE]
              ++ t "PATH=$BASE_DIR/bin" ++ [NEWLINE] ++ t "MALFORMED"
              ++ [NEWLINE] ++ t "EMPTY=" ++ [NEWLINE] in
  loadExtraEnvFromFile getenv (λ _, Some data)
  = {[ t "FOO" := t "bar"; t "PATH" := t "/opt/base/bin"; t "EMPTY" := [] ]}
  ∧ loadExtraEnvFromFile getenv (λ _, None) = ∅
  ∧ loadExtraEnvFromFile (λ _, []) (λ _, Some data) = ∅.
Proof.
  repeat split; apply map_eq; intros k; apply option_eq; intros v;
    rewrite <- !elem_of_map_to_list; by vm_compute.
Qed.

Example merge_overlays_extra :
  let t := of_string in
  env_of (mergeEnvs [t "A=1"; t "B=2"]
            {[ t "B" := t "override"; t "C" := t "3" ]})
  = {[ t "A" := t "1"; t "B" := t "override"; t "C" := t "3" ]}.
Proof.
  apply map_eq; intros k; apply option_eq; intros v;
    rewrite <- !elem_of_map_to_list; by vm_compute.
Qed.

(** C8. With [EXECD_ENVS] naming a readable file: every line that, once
    trimmed, is not empty, does not start with [#] and reads [KEY=VALUE]
    puts [KEY] in the map, bound to the value of the last such line for
    [KEY] expanded through the process environment ([$NAME] becomes the
    value of [NAME], text without a dollar sign stays); nothing else is in
    the map, so a line without [=] adds nothing. Overlaid on the daemon's
    environment, the child sees the file's value for every key of the file
    and the daemon's value for every other key. *)
Theorem C8_extra_env (getenv : text → text) (readFile : text → option text)
    (base : list text) :
  let extra := loadExtraEnvFromFile getenv readFile in
  (∀ k,
     env_of (mergeEnvs base extra) !! k
     = match extra !! k with
       | Some v => Some v
       | None => env_of base !! k
       end)
  ∧ (∀ name rest,
       plain_name name → ends_name rest →
       Expand getenv (DOLLAR :: name ++ rest)
       = getenv name ++ Expand getenv rest)
  ∧ (∀ v, DOLLAR ∉ v → Expand getenv v = v)
  ∧ ∀ data,
      getenv (of_string "EXECD_ENVS") ≠ [] →
      readFile (getenv (of_string "EXECD_ENVS")) = Some data →
      let lines := Split NEWLINE data in
      (∀ i line k v,
         lines !! i = Some line → defines line k v →
         is_Some (extra !! k)
         ∧ ((∀ j line' v',
               (i < j)%nat → lines !! j = Some line' → ¬ defines line' k v') →
            extra !! k = Some (Expand getenv v)))
      ∧ (∀ k x,
           extra !! k = Some x →
           ∃ line v, line ∈ lines ∧ defines line k v ∧ x = Expand getenv v)
      ∧ (∀ line, line ∈ lines → EQUALS ∉ line →
           ∀ envs, parse_line getenv envs line = envs).
Proof.
  intros extra. split; [|split; [|split]].
  - intros k. apply mergeEnvs_lookup, load_keys.
  - intros name rest. apply TextFacts.Expand_variable.
  - intros v. apply TextFacts.Expand_no_dollar.
  - intros data Hpath Hread lines.
    assert (Hextra : extra = fold_left (parse_line getenv) lines ∅).
    { unfold extra, loadExtraEnvFromFile. rewrite Hread.
      by destruct (getenv (of_string "EXECD_ENVS")). }
    rewrite Hextra. split; [|split].
    + intros i line k v. apply load_complete.
    + intros k x. apply load_sound.
    + intros line _ Hno envs.
      destruct (parse_line_cases getenv envs line)
        as [(k & v & Hdef & _)|[_ ->]]; [|done].
      exfalso. destruct Hdef as (_ & _ & _ & Hl).
      assert (Hin : EQUALS ∈ TrimSpace line).
      { rewrite Hl. apply elem_of_app. right. apply list_elem_of_here. }
      apply Hno. revert Hin. unfold TrimSpace.
      rewrite elem_of_reverse. intros Hin.
      assert (Hsub : ∀ s, EQUALS ∈ TrimLeft s → EQUALS ∈ s).
      { induction s as [|r s IHs]; simpl; [done|].
        destruct (IsSpace r); [|done]. intros ?. right. by apply IHs. }
      apply Hsub in Hin. rewrite elem_of_reverse in Hin. by apply Hsub.
Qed.

End EnvFacts.

(** ** Listing and deleting kernel contexts *)

Module ContextOpsFacts.
Import Context ContextOps.

Lemma lookup_drop_defaults session (defaults : gmap Language string) lang :
  drop_defaults session defaults !! lang
  = match defaults !! lang with
    | Some id => if decide (id = session) then None else Some id
    | None => None
    end.
Proof.
  unfold drop_defaults.
  enough (H : map_fold
                (λ lang id m, if decide (id = session) then delete lang m else m)
                defaults defaults !! lang
              = match defaults !! lang with
                | Some id => if decide (id = session) then None
                             else defaults !! lang
                | None => defaults !! lang
                end).
  { rewrite H. destruct (defaults !! lang) eqn:Hd; [by case_decide|done]. }
  apply (map_fold_weak_ind
           (λ r m, r !! lang
                   = match m !! lang with
                     | Some id => if decide (id = session) then None
                                  else defaults !! lang
                     | None => defaults !! lang
                     end)).
  - by rewrite lookup_empty.
  - intros i x m r Hi IH. rewrite lookup_insert.
    destruct (decide (i = lang)) as [->|Hne].
    + rewrite Hi in IH. case_decide; [by rewrite lookup_delete_eq|done].
    + case_decide; [by rewrite lookup_delete_ne|done].
Qed.

Lemma elem_of_listLanguageContexts c lang x :
  x ∈ listLanguageContexts c lang
  ↔ ctx_Language x = lang ∧ listed c lang (ID x).
Proof.
  unfold listLanguageContexts, listed.
  assert (Hkernels : ∀ y,
    y ∈ ((λ p : string * jupyterKernel, {| ID := p.1; ctx_Language := lang |})
           <$> filter (λ p : string * jupyterKernel, language p.2 = lang)
                 (map_to_list (jupyterClientMap c)))
    ↔ ctx_Language y = lang
      ∧ ∃ kernel, jupyterClientMap c !! ID y = Some kernel
                  ∧ language kernel = lang).
  { intros y. rewrite list_elem_of_fmap. split.
    - intros ([s k] & -> & Hin). apply list_elem_of_filter in Hin as [Hl Hin].
      apply elem_of_map_to_list in Hin. simpl in *. eauto.
    - intros [Hy (k & Hk & Hl)]. exists (ID y, k). split.
      + destruct y; simpl in *. by subst.
      + apply list_elem_of_filter. split; [done|].
        by apply elem_of_map_to_list. }
  destruct (defaultLanguageJupyterSessions c !! lang) as [d|] eqn:Hd; simpl.
  - case_decide as Hempty.
    + rewrite Hkernels. split; [naive_solver|].
      intros [? [?|[[= <-] ?]]]; [done|done].
    + rewrite elem_of_app, Hkernels, list_elem_of_singleton. split.
      * intros [[? ?]| ->]; [by eauto|]. simpl. split; [done|]. by right.
      * intros [Hx [?|[[= Heq] ?]]]; [by left|]. right.
        destruct x; simpl in *. by subst.
  - rewrite Hkernels. naive_solver.
Qed.

(** X16 listing: [listLanguageContexts] holds exactly the ids that are a
    kernel context of the language or its non-empty default, every entry
    tagged with the language asked for; [ListContext] refuses the three
    languages that have no kernel before it reads the registry, and with
    an empty language lists every kernel context. *)
Theorem listing_sound_complete (c : Controller) (lang : Language) (id : string) :
  ((∃ x, x ∈ listLanguageContexts c lang ∧ ID x = id) ↔ listed c lang id)
  ∧ Forall (λ x, ctx_Language x = lang) (listLanguageContexts c lang)
  ∧ (∀ kernel,
       jupyterClientMap c !! id = Some kernel →
       {| ID := id; ctx_Language := language kernel |} ∈ listAllContexts c
       ∧ (language kernel ≠ "" → language kernel ≠ Language_String Command →
          language kernel ≠ Language_String BackgroundCommand →
          language kernel ≠ Language_String SQL →
          ∃ l, ListContext c (language kernel) = Ok l
               ∧ {| ID := id; ctx_Language := language kernel |} ∈ l))
  ∧ (lang = Language_String Command ∨ lang = Language_String BackgroundCommand
     ∨ lang = Language_String SQL →
     ListContext c lang
     = Err ("unsupported language context operation: " +:+ lang)).
Proof.
  split; [|split; [|split]].
  - split.
    + intros (x & Hx & <-). by apply elem_of_listLanguageContexts in Hx as [_ ?].
    + intros Hl. exists {| ID := id; ctx_Language := lang |}. split; [|done].
      by apply elem_of_listLanguageContexts.
  - apply Forall_forall. intros x Hx.
    by apply elem_of_listLanguageContexts in Hx as [? _].
  - intros kernel Hk. split.
    + unfold listAllContexts. apply elem_of_app. left.
      apply list_elem_of_fmap. exists (id, kernel). split; [done|].
      by apply elem_of_map_to_list.
    + intros H1 H2 H3 H4. unfold ListContext.
      rewrite decide_False by naive_solver. rewrite decide_False by done.
      eexists. split; [done|].
      apply elem_of_listLanguageContexts. simpl. split; [done|]. left. eauto.
  - intros Hl. unfold ListContext. by rewrite decide_True.
Qed.

(** *** Deleting *)

Lemma defaults_registered_delete session c :
  defaults_registered c →
  defaults_registered
    (set_defaultSessions
       (drop_defaults session (defaultLanguageJupyterSessions c))
       (set_jupyterClientMap (delete session (jupyterClientMap c)) c)).
Proof.
  intros Hc lang id. simpl. rewrite lookup_drop_defaults.
  destruct (defaultLanguageJupyterSessions c !! lang) as [d|] eqn:Hd; [|done].
  case_decide as Hne; [done|]. intros [= <-].
  rewrite lookup_delete_ne by done. by eapply Hc.
Qed.

Lemma deleteSessionAndCleanup_registered DS session c log :
  defaults_registered c →
  defaults_registered (deleteSessionAndCleanup DS session (c, log)).2.1.
Proof.
  intros Hc. unfold deleteSessionAndCleanup.
  destruct (getJupyterKernel c session); [|done].
  destruct (DS session); [done|]. by apply defaults_registered_delete.
Qed.

Lemma deleteSessionAndCleanup_commands DS session c log :
  commandClientMap (deleteSessionAndCleanup DS session (c, log)).2.1
  = commandClientMap c.
Proof.
  unfold deleteSessionAndCleanup.
  destruct (getJupyterKernel c session); [|done]. by destruct (DS session).
Qed.

Lemma delete_each_registered DS contexts : ∀ seen c log,
  defaults_registered c →
  defaults_registered (delete_each DS contexts seen (c, log)).2.1
  ∧ commandClientMap (delete_each DS contexts seen (c, log)).2.1
    = commandClientMap c.
Proof.
  induction contexts as [|x contexts IH]; intros seen c log Hc;
    cbn [delete_each]; [done|].
  case_decide; [by apply IH|].
  pose proof (deleteSessionAndCleanup_registered DS (ID x) c log Hc) as Hreg.
  pose proof (deleteSessionAndCleanup_commands DS (ID x) c log) as Hcmd.
  destruct (deleteSessionAndCleanup DS (ID x) (c, log)) as [[e|] [c1 log1]];
    cbn [fst snd] in *; [done|].
  rewrite <- Hcmd. by apply IH.
Qed.

Lemma apply_op_registered o c :
  defaults_registered c →
  defaults_registered (apply_op o c)
  ∧ commandClientMap (apply_op o c) = commandClientMap c.
Proof.
  intros Hc. destruct o as [lang s kid|lang s kid|DS s|DS lang];
    cbn [apply_op].
  - split; [|done]. intros l id Hl. simpl in *.
    destruct (decide (s = id)) as [->|Hne].
    + rewrite lookup_insert_eq. eauto.
    + rewrite lookup_insert_ne by done. by eapply Hc.
  - split; [|done]. intros l id. simpl.
    destruct (decide (s = id)) as [->|Hne].
    + rewrite lookup_insert_eq. eauto.
    + rewrite (lookup_insert_ne _ s id) by done.
      intros [[_ ?]|[_ Hl]]%lookup_insert_Some; [done|]. by eapply Hc.
  - split; [by apply deleteSessionAndCleanup_registered|].
    apply deleteSessionAndCleanup_commands.
  - by apply delete_each_registered.
Qed.

(** X5 registry invariant: whatever kernel contexts are created and
    deleted, and whatever the Jupyter server answers, every default
    session stays a key of the kernel map, and the command map is never
    touched. *)
Theorem defaults_always_registered (ops : list op) (url tok : string) :
  defaults_registered (apply_ops ops (NewController url tok))
  ∧ commandClientMap (apply_ops ops (NewController url tok)) = ∅.
Proof.
  unfold apply_ops.
  induction ops as [|o ops IH] using rev_ind; simpl.
  - split; [|done]. intros lang id. simpl. by rewrite lookup_empty.
  - rewrite fold_left_app. simpl. destruct IH as [IH1 IH2].
    destruct (apply_op_registered o _ IH1) as [H1 H2].
    split; [done|]. by rewrite H2.
Qed.

End ContextOpsFacts.

Module ContextDeleteFacts.
Import Context ContextOps ContextOpsFacts.

Lemma controller_eta c :
  {| baseURL := baseURL c; token := token c;
     jupyterClientMap := jupyterClientMap c;
     defaultLanguageJupyterSessions := defaultLanguageJupyterSessions c;
     commandClientMap := commandClientMap c |} = c.
Proof. by destruct c. Qed.

Lemma drop_defaults_absent session (defaults : gmap Language string) :
  (∀ lang, defaults !! lang ≠ Some session) →
  drop_defaults session defaults = defaults.
Proof.
  intros Habs. apply map_eq. intros lang. rewrite lookup_drop_defaults.
  destruct (defaults !! lang) as [id|] eqn:Hl; [|done].
  case_decide; [|done]. subst. by destruct (Habs lang).
Qed.

(** X6 create and delete: deleting a context that was just created under a
    fresh id gives back the registry as it was, for an explicit context
    and for a default one; the request reaches the Jupyter server once; a
    second delete fails with [ErrContextNotFound] without a request and
    without a change. *)
Theorem create_delete_round_trip (DeleteSession : string → option error)
    (c : Controller) (log : list string) (lang : Language) (s kid : string) :
  defaults_registered c →
  jupyterClientMap c !! s = None →
  DeleteSession s = None →
  deleteSessionAndCleanup DeleteSession s (CreateContext lang s kid c, log)
  = (None, (c, log ++ [s]))
  ∧ (defaultLanguageJupyterSessions c !! lang = None →
     deleteSessionAndCleanup DeleteSession s
       (createDefaultLanguageContext lang s kid c, log)
     = (None, (c, log ++ [s])))
  ∧ deleteSessionAndCleanup DeleteSession s (c, log ++ [s])
    = (Some ErrContextNotFound, (c, log ++ [s])).
Proof.
  intros Hreg Hfresh Hds.
  assert (Habs : ∀ l, defaultLanguageJupyterSessions c !! l ≠ Some s).
  { intros l Hl. apply Hreg in Hl as [k Hk]. congruence. }
  split; [|split].
  - unfold deleteSessionAndCleanup, CreateContext, storeJupyterKernel,
      getJupyterKernel. simpl.
    rewrite lookup_insert_eq, Hds. do 2 f_equal.
    unfold set_defaultSessions, set_jupyterClientMap. simpl.
    rewrite delete_insert_id by done.
    rewrite drop_defaults_absent by done. apply controller_eta.
  - intros Hnone.
    unfold deleteSessionAndCleanup, createDefaultLanguageContext,
      getJupyterKernel. simpl.
    rewrite lookup_insert_eq, Hds. do 2 f_equal.
    unfold set_defaultSessions, set_jupyterClientMap. simpl.
    rewrite delete_insert_id by done.
    replace (drop_defaults s (<[lang:=s]> (defaultLanguageJupyterSessions c)))
      with (defaultLanguageJupyterSessions c); [apply controller_eta|].
    apply map_eq. intros l. rewrite lookup_drop_defaults, lookup_insert.
    case_decide as Hl.
    + subst. by rewrite decide_True.
    + destruct (defaultLanguageJupyterSessions c !! l) as [id|] eqn:Hid; [|done].
      rewrite decide_False; [done|]. intros ->. by destruct (Habs l).
  - unfold deleteSessionAndCleanup, getJupyterKernel. by rewrite Hfresh.
Qed.

Lemma create_delete_round_trip_witness :
  deleteSessionAndCleanup (λ _, None) "ctx-1"
    (CreateContext "python" "ctx-1" "kernel-1" (NewController "http://j" "t"), [])
  = (None, (NewController "http://j" "t", ["ctx-1"])).
Proof.
  refine (proj1 (create_delete_round_trip (λ _, None)
                   (NewController "http://j" "t") [] "python" "ctx-1"
                   "kernel-1" _ eq_refl eq_refl)).
  intros lang id H. discriminate H.
Defined.

(** The loop of [DeleteLanguageContext] when the server deletes every
    session it is asked to: [D] is what it deletes. *)
Lemma delete_each_all DS contexts : ∀ seen c log,
  (∀ s, DS s = None) →
  (∀ x, x ∈ contexts → ID x ∉ seen → is_Some (jupyterClientMap c !! ID x)) →
  let D : gset string := list_to_set (ID <$> contexts) ∖ seen in
  ∃ c' new,
    delete_each DS contexts seen (c, log) = (None, (c', log ++ new))
    ∧ (∀ s, jupyterClientMap c' !! s
            = if decide (s ∈ D) then None else jupyterClientMap c !! s)
    ∧ (∀ lang, defaultLanguageJupyterSessions c' !! lang
               = match defaultLanguageJupyterSessions c !! lang with
                 | Some id => if decide (id ∈ D) then None else Some id
                 | None => None
                 end)
    ∧ NoDup new
    ∧ ∀ s, s ∈ new ↔ s ∈ D.
Proof.
  induction contexts as [|x contexts IH]; intros seen c log Hds Hin D;
    cbn [delete_each].
  - exists c, []. rewrite app_nil_r. subst D. simpl.
    split; [done|]. split.
    { intros s. rewrite decide_False; [done|set_solver]. }
    split.
    { intros lang. destruct (defaultLanguageJupyterSessions c !! lang); [|done].
      rewrite decide_False; [done|set_solver]. }
    split; [constructor|]. set_solver.
  - case_decide as Hseen.
    + destruct (IH seen c log Hds) as (c' & new & Heq & Hk & Hd & Hnd & Hnew).
      { intros y Hy. apply Hin. by right. }
      exists c', new. split; [done|].
      assert (HD : ∀ s, s ∈ D ↔ s ∈ list_to_set (ID <$> contexts) ∖ seen).
      { intros s. subst D. rewrite fmap_cons, list_to_set_cons. set_solver. }
      split.
      { intros s. rewrite Hk. by repeat case_decide; try done; naive_solver. }
      split.
      { intros lang. rewrite Hd.
        destruct (defaultLanguageJupyterSessions c !! lang); [|done].
        by repeat case_decide; try done; naive_solver. }
      split; [done|]. intros s. by rewrite Hnew, HD.
    + destruct (Hin x) as [k Hx]; [by left|done|].
      unfold deleteSessionAndCleanup, getJupyterKernel. rewrite Hx, Hds.
      set (c1 := set_defaultSessions _ _).
      destruct (IH ({[ID x]} ∪ seen) c1 (log ++ [ID x]) Hds)
        as (c' & new & Heq & Hk & Hd & Hnd & Hnew).
      { intros y Hy Hns. subst c1. simpl.
        rewrite lookup_delete_ne by set_solver.
        apply Hin; [by right|set_solver]. }
      exists c', (ID x :: new).
      assert (HD : ∀ s, s ∈ D ↔ s = ID x
                        ∨ s ∈ list_to_set (ID <$> contexts) ∖ ({[ID x]} ∪ seen)).
      { intros s. subst D. rewrite fmap_cons, list_to_set_cons.
        destruct (decide (s = ID x)); set_solver. }
      split.
      { rewrite Heq. by rewrite <- app_assoc. }
      split.
      { intros s. rewrite Hk. subst c1. simpl.
        destruct (decide (s = ID x)) as [->|Hne].
        - rewrite lookup_delete_eq, (decide_True (P := ID x ∈ D)) by (apply HD; by left).
          by case_decide.
        - rewrite lookup_delete_ne by done.
          by repeat case_decide; try done; naive_solver. }
      split.
      { intros lang. rewrite Hd. subst c1. simpl. rewrite lookup_drop_defaults.
        destruct (defaultLanguageJupyterSessions c !! lang) as [id|]; [|done].
        destruct (decide (id = ID x)) as [->|Hne].
        - by rewrite (decide_True (P := ID x ∈ D)) by (apply HD; by left).
        - by repeat case_decide; try done; naive_solver. }
      split.
      { apply NoDup_cons. split; [|done]. rewrite Hnew. set_solver. }
      intros s. rewrite elem_of_cons, Hnew, HD. done.
Qed.

(** X7 purge of a language: when every default session is registered and
    the server deletes every session it is asked to,
    [DeleteLanguageContext] succeeds; it asks the server once for each
    listed id, the default included, and for nothing else; afterwards the
    listing of the language is empty, its default entry is gone (an entry
    with the empty id, which the listing skips, stays), and the kernel
    contexts that were not listed are as before. *)
Theorem purge_language (DeleteSession : string → option error)
    (c : Controller) (log : list string) (lang : Language) :
  defaults_registered c →
  (∀ s, DeleteSession s = None) →
  ∃ c' new,
    DeleteLanguageContext DeleteSession lang (c, log) = (None, (c', log ++ new))
    ∧ NoDup new
    ∧ (∀ s, s ∈ new ↔ listed c lang s)
    ∧ listLanguageContexts c' lang = []
    ∧ (defaultLanguageJupyterSessions c !! lang ≠ Some "" →
       defaultLanguageJupyterSessions c' !! lang = None)
    ∧ (∀ s, ¬ listed c lang s →
            jupyterClientMap c' !! s = jupyterClientMap c !! s)
    ∧ defaults_registered c'.
Proof.
  intros Hreg Hds. unfold DeleteLanguageContext. cbn [fst].
  assert (HD : ∀ s, s ∈ (list_to_set (ID <$> listLanguageContexts c lang)
                           ∖ ∅ : gset string)
                    ↔ listed c lang s).
  { intros s. rewrite difference_empty_L, elem_of_list_to_set, list_elem_of_fmap.
    split.
    - intros (x & -> & Hx). by apply elem_of_listLanguageContexts in Hx as [_ ?].
    - intros Hl. exists {| ID := s; ctx_Language := lang |}. split; [done|].
      by apply elem_of_listLanguageContexts. }
  destruct (delete_each_all DeleteSession (listLanguageContexts c lang) ∅ c log Hds)
    as (c' & new & Heq & Hk & Hd & Hnd & Hnew).
  { intros x Hx _. apply elem_of_listLanguageContexts in Hx as [_ Hx].
    destruct Hx as [(k & Hk & _)|[Hx _]]; [eauto|by eapply Hreg]. }
  exists c', new. split; [done|]. split; [done|].
  split; [intros s; by rewrite Hnew, HD|].
  assert (Hgone : ∀ s, ¬ listed c' lang s).
  { intros s [(k & Hs & Hl)|[Hs Hne]].
    - rewrite Hk in Hs. case_decide as HsD; [done|].
      apply HsD, HD. left. eauto.
    - rewrite Hd in Hs.
      destruct (defaultLanguageJupyterSessions c !! lang) as [id|] eqn:Hid;
        [|done].
      case_decide as HsD; [done|]. injection Hs as ->.
      apply HsD, HD. right. by split. }
  split.
  { destruct (listLanguageContexts c' lang) as [|x l] eqn:Hl; [done|].
    exfalso. apply (Hgone (ID x)).
    assert (Hx : x ∈ listLanguageContexts c' lang) by (rewrite Hl; by left).
    by apply elem_of_listLanguageContexts in Hx as [_ ?]. }
  split.
  { intros Hnonempty.
    destruct (defaultLanguageJupyterSessions c' !! lang) as [id|] eqn:Hid;
      [|done].
    exfalso. rewrite Hd in Hid.
    destruct (defaultLanguageJupyterSessions c !! lang) as [id0|] eqn:Hid0;
      [|done].
    case_decide as HsD; [done|]. injection Hid as ->.
    apply HsD, HD. right. split; [done|]. by intros ->. }
  split.
  { intros s Hs. rewrite Hk. rewrite decide_False; [done|]. by rewrite HD. }
  pose proof (delete_each_registered DeleteSession (listLanguageContexts c lang)
                ∅ c log Hreg) as [Hr _].
  by rewrite Heq in Hr.
Qed.

Lemma purge_language_witness :
  let c := CreateContext "python" "ctx-1" "kernel-1" (NewController "http://j" "t") in
  ∃ c' new,
    DeleteLanguageContext (λ _, None) "python" (c, []) = (None, (c', [] ++ new))
    ∧ NoDup new
    ∧ (∀ s, s ∈ new ↔ listed c "python" s)
    ∧ listLanguageContexts c' "python" = []
    ∧ (defaultLanguageJupyterSessions c !! "python" ≠ Some "" →
       defaultLanguageJupyterSessions c' !! "python" = None)
    ∧ (∀ s, ¬ listed c "python" s →
            jupyterClientMap c' !! s = jupyterClientMap c !! s)
    ∧ defaults_registered c'.
Proof.
  intros c.
  apply (purge_language (λ _, None) c [] "python"); [|done].
  intros lang id H. discriminate H.
Defined.

End ContextDeleteFacts.

Module TailMoreFacts.
Import Tail TailFacts.

Lemma tailStdPipe_emits_every_line_witness :
  tailStdPipe [[x61]; [x61; x0a; x62]] [x61; x0a; x62; x0d; x63]
  = all_lines [x61; x0a; x62; x0d; x63].
Proof.
  apply tailStdPipe_emits_every_line. simpl.
  split; [by exists [x0a; x62]|]. split; [by exists [x0d; x63]|done].
Defined.

Lemma filter_unterminated part :
  unterminated part → filter (λ b, isTerminator b = false) part = part.
Proof.
  induction 1 as [|b part Hb _ IH]; [done|].
  rewrite filter_cons_True by done. by rewrite IH.
Qed.

Lemma concat_all_lines s :
  concat (all_lines s) = filter (λ b, isTerminator b = false) s.
Proof. unfold all_lines. by rewrite concat_filter_nonempty, pieces_concat. Qed.

Lemma concat_flushed part : concat (flushed part) = part.
Proof. destruct part; [done|]. simpl. by rewrite app_nil_r. Qed.

(** X2 reading from a position: a read that starts at a position that is
    not negative returns a position between the start and the end of the
    file (the start itself when it lies beyond the end), and the end when
    it flushes; no line it hands over is empty or holds a terminator; and
    the bytes of the lines are the bytes of the file between the start and
    the returned position with the terminators taken out, so no byte is
    lost, repeated or invented. *)
Theorem readFromPos_consumed (data : list byte) (startPos : Z) (flush : bool) :
  0 ≤ startPos →
  ∃ out newPos,
    readFromPos false (Some data) startPos flush = (out, newPos)
    ∧ startPos ≤ newPos ≤ Z.max startPos (Z.of_nat (length data))
    ∧ (flush = true → newPos = Z.max startPos (Z.of_nat (length data)))
    ∧ Forall (λ l, l ≠ [] ∧ unterminated l) out
    ∧ concat out
      = filter (λ b, isTerminator b = false)
          (Command.slice data startPos newPos).
Proof.
  intros Hpos.
  destruct (decompose (drop (Z.to_nat startPos) data))
    as (consumed & part & Hsplit & Hwhole & Hunt).
  destruct (readFromPos_spec data startPos consumed part Hpos Hsplit Hwhole Hunt)
    as [Hperiodic Hflush].
  assert (Hlen : (length consumed + length part = length data - Z.to_nat startPos)%nat).
  { by rewrite <- length_app, <- Hsplit, length_drop. }
  assert (Hlines : Forall (λ l : list byte, l ≠ [] ∧ unterminated l)
                     (all_lines consumed)) by apply all_lines_wellformed.
  destruct flush.
  - eexists _, _. split; [exact Hflush|].
    split; [lia|]. split; [lia|]. split.
    + apply Forall_app. split; [done|].
      destruct part as [|b part]; [constructor|].
      constructor; [|constructor]. by split.
    + unfold Command.slice.
      replace (Z.to_nat (startPos + Z.of_nat (length consumed + length part)
                         - startPos))
        with (length (consumed ++ part)) by (rewrite length_app; lia).
      rewrite Hsplit, firstn_all, concat_app, concat_all_lines, concat_flushed.
      by rewrite filter_app, (filter_unterminated part).
  - eexists _, _. split; [exact Hperiodic|].
    split; [lia|]. split; [done|]. split; [done|].
    unfold Command.slice.
    replace (Z.to_nat (startPos + Z.of_nat (length consumed) - startPos))
      with (length consumed) by lia.
    rewrite Hsplit, take_app_length. apply concat_all_lines.
Qed.

Lemma readFromPos_consumed_witness :
  ∃ out newPos,
    readFromPos false (Some [x61; x0a; x62; x0d; x63]) 2 false = (out, newPos)
    ∧ 2 ≤ newPos ≤ Z.max 2 (Z.of_nat (length [x61; x0a; x62; x0d; x63]))
    ∧ (false = true
       → newPos = Z.max 2 (Z.of_nat (length [x61; x0a; x62; x0d; x63])))
    ∧ Forall (λ l, l ≠ [] ∧ unterminated l) out
    ∧ concat out
      = filter (λ b, isTerminator b = false)
          (Command.slice [x61; x0a; x62; x0d; x63] 2 newPos).
Proof. apply (readFromPos_consumed [x61; x0a; x62; x0d; x63] 2 false). lia. Defined.

End TailMoreFacts.

Module SeekMoreFacts.
Import Command.

(** X3 when the output can be read: [SeekBackgroundCommandOutput] returns
    bytes and a cursor exactly when the session is a registered command
    that runs in the background, its combined output file can be opened
    and the cursor is not negative; in every other case it returns an
    error. A command run in the foreground has no readable output, whatever
    its files hold. *)
Theorem seek_succeeds_iff (c : Controller) (fs : gmap string (list byte))
    (session : string) (cursor : Z) :
  ((∃ r, SeekBackgroundCommandOutput c fs session cursor = Ok r)
   ↔ ∃ kernel file,
       commandClientMap c !! session = Some kernel
       ∧ isBackground kernel = true
       ∧ fs !! stdoutPath kernel = Some file
       ∧ 0 ≤ cursor)
  ∧ ((∃ e, SeekBackgroundCommandOutput c fs session cursor = Err e)
     ↔ ¬ ∃ r, SeekBackgroundCommandOutput c fs session cursor = Ok r)
  ∧ (∀ kernel,
       commandClientMap c !! session = Some kernel →
       isBackground kernel = false →
       SeekBackgroundCommandOutput c fs session cursor
       = Err ("command " +:+ session +:+ " is not running in background")).
Proof.
  unfold SeekBackgroundCommandOutput, commandSnapshot.
  split; [|split].
  - destruct (commandClientMap c !! session) as [kernel|] eqn:Hk.
    + destruct (isBackground kernel) eqn:Hbg; simpl.
      * destruct (fs !! stdoutPath kernel) as [file|] eqn:Hf.
        -- destruct (Z.ltb_spec cursor 0).
           ++ split; [by intros [r ?]|]. intros (k & f & [= <-] & _ & _ & ?). lia.
           ++ split; [|by eauto]. intros _. exists kernel, file. by eauto.
        -- split; [by intros [r ?]|].
           intros (k & f & [= <-] & _ & Hf' & _). congruence.
      * split; [by intros [r ?]|].
        intros (k & f & [= <-] & Hbg' & _). congruence.
    + split; [by intros [r ?]|]. by intros (k & f & ? & _).
  - destruct (commandClientMap c !! session) as [kernel|];
      [destruct (isBackground kernel); simpl;
       [destruct (fs !! stdoutPath kernel);
        [destruct (cursor <? 0)|]|]|];
      (split; [by intros [e ?] [r ?]|]); intros Hno; eauto.
    destruct Hno. eauto.
  - intros kernel -> ->. done.
Qed.

(** X4 polling the output: when the output file has grown by appending
    between two calls, a call at a cursor followed by a call at the cursor
    it returned deliver together exactly what one call at the first cursor
    delivers on the grown file, and end at the same cursor. *)
Theorem seek_resume (c : Controller) (fs1 fs2 : gmap string (list byte))
    (session : string) (kernel : commandKernel) (file1 file2 : list byte)
    (cursor : Z) :
  commandClientMap c !! session = Some kernel →
  isBackground kernel = true →
  fs1 !! stdoutPath kernel = Some file1 →
  fs2 !! stdoutPath kernel = Some file2 →
  file1 `prefix_of` file2 →
  0 ≤ cursor →
  ∃ b1 c1 b2 c2,
    SeekBackgroundCommandOutput c fs1 session cursor = Ok (b1, c1)
    ∧ SeekBackgroundCommandOutput c fs2 session c1 = Ok (b2, c2)
    ∧ SeekBackgroundCommandOutput c fs2 session cursor = Ok (b1 ++ b2, c2).
Proof.
  intros Hk Hbg Hf1 Hf2 [more ->] Hcur.
  unfold SeekBackgroundCommandOutput, commandSnapshot.
  rewrite Hk, Hbg, Hf1, Hf2. simpl.
  destruct (Z.ltb_spec cursor 0) as [?|_]; [lia|].
  eexists _, _, _, _. split; [reflexivity|].
  destruct (Z.ltb_spec (cursor + Z.of_nat (length (drop (Z.to_nat cursor) file1))) 0)
    as [?|_]; [lia|].
  split; [reflexivity|].
  rewrite !length_drop, !length_app.
  destruct (decide (Z.to_nat cursor ≤ length file1)%nat) as [Hle|Hgt].
  - replace (Z.to_nat (cursor + Z.of_nat (length file1 - Z.to_nat cursor)))
      with (length file1) by lia.
    rewrite drop_app_length, (drop_app_le file1 more) by done.
    do 2 f_equal. lia.
  - rewrite (drop_ge file1) by lia. simpl.
    replace (Z.to_nat (cursor + Z.of_nat (length file1 - Z.to_nat cursor)))
      with (Z.to_nat cursor) by lia.
    do 2 f_equal. lia.
Qed.

Lemma seek_resume_witness :
  let k := {| pid := 7; stdoutPath := "/tmp/s1.output";
              stderrPath := "/tmp/s1.output"; startedAt := 100;
              finishedAt := None; exitCode := None; errMsg := "";
              running := true; isBackground := true; content := "make" |} in
  let c := storeCommandKernel "s1" k (NewController "" "") in
  let fs1 : gmap string (list byte) := {[ "/tmp/s1.output" := [x6f; x6b] ]} in
  let fs2 : gmap string (list byte) :=
    {[ "/tmp/s1.output" := [x6f; x6b; x0a; x6f] ]} in
  ∃ b1 c1 b2 c2,
    SeekBackgroundCommandOutput c fs1 "s1" 1 = Ok (b1, c1)
    ∧ SeekBackgroundCommandOutput c fs2 "s1" c1 = Ok (b2, c2)
    ∧ SeekBackgroundCommandOutput c fs2 "s1" 1 = Ok (b1 ++ b2, c2).
Proof.
  intros k c fs1 fs2.
  apply (seek_resume c fs1 fs2 "s1" k [x6f; x6b] [x6f; x6b; x0a; x6f] 1);
    [reflexivity|reflexivity|reflexivity|reflexivity| |lia].
  by exists [x0a; x6f].
Defined.

End SeekMoreFacts.

Module EnvMoreFacts.
Import Text Env EnvFacts.

Lemma fold_parse_line_undefined getenv lines : ∀ envs,
  Forall (λ line, ∀ k v, ¬ defines line k v) lines →
  fold_left (parse_line getenv) lines envs = envs.
Proof.
  induction lines as [|line lines IH]; intros envs Hall; [done|].
  apply Forall_cons in Hall as [Hline Hall]. simpl.
  destruct (parse_line_cases getenv envs line) as [(k & v & Hd & _)|[_ ->]].
  - by destruct (Hline k v).
  - by apply IH.
Qed.

(** X8 no extra variables: when [EXECD_ENVS] is unset or empty, when the
    file it names cannot be read, or when no line of the file defines a
    variable (blank lines, comments, lines without [=]), the environment
    handed to the command is the daemon's own, entry for entry, in the
    same order and with its duplicates and malformed entries. *)
Theorem mergeEnvs_without_extra (getenv : text → text)
    (readFile : text → option text) (base : list text) :
  getenv (of_string "EXECD_ENVS") = []
  ∨ readFile (getenv (of_string "EXECD_ENVS")) = None
  ∨ (∃ data, readFile (getenv (of_string "EXECD_ENVS")) = Some data
             ∧ Forall (λ line, ∀ k v, ¬ defines line k v) (Split NEWLINE data)) →
  mergeEnvs base (loadExtraEnvFromFile getenv readFile) = base.
Proof.
  intros Hcase.
  assert (Hempty : loadExtraEnvFromFile getenv readFile = ∅).
  { unfold loadExtraEnvFromFile.
    destruct (getenv (of_string "EXECD_ENVS")) as [|r path] eqn:Hpath; [done|].
    cbn [is_nil].
    destruct Hcase as [?|[->|(data & -> & Hall)]]; [done|done|].
    by apply fold_parse_line_undefined. }
  rewrite Hempty. unfold mergeEnvs. by rewrite decide_True.
Qed.

Lemma mergeEnvs_without_extra_witness :
  mergeEnvs [of_string "A=1"; of_string "broken"; of_string "A=2"]
    (loadExtraEnvFromFile (λ _, []) (λ _, None))
  = [of_string "A=1"; of_string "broken"; of_string "A=2"].
Proof. apply mergeEnvs_without_extra. by left. Defined.

Lemma elem_of_render_listing (m : gmap text text) (kv : text) :
  map_Forall (λ k _, EQUALS ∉ k) m →
  kv ∈ render <$> map_to_list m
  ↔ ∃ k v, kv = k ++ (EQUALS :: v) ∧ (EQUALS ∉ k) ∧ m !! k = Some v.
Proof.
  intros Hkeys. rewrite list_elem_of_fmap. split.
  - intros ([k v] & -> & Hin). apply elem_of_map_to_list in Hin.
    exists k, v. split; [done|]. split; [|done]. by eapply (Hkeys k v).
  - intros (k & v & -> & _ & Hin). exists (k, v). split; [done|].
    by apply elem_of_map_to_list.
Qed.

(** X9 merged environment: when there are extra variables (none of their
    names holding [=]), the environment handed to the command holds one
    [KEY=VALUE] entry for each variable of the overlay of the extras on
    the daemon's environment and nothing else: no entry occurs twice, no
    variable is defined twice, and an entry of the daemon's environment
    without [=] is dropped. *)
Theorem mergeEnvs_wellformed (base : list text) (extra : gmap text text) :
  extra ≠ ∅ →
  map_Forall (λ k _, EQUALS ∉ k) extra →
  (∀ kv, kv ∈ mergeEnvs base extra
         ↔ ∃ k v, kv = k ++ (EQUALS :: v) ∧ (EQUALS ∉ k)
                  ∧ (extra ∪ env_of base) !! k = Some v)
  ∧ NoDup (mergeEnvs base extra)
  ∧ length (mergeEnvs base extra) = size (extra ∪ env_of base)
  ∧ (∀ k v v', (EQUALS ∉ k) →
               k ++ (EQUALS :: v) ∈ mergeEnvs base extra →
               k ++ (EQUALS :: v') ∈ mergeEnvs base extra → v = v')
  ∧ (∀ kv, (EQUALS ∉ kv) → kv ∉ mergeEnvs base extra).
Proof.
  intros Hne Hextra.
  assert (Hkeys : map_Forall (λ k _, EQUALS ∉ k) (extra ∪ env_of base)).
  { intros k v Hk. apply lookup_union_Some_raw in Hk as [Hk|[_ Hk]].
    - by eapply (Hextra k v).
    - by eapply (env_of_keys base ∅ (map_Forall_empty _) k v). }
  assert (Hout : mergeEnvs base extra
                 = render <$> map_to_list (extra ∪ env_of base)).
  { unfold mergeEnvs. rewrite decide_False.
    - by rewrite overlay_union.
    - intros Hsize. by apply map_size_empty_iff in Hsize. }
  rewrite Hout.
  assert (Hin := λ kv, elem_of_render_listing _ kv Hkeys).
  split; [done|]. split; [|split; [|split]].
  - apply NoDup_fmap_2_strong; [|apply NoDup_map_to_list].
    intros [k v] [k' v'] Hx Hy Heq.
    apply elem_of_map_to_list in Hx, Hy. unfold render in Heq. simpl in Heq.
    destruct (split_unique EQUALS k k' v v') as [-> ->]; try done.
    + by eapply (Hkeys k v).
    + by eapply (Hkeys k' v').
  - by rewrite length_fmap, length_map_to_list.
  - intros k v v' Hk Hv Hv'.
    apply Hin in Hv as (k1 & v1 & Heq1 & Hk1 & Hl1).
    apply Hin in Hv' as (k2 & v2 & Heq2 & Hk2 & Hl2).
    destruct (split_unique EQUALS k k1 v v1) as [-> ->]; try done.
    destruct (split_unique EQUALS k1 k2 v' v2) as [-> ->]; try done.
    congruence.
  - intros kv Hno Hkv. apply Hin in Hkv as (k & v & -> & _).
    apply Hno. rewrite elem_of_app, elem_of_cons. by right; left.
Qed.

Lemma mergeEnvs_wellformed_witness :
  NoDup (mergeEnvs [of_string "A=1"; of_string "broken"; of_string "A=2"]
           {[ of_string "B" := of_string "3" ]}).
Proof.
  refine (proj1 (proj2 (mergeEnvs_wellformed
            [of_string "A=1"; of_string "broken"; of_string "A=2"]
            {[ of_string "B" := of_string "3" ]} _ _))).
  - apply insert_non_empty.
  - apply map_Forall_singleton. vm_compute. intros H.
    repeat (apply elem_of_cons in H as [H|H]; [discriminate H|]).
    by apply elem_of_nil in H.
Defined.

End EnvMoreFacts.

Module InterruptMoreFacts.
Import Interrupt Budget InterruptFacts.

#[local] Arguments still_running : simpl never.
#[local] Arguments kill_failed : simpl never.
#[local] Arguments gone : simpl never.
#[local] Arguments Contains : simpl never.

(** X10 cost and success of an interrupt: whatever the operating system
    answers, [killPid] makes at most ten calls and asks for at most 3150 ms
    of waiting (one 3 s wait, three 50 ms sleeps); and it reports success
    exactly when its last call was answered with evidence that the process
    is gone: a signal refused because the process has finished, a wait
    that returned without error, or a probe that found no such process. A
    SIGKILL that was merely delivered is never taken for success. *)
Theorem killPid_budget (p : Z) (w : world) (n : nat) :
  let tr := (exec (killPid p) w n).1 in
  let res := (exec (killPid p) w n).2 in
  total_delay tr ≤ 3150
  ∧ (length tr ≤ 10)%nat
  ∧ (res = None ↔ ∃ e, last tr = Some e ∧ evidence e = true)
  ∧ Forall (λ e, evidence e = true → last tr = Some e) tr.
Proof.
  unfold killPid, force.
  repeat answer; simpl;
    (split; [lia|]); (split; [lia|]);
    (split;
     [split;
      [intros H;
       first [discriminate H
             |eexists; split; [reflexivity|]; simpl; by rewrite ?orb_true_r]
      |intros (e' & [= <-] & He); simpl in He; congruence]
     |]);
    repeat constructor; simpl; intros He; congruence.
Qed.

End InterruptMoreFacts.

Module KernelMoreFacts.
Import Kernel KernelFacts.

Lemma searchKernel_last lang visited :
  searchKernel (Ok visited) lang
  = match last_match lang visited with
    | Some name =>
        if decide (name = "") then Err "no kernel specs found" else Ok name
    | None => Err "no kernel specs found"
    end.
Proof.
  unfold searchKernel.
  destruct visited as [|entry visited]; [done|].
  destruct (decide (length (entry :: visited) = 0%nat)) as [Hlen|_]; [done|].
  rewrite fold_visit.
  by destruct (last_match lang (entry :: visited)).
Qed.

Lemma filter_at_most_one {A} (P : A → Prop) `{!∀ x, Decision (P x)}
    (l l' : list A) :
  l ≡ₚ l' → (length (filter P l) ≤ 1)%nat → filter P l = filter P l'.
Proof.
  intros Hperm Hlen.
  assert (Hp : filter P l ≡ₚ filter P l') by by rewrite Hperm.
  destruct (filter P l) as [|x [|y rest]] eqn:Hf.
  - by apply Permutation_nil_l in Hp.
  - by apply Permutation_singleton_l in Hp.
  - simpl in Hlen. lia.
Qed.

(** X11 the kernel lookup and the order of the listing: the kernelspecs
    are visited in the order of a Go map, which is not fixed. When at most
    one kernelspec other than [python3] has the language, every order
    gives the same answer; when two or more have it (under different
    names), visiting them in the opposite order gives a different answer. *)
Theorem searchKernel_order (lang : Language)
    (visited : list (string * KernelSpecInfo)) :
  ((length (filter (matches lang) visited) ≤ 1)%nat →
   ∀ visited', visited ≡ₚ visited' →
     searchKernel (Ok visited') lang = searchKernel (Ok visited) lang)
  ∧ (NoDup visited.*1 →
     (2 ≤ length (filter (matches lang) visited))%nat →
     searchKernel (Ok (reverse visited)) lang ≠ searchKernel (Ok visited) lang).
Proof.
  split.
  - intros Hone visited' Hperm. rewrite !searchKernel_last.
    unfold last_match. by rewrite (filter_at_most_one _ _ _ Hperm Hone).
  - intros Hnd Htwo. rewrite !searchKernel_last.
    pose proof (last_match_not_first lang visited Hnd Htwo) as Hdiff.
    assert (Hrev : last_match lang (reverse visited) = first_match lang visited).
    { unfold last_match, first_match.
      by rewrite filter_reverse, last_reverse. }
    rewrite Hrev.
    assert (Hsome : ∃ a b, first_match lang visited = Some a
                           ∧ last_match lang visited = Some b).
    { unfold first_match, last_match.
      destruct (filter (matches lang) visited) as [|x l] eqn:Hf;
        [simpl in Htwo; lia|].
      destruct (last (x :: l)) as [y|] eqn:Hl; [by eauto|].
      by apply last_None in Hl. }
    destruct Hsome as (a & b & Ha & Hb). rewrite Ha, Hb in *.
    repeat case_decide; congruence.
Qed.

End KernelMoreFacts.

Module ExecFacts.
Import Command Tail Exec.

Lemma omap_weave_l {A B : Type} (f : A → option B) (sched : list bool) :
  ∀ a b, Forall (λ y, f y = None) b → omap f (weave sched a b) = omap f a.
Proof.
  assert (Hnone : ∀ b, Forall (λ y, f y = None) b → omap f b = []).
  { induction 1 as [|y b Hy _ IH]; [done|]. simpl. by rewrite Hy. }
  induction sched as [|first sched IH]; intros a b Hb; simpl.
  - by rewrite omap_app, (Hnone b Hb), app_nil_r.
  - destruct a as [|x a]; [by apply Hnone|].
    destruct b as [|y b]; [done|].
    destruct first; simpl.
    + by rewrite IH.
    + apply Forall_cons in Hb as [Hy Hb]. rewrite Hy. by apply IH.
Qed.

Lemma omap_weave_r {A B : Type} (f : A → option B) (sched : list bool) :
  ∀ a b, Forall (λ x, f x = None) a → omap f (weave sched a b) = omap f b.
Proof.
  assert (Hnone : ∀ a, Forall (λ y, f y = None) a → omap f a = []).
  { induction 1 as [|y b Hy _ IH]; [done|]. simpl. by rewrite Hy. }
  induction sched as [|first sched IH]; intros a b Ha; simpl.
  - by rewrite omap_app, (Hnone a Ha).
  - destruct a as [|x a]; [done|].
    destruct b as [|y b]; [by apply Hnone|].
    destruct first; simpl.
    + apply Forall_cons in Ha as [Hx Ha]. rewrite Hx. by apply IH.
    + by rewrite IH.
Qed.

Lemma omap_fmap_some {A B C : Type} (f : B → option C) (g : A → B)
    (h : A → C) (l : list A) :
  (∀ x, f (g x) = Some (h x)) → omap f (g <$> l) = h <$> l.
Proof. intros H. induction l as [|x l IH]; [done|]. csimpl. by rewrite H, IH. Qed.

Lemma Forall_fmap_none {A B C : Type} (f : B → option C) (g : A → B)
    (l : list A) :
  (∀ x, f (g x) = None) → Forall (λ y, f y = None) (g <$> l).
Proof. intros H. apply Forall_fmap, Forall_forall. intros x _. apply H. Qed.

Lemma tailStdPipe_all_lines ticks final :
  append_only ticks final → tailStdPipe ticks final = all_lines final.
Proof.
  intros Happ. unfold tailStdPipe.
  rewrite TailFacts.tail_loop_spec; [done|done|]. lia.
Qed.

Lemma tailers_not_own o : Forall (λ e, own e = None) (tailers o).
Proof.
  unfold tailers.
  generalize (tailStdPipe (ob_stdout_ticks o) (ob_stdout o)) as outs.
  generalize (tailStdPipe (ob_stderr_ticks o) (ob_stderr o)) as errs.
  generalize (ob_tailers o) as sched.
  induction sched as [|first sched IH]; intros errs outs; simpl.
  - apply Forall_app. split; apply Forall_fmap, Forall_forall; by intros.
  - destruct outs as [|x outs]; simpl.
    { apply Forall_fmap, Forall_forall; by intros. }
    destruct errs as [|y errs]; simpl.
    { constructor; [done|]. apply Forall_fmap, Forall_forall; by intros. }
    destruct first; constructor; try done.
    + apply (IH (y :: errs) outs).
    + apply (IH errs (x :: outs)).
Qed.

Lemma omap_own_compose {B : Type} (f : event → option B) (tr : list event) :
  (∀ e, own e = None → f e = None) → omap f (omap own tr) = omap f tr.
Proof.
  intros H. induction tr as [|e tr IH]; [done|]. csimpl.
  destruct (own e) as [e'|] eqn:He.
  - assert (e' = e) as ->.
    { destruct e as [[]|]; simpl in He; congruence. }
    csimpl. by rewrite IH.
  - by rewrite (H e He).
Qed.

Lemma control_omap tr :
  control tr
  = omap (λ e, match e with
               | Hook h => if is_output h then None else Some h
               | Registry _ => None
               end) tr.
Proof.
  unfold control, hooks. induction tr as [|[h|a] tr IH]; [done| |]; csimpl.
  - destruct (is_output h) eqn:Hh.
    + by rewrite filter_cons_False by congruence.
    + rewrite filter_cons_True by done. by rewrite IH.
  - done.
Qed.

Lemma replay_registry now tr c :
  replay now tr c = fold_left (λ c a, perform a now c) (registry tr) c.
Proof.
  revert c. induction tr as [|[h|a] tr IH]; intros c; simpl; [done| |];
    apply IH.
Qed.

Lemma own_trace r o p :
  ob_descriptor o = None → ob_start o = StartOk p →
  omap own (trace (runCommand r o))
  = [ Registry (Store (req_session r) (foreground_kernel r p));
      Hook (OnExecuteInit (req_session r)) ]
    ++ after_wait (req_session r) (ob_wait o) (ob_elapsed o).
Proof.
  intros Hd Hs. unfold runCommand. rewrite Hd, Hs. cbn [trace].
  rewrite omap_app, omap_weave_l by apply tailers_not_own.
  f_equal. by destruct (ob_wait o).
Qed.

Lemma runCommand_trace r o p :
  ob_descriptor o = None → ob_start o = StartOk p →
  trace (runCommand r o)
  = weave (ob_main o)
      [ Registry (Store (req_session r) (foreground_kernel r p));
        Hook (OnExecuteInit (req_session r)) ]
      (tailers o)
    ++ after_wait (req_session r) (ob_wait o) (ob_elapsed o).
Proof. intros Hd Hs. unfold runCommand. by rewrite Hd, Hs. Qed.

Lemma runCommand_stdout r o p :
  ob_descriptor o = None → ob_start o = StartOk p →
  append_only (ob_stdout_ticks o) (ob_stdout o) →
  stdout_lines (trace (runCommand r o)) = all_lines (ob_stdout o).
Proof.
  intros Hd Hs Hout. rewrite (runCommand_trace r o p) by done.
  unfold stdout_lines. rewrite omap_app.
  rewrite omap_weave_r by (by repeat constructor).
  unfold tailers. rewrite omap_weave_l by (by apply Forall_fmap_none).
  rewrite (omap_fmap_some _ _ id) by done.
  rewrite list_fmap_id, tailStdPipe_all_lines by done.
  destruct (ob_wait o); simpl; by rewrite app_nil_r.
Qed.

Lemma runCommand_stderr r o p :
  ob_descriptor o = None → ob_start o = StartOk p →
  append_only (ob_stderr_ticks o) (ob_stderr o) →
  stderr_lines (trace (runCommand r o)) = all_lines (ob_stderr o).
Proof.
  intros Hd Hs Herr. rewrite (runCommand_trace r o p) by done.
  unfold stderr_lines. rewrite omap_app.
  rewrite omap_weave_r by (by repeat constructor).
  unfold tailers. rewrite omap_weave_r by (by apply Forall_fmap_none).
  rewrite (omap_fmap_some _ _ id) by done.
  rewrite list_fmap_id, tailStdPipe_all_lines by done.
  destruct (ob_wait o); simpl; by rewrite app_nil_r.
Qed.

Lemma runCommand_last_hook r o p :
  ob_descriptor o = None → ob_start o = StartOk p →
  last (hooks (trace (runCommand r o)))
  = Some match ob_wait o with
         | WaitOk => OnExecuteComplete (ob_elapsed o)
         | WaitExit code msg =>
             OnExecuteError "CommandExecError" (Itoa code) [msg]
         | WaitErr msg => OnExecuteError "CommandExecError" msg [msg]
         end.
Proof.
  intros Hd Hs. rewrite (runCommand_trace r o p) by done.
  unfold hooks. rewrite omap_app.
  destruct (ob_wait o); simpl;
    rewrite ?app_nil_r; by rewrite last_snoc || rewrite last_app.
Qed.

Lemma runCommand_control r o p :
  ob_descriptor o = None → ob_start o = StartOk p →
  control (trace (runCommand r o))
  = [ OnExecuteInit (req_session r);
      match ob_wait o with
      | WaitOk => OnExecuteComplete (ob_elapsed o)
      | WaitExit code msg =>
          OnExecuteError "CommandExecError" (Itoa code) [msg]
      | WaitErr msg => OnExecuteError "CommandExecError" msg [msg]
      end ].
Proof.
  intros Hd Hs. rewrite control_omap.
  rewrite <- (omap_own_compose _ (trace (runCommand r o)))
    by (by intros [[]|]).
  rewrite (own_trace r o p) by done. by destruct (ob_wait o).
Qed.

(** X12 the output of a foreground command: when the command was started
    and its two log files only grew while it ran, the stdout callback is
    called once for every line of the stdout file as it is when the
    command has exited, in order, and the stderr callback likewise, an
    unterminated last line included; besides the output there are exactly
    two callbacks, the init callback with the session id and then, after
    all output, the completion callback (exit status 0) or the error
    callback (any other end); the function returns no error and stops its
    tailers. *)
Theorem runCommand_delivers_output (r : commandRequest) (o : observation)
    (p : Z) :
  ob_descriptor o = None →
  ob_start o = StartOk p →
  append_only (ob_stdout_ticks o) (ob_stdout o) →
  append_only (ob_stderr_ticks o) (ob_stderr o) →
  let run := runCommand r o in
  let final :=
    match ob_wait o with
    | WaitOk => OnExecuteComplete (ob_elapsed o)
    | WaitExit code msg => OnExecuteError "CommandExecError" (Itoa code) [msg]
    | WaitErr msg => OnExecuteError "CommandExecError" msg [msg]
    end in
  stdout_lines (trace run) = all_lines (ob_stdout o)
  ∧ stderr_lines (trace run) = all_lines (ob_stderr o)
  ∧ control (trace run) = [OnExecuteInit (req_session r); final]
  ∧ last (hooks (trace run)) = Some final
  ∧ registry (trace run) = Command.runCommand r (ob_start o) (ob_wait o)
  ∧ returned run = None
  ∧ done_closed run = true.
Proof.
  intros Hd Hs Hout Herr run final.
  assert (Htr : trace run
                = weave (ob_main o)
                    [ Registry (Store (req_session r) (foreground_kernel r p));
                      Hook (OnExecuteInit (req_session r)) ]
                    (tailers o)
                  ++ after_wait (req_session r) (ob_wait o) (ob_elapsed o)).
  { subst run. unfold runCommand. by rewrite Hd, Hs. }
  assert (Hown := own_trace r o p Hd Hs). fold run in Hown.
  split; [|split; [|split; [|split; [|split; [|split]]]]].
  - by apply (runCommand_stdout r o p).
  - by apply (runCommand_stderr r o p).
  - by apply (runCommand_control r o p).
  - by apply (runCommand_last_hook r o p).
  - unfold registry.
    rewrite <- (omap_own_compose _ (trace run))
      by (by intros [[]|]). rewrite Hown, Hs.
    by destruct (ob_wait o).
  - subst run. unfold runCommand. by rewrite Hd, Hs.
  - subst run. unfold runCommand. by rewrite Hd, Hs.
Qed.

#[local] Arguments GetCommandStatus : simpl never.
#[local] Arguments perform : simpl never.

Lemma status_after_store now s k c :
  GetCommandStatus (perform (Store s k) now c) s
  = Ok {| st_Session := s; st_Running := running k;
          st_ExitCode := exitCode k; st_Error := errMsg k;
          st_StartedAt := startedAt k; st_FinishedAt := finishedAt k;
          st_Content := content k |}.
Proof.
  unfold GetCommandStatus, commandSnapshot, perform, storeCommandKernel.
  cbn [commandClientMap set_commandClientMap]. by rewrite lookup_insert_eq.
Qed.

Lemma status_after_mark now s k code msg c :
  GetCommandStatus
    (perform (Mark s code msg) now (perform (Store s k) now c)) s
  = Ok {| st_Session := s; st_Running := false;
          st_ExitCode := Some code; st_Error := msg;
          st_StartedAt := startedAt k; st_FinishedAt := Some now;
          st_Content := content k |}.
Proof.
  unfold GetCommandStatus, commandSnapshot, perform, storeCommandKernel,
    markCommandFinished.
  cbn [commandClientMap set_commandClientMap]. rewrite lookup_insert_eq.
  cbn [commandClientMap set_commandClientMap]. by rewrite lookup_insert_eq.
Qed.

Lemma own_split before h after :
  is_output h = false →
  omap own (before ++ Hook h :: after)
  = omap own before ++ Hook h :: omap own after.
Proof.
  intros Hh. rewrite omap_app. f_equal. csimpl.
  by destruct h.
Qed.

Lemma registry_own tr : registry (omap own tr) = registry tr.
Proof. unfold registry. apply omap_own_compose. by intros [[]|]. Qed.

(** X13 the status behind the callbacks of a foreground command: a
    client that asks for the status of the session on receiving a
    callback is told, when the command was started, that it is running
    (no exit code, no finish time) on the init callback and also on the
    error callback of a command that failed, which is delivered before
    the registry is updated, and that it has finished with exit code 0 on
    the completion callback. When the command could not be started the
    callbacks are the init and the error callback, the registry is never
    written, so the announced session has no status, no error is
    returned and the tailers are not stopped. *)
Theorem runCommand_status_at_callbacks (r : commandRequest) (o : observation)
    (c : Controller) (now : Z) :
  ob_descriptor o = None →
  let run := runCommand r o in
  match ob_start o with
  | StartOk p =>
      ∀ h st,
        is_output h = false →
        status_at now h (trace run) c (req_session r) st →
        ∃ status,
          st = Ok status
          ∧ match h with
            | OnExecuteComplete _ =>
                st_Running status = false
                ∧ st_ExitCode status = Some 0
                ∧ st_FinishedAt status = Some now
            | _ =>
                st_Running status = true
                ∧ st_ExitCode status = None
                ∧ st_FinishedAt status = None
            end
  | StartErr msg =>
      trace run = [ Hook (OnExecuteInit (req_session r));
                    Hook (OnExecuteError "CommandExecError" msg []) ]
      ∧ replay now (trace run) c = c
      ∧ returned run = None
      ∧ done_closed run = false
  end.
Proof.
  intros Hd run.
  destruct (ob_start o) as [p|msg] eqn:Hs.
  - intros h st Hh (before & after & Htr & Hst).
    assert (Hown := own_trace r o p Hd Hs). fold run in Hown.
    rewrite Htr, own_split in Hown by done.
    rewrite replay_registry, <- registry_own in Hst.
    destruct (omap own before) as [|e1 [|e2 [|e3 [|e4 rest]]]];
      destruct (ob_wait o); simplify_eq/=;
      try match goal with
          | H : _ ++ _ :: _ = [] |- _ =>
              by destruct (app_cons_not_nil _ _ _ (eq_sym H))
          end;
      rewrite ?status_after_store, ?status_after_mark;
      eexists; (split; [reflexivity|done]).
  - subst run. unfold runCommand. by rewrite Hd, Hs.
Qed.

Lemma runCommand_status_at_callbacks_witness :
  let r := {| req_session := "s1"; req_Code := "false";
              req_stdoutPath := "/tmp/s1.stdout";
              req_stderrPath := "/tmp/s1.stderr"; req_startAt := 100 |} in
  let o := {| ob_descriptor := None; ob_start := StartOk 42;
              ob_wait := WaitExit 1 "exit status 1";
              ob_stdout_ticks := []; ob_stdout := [];
              ob_stderr_ticks := []; ob_stderr := [];
              ob_elapsed := 5; ob_tailers := []; ob_main := [] |} in
  ∃ status,
    GetCommandStatus
      (replay 200 [ Registry (Store "s1" (foreground_kernel r 42));
                    Hook (OnExecuteInit "s1") ] (NewController "" "")) "s1"
    = Ok status
    ∧ st_Running status = true
    ∧ st_ExitCode status = None
    ∧ st_FinishedAt status = None.
Proof.
  intros r o.
  apply (runCommand_status_at_callbacks r o (NewController "" "") 200 eq_refl
           (OnExecuteError "CommandExecError" "1" ["exit status 1"])
           _ eq_refl).
  exists [ Registry (Store "s1" (foreground_kernel r 42));
           Hook (OnExecuteInit "s1") ],
         [ Registry (Mark "s1" 1 "exit status 1") ].
  split; reflexivity.
Defined.

Lemma runCommand_delivers_output_witness :
  let r := {| req_session := "s1"; req_Code := "echo a; echo b";
              req_stdoutPath := "/tmp/s1.stdout";
              req_stderrPath := "/tmp/s1.stderr"; req_startAt := 100 |} in
  let o := {| ob_descriptor := None; ob_start := StartOk 42;
              ob_wait := WaitOk;
              ob_stdout_ticks := [[x61; x0a]];
              ob_stdout := [x61; x0a; x62; x0a];
              ob_stderr_ticks := [[]]; ob_stderr := [];
              ob_elapsed := 5; ob_tailers := [true; false];
              ob_main := [false; true] |} in
  stdout_lines (trace (runCommand r o)) = all_lines [x61; x0a; x62; x0a].
Proof.
  intros r o.
  refine (proj1 (runCommand_delivers_output r o 42 eq_refl eq_refl _ _)).
  - simpl. split; [by exists [x62; x0a]|done].
  - simpl. split; [by exists []|done].
Defined.

Lemma hooks_weave_background sched (h : hook) (acts : list action) :
  hooks (weave sched [Hook h] (Registry <$> acts)) = [h]
  ∧ registry (weave sched [Hook h] (Registry <$> acts)) = acts.
Proof.
  unfold hooks, registry. split.
  - rewrite omap_weave_l; [done|]. by apply Forall_fmap_none.
  - rewrite omap_weave_r by (by repeat constructor).
    rewrite (omap_fmap_some _ _ id) by done. apply list_fmap_id.
Qed.

(** X14 a background command: whatever the process does, the callbacks
    are the init callback and the completion callback and nothing else,
    also when the process cannot be started: that failure shows only in
    the status, as exit code 255. The init callback announces a session
    that is not registered yet, so a status request made on receiving it
    can fail with command not found; once the executor's goroutine is
    through, the status is finished with exit code 0, the exit code of the
    process, 1 for another wait error, or 255, and the output is
    readable. *)
Theorem runBackgroundCommand_callbacks (r : commandRequest) (o : observation)
    (c : Controller) (now : Z) :
  ob_descriptor o = None →
  commandClientMap c !! req_session r = None →
  let run := runBackgroundCommand r o in
  hooks (trace run)
  = [OnExecuteInit (req_session r); OnExecuteComplete (ob_elapsed o)]
  ∧ returned run = None
  ∧ registry (trace run)
    = Command.runBackgroundCommand r (ob_start o) (ob_wait o)
  ∧ (∀ st, status_at now (OnExecuteInit (req_session r)) (trace run) c
             (req_session r) st →
           st = Err ("command not found: " +:+ req_session r))
  ∧ ∃ status,
      GetCommandStatus (replay now (trace run) c) (req_session r) = Ok status
      ∧ st_Running status = false
      ∧ st_FinishedAt status = Some now
      ∧ st_ExitCode status
        = Some match ob_start o, ob_wait o with
               | StartErr _, _ => 255
               | StartOk _, WaitOk => 0
               | StartOk _, WaitExit code _ => code
               | StartOk _, WaitErr _ => 1
               end
      ∧ ∀ fs file cursor,
          fs !! req_stdoutPath r = Some file → 0 ≤ cursor →
          SeekBackgroundCommandOutput (replay now (trace run) c) fs
            (req_session r) cursor
          = Ok (drop (Z.to_nat cursor) file,
                cursor + Z.of_nat (length (drop (Z.to_nat cursor) file))).
Proof.
  intros Hd Hfresh run.
  assert (Htr : trace run
                = Hook (OnExecuteInit (req_session r))
                  :: weave (ob_main o)
                       [Hook (OnExecuteComplete (ob_elapsed o))]
                       (Registry <$> Command.runBackgroundCommand r (ob_start o)
                                       (ob_wait o))).
  { subst run. unfold runBackgroundCommand. by rewrite Hd. }
  destruct (hooks_weave_background (ob_main o)
              (OnExecuteComplete (ob_elapsed o))
              (Command.runBackgroundCommand r (ob_start o) (ob_wait o)))
    as [Hhooks Hreg].
  split; [|split; [|split; [|split]]].
  - rewrite Htr. unfold hooks in *. csimpl. by rewrite Hhooks.
  - subst run. unfold runBackgroundCommand. by rewrite Hd.
  - rewrite Htr. unfold registry in *. csimpl. by rewrite Hreg.
  - intros st (before & after & Heq & <-).
    rewrite Htr in Heq.
    destruct before as [|e before].
    + unfold GetCommandStatus, commandSnapshot. simpl. by rewrite Hfresh.
    + exfalso. injection Heq as <- Heq.
      assert (Hin : Hook (OnExecuteInit (req_session r))
                    ∈ weave (ob_main o)
                        [Hook (OnExecuteComplete (ob_elapsed o))]
                        (Registry <$> Command.runBackgroundCommand r
                                        (ob_start o) (ob_wait o))).
      { rewrite Heq. apply elem_of_app. right. by left. }
      assert (Hh : OnExecuteInit (req_session r)
                   ∈ hooks (weave (ob_main o)
                              [Hook (OnExecuteComplete (ob_elapsed o))]
                              (Registry <$> Command.runBackgroundCommand r
                                              (ob_start o) (ob_wait o)))).
      { unfold hooks. apply list_elem_of_omap. by eexists. }
      rewrite Hhooks in Hh. apply list_elem_of_singleton in Hh. discriminate Hh.
  - rewrite replay_registry.
    assert (Hall : registry (trace run)
                   = Command.runBackgroundCommand r (ob_start o) (ob_wait o)).
    { rewrite Htr. unfold registry in *. csimpl. by rewrite Hreg. }
    rewrite Hall. unfold Command.runBackgroundCommand.
    destruct (ob_start o) as [p|msg]; [destruct (ob_wait o)|];
      cbn [fold_left mark_of_wait]; rewrite status_after_mark;
      (eexists; split; [reflexivity|]); (repeat split);
      intros fs file cursor Hfile Hcur;
      unfold SeekBackgroundCommandOutput, commandSnapshot, perform,
        storeCommandKernel, markCommandFinished;
      cbn [commandClientMap set_commandClientMap];
      rewrite lookup_insert_eq;
      cbn [commandClientMap set_commandClientMap];
      rewrite lookup_insert_eq; cbn [isBackground stdoutPath finish negb];
      rewrite Hfile; destruct (Z.ltb_spec cursor 0); (done || lia).
Qed.

Lemma runBackgroundCommand_callbacks_witness :
  let r := {| req_session := "s1"; req_Code := "sleep 1";
              req_stdoutPath := "/tmp/s1.output";
              req_stderrPath := "/tmp/s1.output"; req_startAt := 100 |} in
  let o := {| ob_descriptor := None; ob_start := StartErr "fork failed";
              ob_wait := WaitOk;
              ob_stdout_ticks := []; ob_stdout := [];
              ob_stderr_ticks := []; ob_stderr := [];
              ob_elapsed := 5; ob_tailers := []; ob_main := [false] |} in
  hooks (trace (runBackgroundCommand r o))
  = [OnExecuteInit "s1"; OnExecuteComplete 5].
Proof.
  intros r o.
  exact (proj1 (runBackgroundCommand_callbacks r o (NewController "" "") 200
                  eq_refl eq_refl)).
Defined.

End ExecFacts.

Module DatabaseFacts.
Import Database.

Lemma initDB_settled srv st :
  dbOnce st = true →
  initDB srv st
  = (if db st then None else Some "db is not initialized", st).
Proof. intros Hd. unfold initDB. rewrite Hd. by destruct (db st). Qed.

Lemma calls_settled srvs : ∀ st,
  dbOnce st = true →
  calls srvs st
  = (replicate (length srvs)
       (if db st then None else Some "db is not initialized"), st).
Proof.
  induction srvs as [|srv srvs IH]; intros st Hd; [done|].
  cbn [calls]. rewrite initDB_settled by done. by rewrite IH.
Qed.

(** X15 the database is opened once: on a fresh controller the first SQL
    request tries to open the database and returns the error of the step
    that failed, or none; no later request goes to the server to open it
    again. After a first success every later call succeeds; after a first
    failure every later call fails with [db is not initialized], also
    when the server has come up in the meantime. *)
Theorem initDB_once (srv : server) (later : list server) :
  let first := (initDB srv fresh).1 in
  let st := (initDB srv fresh).2 in
  calls (srv :: later) fresh
  = (first :: replicate (length later)
                (match first with
                 | None => None
                 | Some _ => Some "db is not initialized"
                 end),
     st)
  ∧ (first = None
     ↔ srv_Open srv = None ∧ srv_Ping srv = None
       ∧ srv_Create srv = None ∧ srv_Use srv = None)
  ∧ contacted st
    `prefix_of` ["sql.Open"; "Ping"; "CREATE DATABASE IF NOT EXISTS sandbox";
                 "USE sandbox"].
Proof.
  intros first st. subst first st.
  cbn [calls]. destruct (initDB srv fresh) as [r st] eqn:Hinit.
  assert (Hst : dbOnce st = true
                ∧ db st = match r with None => true | Some _ => false end).
  { unfold initDB, fresh, open in Hinit. simpl in Hinit.
    destruct (srv_Open srv), (srv_Ping srv), (srv_Create srv), (srv_Use srv);
      simpl in Hinit; by simplify_eq. }
  destruct Hst as [Hd Hdb]. rewrite calls_settled by done. cbn [fst snd].
  split; [|split].
  - rewrite Hdb. by destruct r.
  - unfold initDB, fresh, open in Hinit. simpl in Hinit.
    destruct (srv_Open srv), (srv_Ping srv), (srv_Create srv), (srv_Use srv);
      simpl in Hinit; simplify_eq; split; try done; by intros (?&?&?&?).
  - unfold initDB, fresh, open in Hinit. simpl in Hinit.
    destruct (srv_Open srv), (srv_Ping srv), (srv_Create srv), (srv_Use srv);
      simpl in Hinit; simplify_eq; simpl;
      by (eexists; reflexivity) || (by eexists [_]) || (by eexists [_; _])
         || (by eexists [_; _; _]).
Qed.

End DatabaseFacts.

Module SQLMoreFacts.
Import Text SQL.

Lemma runSQL_hooks (upper : rune → rune) (value : Type)
    (Sprint : value → string) (encode : json → string)
    (db : database value) (session : string) (elapsed : Z) (code kind : text) :
  getQueryType upper code = Return kind →
  ∃ hooks,
    (runSQL upper Sprint encode db session elapsed code).1
    = OnExecuteInit session :: hooks
    ∧ ((∃ payload,
          hooks = [ OnExecuteResult {[ "text/plain" := payload ]} 1;
                    OnExecuteComplete elapsed ])
       ∨ (∃ ename e, hooks = [OnExecuteError ename e])).
Proof.
  intros Hkind. unfold runSQL. rewrite Hkind.
  destruct (initDB db); [by eexists; split; [|right; eauto]|].
  destruct (PingContext db); [by eexists; split; [|right; eauto]|].
  case_decide.
  - unfold executeSelectSQLQuery.
    destruct (QueryContext db code) as [rs|];
      [|by eexists; split; [|right; eauto]].
    destruct (rs_columns rs);
      [|by eexists; split; [|right; eauto]].
    destruct (scan Sprint (rs_rows rs) []);
      [|by eexists; split; [|right; eauto]].
    eexists. split; [done|]. left. by eexists.
  - unfold executeUpdateSQLQuery.
    destruct (ExecContext db code);
      [|by eexists; split; [|right; eauto]].
    eexists. split; [done|]. left. by eexists.
Qed.

(** X16 what a SQL request calls and returns: for a statement that has a
    first token, [runSQL] calls the init callback and then either the
    result callback (one member [text/plain], count 1) followed by the
    completion callback, or the error callback alone; never a result
    after an error, never a partial result. The error is returned to the
    caller only when opening the database, the ping or a statement other
    than SELECT failed; a SELECT that fails at the query, at the column
    list or while scanning a row reports through the callback and returns
    no error. *)
Theorem runSQL_shape (upper : rune → rune) (value : Type)
    (Sprint : value → string) (encode : json → string)
    (db : database value) (session : string) (elapsed : Z) (code kind : text) :
  getQueryType upper code = Return kind →
  ∃ hooks err,
    runSQL upper Sprint encode db session elapsed code
    = (OnExecuteInit session :: hooks, Return err)
    ∧ ((∃ payload,
          hooks = [ OnExecuteResult {[ "text/plain" := payload ]} 1;
                    OnExecuteComplete elapsed ]
          ∧ err = None)
       ∨ (∃ ename e,
            hooks = [OnExecuteError ename e]
            ∧ ((err = Some e
                ∧ ename ∈ ["DBInitError"; "DBPingError"; "DBExecError"])
               ∨ (err = None
                  ∧ ename ∈ ["DBQueryError"; "RowScanError"]
                  ∧ kind = of_string "SELECT"))))
    ∧ (err ≠ None →
       initDB db ≠ None ∨ PingContext db ≠ None ∨ kind ≠ of_string "SELECT").
Proof.
  intros Hkind. unfold runSQL. rewrite Hkind.
  destruct (initDB db) as [e|] eqn:Hinit.
  { eexists _, _. split; [reflexivity|]. split; [|by left].
    right. exists "DBInitError", e. split; [done|]. left. split; [done|].
    by left. }
  destruct (PingContext db) as [e|] eqn:Hping.
  { eexists _, _. split; [reflexivity|]. split; [|by right; left].
    right. exists "DBPingError", e. split; [done|]. left. split; [done|].
    right. by left. }
  case_decide as Hsel.
  - unfold executeSelectSQLQuery.
    destruct (QueryContext db code) as [rs|e].
    + destruct (rs_columns rs) as [columns|e].
      * destruct (scan Sprint (rs_rows rs) []) as [rows|e].
        -- eexists _, _. split; [reflexivity|]. split; [|done].
           left. by eexists.
        -- eexists _, _. split; [reflexivity|]. split; [|done].
           right. exists "RowScanError", e. split; [done|]. right.
           split; [done|]. split; [|done]. right. by left.
      * eexists _, _. split; [reflexivity|]. split; [|done].
        right. exists "DBQueryError", e. split; [done|]. right.
        split; [done|]. split; [|done]. by left.
    + eexists _, _. split; [reflexivity|]. split; [|done].
      right. exists "DBQueryError", e. split; [done|]. right.
      split; [done|]. split; [|done]. by left.
  - unfold executeUpdateSQLQuery.
    destruct (ExecContext db code) as [affected|e].
    + eexists _, _. split; [reflexivity|]. split; [|done].
      left. by eexists.
    + eexists _, _. split; [reflexivity|]. split; [|by right; right].
      right. exists "DBExecError", e. split; [done|]. left. split; [done|].
      right. right. by left.
Qed.

Lemma runSQL_shape_witness :
  ∃ hooks err,
    runSQL ascii_upper pretty print_json (sample_db [] 0) "s1" 7
      (of_string "select id from t")
    = (OnExecuteInit "s1" :: hooks, Return err)
    ∧ ((∃ payload,
          hooks = [ OnExecuteResult {[ "text/plain" := payload ]} 1;
                    OnExecuteComplete 7 ]
          ∧ err = None)
       ∨ (∃ ename e,
            hooks = [OnExecuteError ename e]
            ∧ ((err = Some e
                ∧ ename ∈ ["DBInitError"; "DBPingError"; "DBExecError"])
               ∨ (err = None
                  ∧ ename ∈ ["DBQueryError"; "RowScanError"]
                  ∧ of_string "SELECT" = of_string "SELECT"))))
    ∧ (err ≠ None →
       initDB (sample_db [] 0) ≠ None ∨ PingContext (sample_db [] 0) ≠ None
       ∨ of_string "SELECT" ≠ of_string "SELECT").
Proof.
  apply (runSQL_shape ascii_upper Z pretty print_json (sample_db [] 0) "s1" 7
           (of_string "select id from t") (of_string "SELECT")).
  reflexivity.
Defined.

End SQLMoreFacts.

Module JupyterFacts.
Import Context ContextOps Jupyter.

Lemma stdout_deliver r :
  stdout_texts (Hook <$> deliver r)
  = so_Text <$> filter (λ s, so_Name s = StreamStdout) (er_Stream r).
Proof.
  unfold deliver, stdout_texts. rewrite !fmap_app, !omap_app.
  destruct (_ || _), (bool_decide _), (_ <? _), (er_Error r); simpl;
    (induction (er_Stream r) as [|s l IH]; [done|]; csimpl;
     unfold stream_hook at 1;
     destruct (decide (so_Name s = StreamStdout)) as [Hs|Hs];
     [rewrite filter_cons_True by done; csimpl; by rewrite IH|];
     rewrite filter_cons_False by done;
     destruct (decide (so_Name s = StreamStderr)); csimpl; apply IH).
Qed.

Lemma stderr_deliver r :
  stderr_texts (Hook <$> deliver r)
  = so_Text <$> filter (λ s, so_Name s = StreamStderr) (er_Stream r).
Proof.
  unfold deliver, stderr_texts. rewrite !fmap_app, !omap_app.
  destruct (_ || _), (bool_decide _), (_ <? _), (er_Error r); simpl;
    (induction (er_Stream r) as [|s l IH]; [done|]; csimpl;
     unfold stream_hook at 1;
     destruct (decide (so_Name s = StreamStdout)) as [Hs|Hs];
     [rewrite filter_cons_False by (rewrite Hs; done); csimpl; apply IH|];
     destruct (decide (so_Name s = StreamStderr));
     [rewrite filter_cons_True by done; csimpl; by rewrite IH|];
     rewrite filter_cons_False by done; csimpl; apply IH).
Qed.

Lemma interrupts_deliver r : filter (λ e, is_interrupt e = true) (Hook <$> deliver r) = [].
Proof.
  induction (deliver r) as [|h l IH]; [done|]. csimpl.
  by rewrite filter_cons_False by done.
Qed.

Lemma loop_spec kid msgs :
  stdout_texts (loop kid msgs).1 = streamed StreamStdout (taken msgs)
  ∧ stderr_texts (loop kid msgs).1 = streamed StreamStderr (taken msgs)
  ∧ (loop kid msgs).2
    = match ending msgs with
      | None => None
      | Some (Message _) => Some None
      | Some Cancelled => Some (Some "context cancelled, interrupt kernel")
      end
  ∧ filter (λ e, is_interrupt e = true) (loop kid msgs).1
    = match ending msgs with
      | Some Cancelled => [InterruptKernel kid]
      | _ => []
      end.
Proof.
  induction msgs as [|[[r|]|] msgs IH]; try done.
  cbn [loop taken ending]. destruct (loop kid msgs) as [tr res].
  destruct IH as (Hout & Herr & Hres & Hint). cbn [fst snd] in *.
  split; [|split; [|split]].
  - unfold stdout_texts in *. rewrite omap_app. fold (stdout_texts (Hook <$> deliver r)).
    rewrite stdout_deliver, Hout. done.
  - unfold stderr_texts in *. rewrite omap_app. fold (stderr_texts (Hook <$> deliver r)).
    rewrite stderr_deliver, Herr. done.
  - done.
  - by rewrite filter_app, interrupts_deliver, Hint.
Qed.

(** X17 what a kernel execution passes on: once the kernel is connected
    and the code submitted, the stdout callback is called with the text of
    every stdout stream entry of the results received, in order, until a
    nil result arrives or the context ends, and the stderr callback
    likewise; stream entries under another name and everything that
    arrives afterwards are dropped. A nil result ends the call without an
    error; the end of the context makes it interrupt the kernel once,
    report [ContextCancelled] through the error callback and return an
    error; in both cases the last thing it does is disconnect. While
    neither has arrived the call has not returned. *)
Theorem runJupyterCode_forwards (kernel : jupyterKernel) (cl : kernelClient)
    (code : string) (msgs : list incoming) :
  locked cl = false →
  on_Connect cl = None →
  on_Execute cl = None →
  let tr := (runJupyterCode kernel cl code msgs).1 in
  let res := (runJupyterCode kernel cl code msgs).2 in
  stdout_texts tr = streamed StreamStdout (taken msgs)
  ∧ stderr_texts tr = streamed StreamStderr (taken msgs)
  ∧ res = match ending msgs with
          | None => None
          | Some (Message _) => Some None
          | Some Cancelled => Some (Some "context cancelled, interrupt kernel")
          end
  ∧ filter (λ e, is_interrupt e = true) tr
    = match ending msgs with
      | Some Cancelled => [InterruptKernel (kernelID kernel)]
      | _ => []
      end
  ∧ (ending msgs = Some Cancelled →
     ∃ before,
       tr = before
            ++ [ InterruptKernel (kernelID kernel);
                 Hook (OnExecuteError
                         (Some {| EName := "ContextCancelled";
                                  EValue := "Interrupt kernel";
                                  Traceback := [] |}));
                 DisconnectFromKernel (kernelID kernel) ])
  ∧ (res ≠ None → last tr = Some (DisconnectFromKernel (kernelID kernel))).
Proof.
  intros Hl Hc He tr res. subst tr res.
  unfold runJupyterCode. rewrite Hl, Hc, He.
  destruct (loop_spec (kernelID kernel) msgs) as (Hout & Herr & Hres & Hint).
  assert (Hcancel : ending msgs = Some Cancelled →
                    ∃ before, (loop (kernelID kernel) msgs).1
                              = before
                                ++ [ InterruptKernel (kernelID kernel);
                                     Hook (OnExecuteError
                                             (Some {| EName := "ContextCancelled";
                                                      EValue := "Interrupt kernel";
                                                      Traceback := [] |})) ]).
  { clear. induction msgs as [|[[r|]|] msgs IH]; try done.
    - intros Hend. cbn [loop ending] in *.
      destruct (loop (kernelID kernel) msgs) as [tr res].
      destruct (IH Hend) as [before Hb]. cbn [fst] in *.
      exists ((Hook <$> deliver r) ++ before). by rewrite Hb, app_assoc.
    - intros _. by exists []. }
  destruct (loop (kernelID kernel) msgs) as [tr res]. cbn [fst snd] in *.
  split; [|split; [|split; [|split; [|split]]]].
  - unfold stdout_texts in *. rewrite !omap_app, Hout.
    destruct res; simpl; by rewrite app_nil_r.
  - unfold stderr_texts in *. rewrite !omap_app, Herr.
    destruct res; simpl; by rewrite app_nil_r.
  - done.
  - rewrite !filter_app, Hint.
    destruct res; simpl; by rewrite app_nil_r.
  - intros Hend. destruct (Hcancel Hend) as [before ->].
    rewrite Hend in Hres. subst res.
    exists ([ConnectToKernel (kernelID kernel);
             ExecuteCodeStream (kernelID kernel) code] ++ before).
    by rewrite <- !app_assoc.
  - intros Hres'. destruct res as [r|]; [|done].
    by rewrite !app_assoc, last_snoc.
Qed.

Lemma runJupyterCode_forwards_witness :
  let k := {| kernelID := "k1"; language := "python" |} in
  let cl := {| locked := false; on_Connect := None; on_Execute := None |} in
  let r := {| er_Status := ""; er_ExecutionCount := 0;
              er_Stream := [ {| so_Name := "stdout"; so_Text := [x61] |};
                             {| so_Name := "display"; so_Text := [x62] |} ];
              er_Error := None; er_ExecutionTime := 0;
              er_ExecutionData := ∅ |} in
  stdout_texts (runJupyterCode k cl "print(1)"
                  [Message (Some r); Cancelled; Message (Some r)]).1
  = [[x61]].
Proof.
  intros k cl r.
  exact (proj1 (runJupyterCode_forwards k cl "print(1)"
                  [Message (Some r); Cancelled; Message (Some r)]
                  eq_refl eq_refl eq_refl)).
Defined.

Lemma configured c :
  baseURL c ≠ "" → token c ≠ "" →
  bool_decide (baseURL c = "") || bool_decide (token c = "") = false.
Proof. intros. by rewrite !bool_decide_eq_false_2. Qed.

(** X18 the default context of a language: a request without a context
    id runs in the default session of its language. When the language has
    one, that session is used and no session is created; when it has
    none, one is created, registered as the default and used, and the
    next request without a context id finds it and creates nothing; when
    the creation fails the error is returned, no callback is called and
    the registry is unchanged. The init callback names the session that
    is used. After the default session is deleted the language has no
    default again. Every default session stays registered throughout. *)
Theorem runJupyter_default_context (c : Controller) (rq : request)
    (create : result (string * string)) (cl : kernelClient)
    (msgs : list incoming) :
  baseURL c ≠ "" →
  token c ≠ "" →
  rq_Context rq = "" →
  defaults_registered c →
  let lang := rq_Language rq in
  let c' := (runJupyter c rq create cl msgs).1.1 in
  let tr := (runJupyter c rq create cl msgs).1.2 in
  let res := (runJupyter c rq create cl msgs).2 in
  defaults_registered c'
  ∧ match defaultLanguageJupyterSessions c !! lang, create with
    | Some sid, _ =>
        c' = c ∧ head tr = Some (Hook (OnExecuteInit sid))
    | None, Err e =>
        c' = c ∧ tr = [] ∧ res = Some (Some e)
    | None, Ok (sid, kid) =>
        c' = createDefaultLanguageContext lang sid kid c
        ∧ defaultLanguageJupyterSessions c' !! lang = Some sid
        ∧ jupyterClientMap c' !! sid
          = Some {| kernelID := kid; language := lang |}
        ∧ head tr = Some (Hook (OnExecuteInit sid))
        ∧ (∀ create' cl' msgs',
             (runJupyter c' rq create' cl' msgs').1.1 = c'
             ∧ head (runJupyter c' rq create' cl' msgs').1.2
               = Some (Hook (OnExecuteInit sid)))
        ∧ (∀ DeleteSession log,
             DeleteSession sid = None →
             let c'' := (deleteSessionAndCleanup DeleteSession sid (c', log)).2.1 in
             defaultLanguageJupyterSessions c'' !! lang = None
             ∧ jupyterClientMap c'' !! sid = None)
    end.
Proof.
  intros Hurl Htok Hctx Hreg lang c' tr res.
  assert (Hrun : ∀ c0 sid create0 cl0 msgs0,
            baseURL c0 ≠ "" → token c0 ≠ "" →
            defaults_registered c0 →
            defaultLanguageJupyterSessions c0 !! lang = Some sid →
            (runJupyter c0 rq create0 cl0 msgs0).1.1 = c0
            ∧ head (runJupyter c0 rq create0 cl0 msgs0).1.2
              = Some (Hook (OnExecuteInit sid))).
  { intros c0 sid create0 cl0 msgs0 Hu Ht Hr Hd. unfold runJupyter.
    rewrite configured by done. rewrite Hctx. simpl. fold lang. rewrite Hd.
    simpl. rewrite Hd. simpl.
    destruct (Hr _ _ Hd) as [k Hk]. unfold getJupyterKernel.
    rewrite Hk. by destruct (runJupyterCode k cl0 (rq_Code rq) msgs0). }
  destruct (defaultLanguageJupyterSessions c !! lang) as [sid|] eqn:Hd.
  - destruct (Hrun c sid create cl msgs Hurl Htok Hreg Hd) as [Hc Hh].
    subst c' tr. rewrite Hc. done.
  - destruct create as [[sid kid]|e].
    + set (c1 := createDefaultLanguageContext lang sid kid c).
      assert (Hreg1 : defaults_registered c1).
      { apply (ContextOpsFacts.apply_op_registered (OpCreateDefault lang sid kid) c
                 Hreg). }
      assert (Hd1 : defaultLanguageJupyterSessions c1 !! lang = Some sid).
      { subst c1. unfold createDefaultLanguageContext. simpl.
        by rewrite lookup_insert_eq. }
      assert (Hk1 : jupyterClientMap c1 !! sid
                    = Some {| kernelID := kid; language := lang |}).
      { subst c1. unfold createDefaultLanguageContext. simpl.
        by rewrite lookup_insert_eq. }
      assert (Hfirst : c' = c1 ∧ head tr = Some (Hook (OnExecuteInit sid))).
      { subst c' tr. unfold runJupyter.
        rewrite configured by done. rewrite Hctx. simpl. fold lang.
        rewrite Hd. cbn [result_rect]. fold c1. rewrite Hd1. simpl.
        unfold getJupyterKernel. rewrite Hk1.
        by destruct (runJupyterCode _ cl (rq_Code rq) msgs). }
      destruct Hfirst as [Hc' Htr]. rewrite Hc'.
      split; [done|]. split; [done|]. split; [done|]. split; [done|].
      split; [done|]. split.
      * intros create' cl' msgs'. apply Hrun; try done.
      * intros DS log Hds c''. subst c''. clear Hc'. clearbody c1.
        unfold deleteSessionAndCleanup, getJupyterKernel. rewrite Hk1, Hds.
        simpl. split.
        -- rewrite ContextOpsFacts.lookup_drop_defaults, Hd1.
           by rewrite decide_True.
        -- by rewrite lookup_delete_eq.
    + subst c' tr res. unfold runJupyter.
      rewrite configured by done. rewrite Hctx. simpl. fold lang.
      by rewrite Hd.
Qed.

Lemma runJupyter_default_context_witness :
  let c := NewController "http://127.0.0.1:8888" "secret" in
  let rq := {| rq_Language := "python"; rq_Code := "1+1"; rq_Context := "" |} in
  let cl := {| locked := false; on_Connect := None; on_Execute := None |} in
  defaults_registered (runJupyter c rq (Ok ("ctx-1", "k1")) cl []).1.1.
Proof.
  intros c rq cl.
  refine (proj1 (runJupyter_default_context c rq (Ok ("ctx-1", "k1")) cl []
                   _ _ eq_refl _)); [done|done|].
  intros lang id H. discriminate H.
Defined.

End JupyterFacts.

Module WebFacts.
Import Text SQL Jupyter Web.

Lemma mutated_text_plain (v : json) :
  mutated {[ "text/plain" := v ]} = {[ "text" := v ]}.
Proof. unfold mutated. by rewrite map_fold_singleton. Qed.

(** X19 a SQL request as the client sees it: for a statement that has a
    first token, the events written for a SQL request are the init event
    with the session id, followed either by an [execution_count] event
    with count 1, a [result] event whose one member is [text] (the
    callback's [text/plain], renamed) holding the payload as a string, and
    an [execution_complete] event with the duration in whole
    milliseconds, or by one [error] event with the error's name and value
    and no traceback. *)
Theorem sql_frames (upper : rune → rune) (value : Type)
    (Sprint : value → string) (encode : json → string)
    (db : database value) (session : string) (elapsed : Z) (code kind : text)
    (now : Z) :
  getQueryType upper code = Return kind →
  let fs :=
    frames now
      (of_sql <$> (runSQL upper Sprint encode db session elapsed code).1) in
  ∃ rest,
    fs = with_text session (stamped StreamEventTypeInit now) :: rest
    ∧ ((∃ payload,
          rest = [ with_count 1 (stamped StreamEventTypeCount now);
                   with_results {[ "text" := JString payload ]}
                     (stamped StreamEventTypeResult now);
                   with_time (Milliseconds elapsed)
                     (stamped StreamEventTypeComplete now) ])
       ∨ (∃ ename e,
            rest = [ with_error {| EName := ename; EValue := e;
                                   Traceback := [] |}
                       (stamped StreamEventTypeError now) ])).
Proof.
  intros Hkind fs. subst fs.
  destruct (SQLMoreFacts.runSQL_hooks upper value Sprint encode db session
              elapsed code kind Hkind) as (hooks & -> & [[payload ->]|(en & e & ->)]).
  - eexists. split; [reflexivity|]. left. exists payload.
    unfold frames. csimpl. rewrite map_fmap_singleton, mutated_text_plain.
    by rewrite map_size_singleton.
  - eexists. split; [reflexivity|]. right. by exists en, e.
Qed.

Lemma sql_frames_witness :
  ∃ rest,
    frames 1700 (of_sql <$> (runSQL ascii_upper pretty print_json
                               (sample_db [] 0) "s1" 7000000
                               (of_string "select id from t")).1)
    = with_text "s1" (stamped StreamEventTypeInit 1700) :: rest
    ∧ ((∃ payload,
          rest = [ with_count 1 (stamped StreamEventTypeCount 1700);
                   with_results {[ "text" := JString payload ]}
                     (stamped StreamEventTypeResult 1700);
                   with_time (Milliseconds 7000000)
                     (stamped StreamEventTypeComplete 1700) ])
       ∨ (∃ ename e,
            rest = [ with_error {| EName := ename; EValue := e;
                                   Traceback := [] |}
                       (stamped StreamEventTypeError 1700) ])).
Proof.
  apply (sql_frames ascii_upper Z pretty print_json (sample_db [] 0) "s1"
           7000000 (of_string "select id from t") (of_string "SELECT") 1700).
  reflexivity.
Defined.

Lemma frames_app now hs1 hs2 :
  frames now (hs1 ++ hs2) = frames now hs1 ++ frames now hs2.
Proof. unfold frames. apply bind_app. Qed.

Lemma texts_app type fs1 fs2 :
  texts type (fs1 ++ fs2) = texts type fs1 ++ texts type fs2.
Proof. unfold texts. by rewrite filter_app, fmap_app. Qed.

Lemma texts_stdout now tr :
  Forall (λ l, l ≠ []) (Exec.stdout_lines tr) →
  texts StreamEventTypeStdout (frames now (of_exec <$> Exec.hooks tr))
  = string_of_list_byte <$> Exec.stdout_lines tr.
Proof.
  induction tr as [|[h|a] tr IH]; intros Hne; [done| |by apply IH].
  unfold Exec.hooks, Exec.stdout_lines in *. csimpl.
  rewrite texts_app.
  destruct h as [s|l|l|en ev tb|t]; csimpl in *; try by rewrite IH.
  - apply Forall_cons in Hne as [Hl Hne]. rewrite IH by done.
    by destruct l.
  - rewrite IH by done. by destruct l.
Qed.

Lemma texts_stderr now tr :
  Forall (λ l, l ≠ []) (Exec.stderr_lines tr) →
  texts StreamEventTypeStderr (frames now (of_exec <$> Exec.hooks tr))
  = string_of_list_byte <$> Exec.stderr_lines tr.
Proof.
  induction tr as [|[h|a] tr IH]; intros Hne; [done| |by apply IH].
  unfold Exec.hooks, Exec.stderr_lines in *. csimpl.
  rewrite texts_app.
  destruct h as [s|l|l|en ev tb|t]; csimpl in *; try by rewrite IH.
  - rewrite IH by done. by destruct l.
  - apply Forall_cons in Hne as [Hl Hne]. rewrite IH by done.
    by destruct l.
Qed.

Lemma texts_init now tr :
  texts StreamEventTypeInit (frames now (of_exec <$> Exec.hooks tr))
  = omap (λ h, match h with
               | Exec.OnExecuteInit s => Some s
               | _ => None
               end) (Exec.control tr).
Proof.
  rewrite ExecFacts.control_omap.
  induction tr as [|[h|a] tr IH]; [done| |by apply IH].
  unfold Exec.hooks in *. csimpl.
  rewrite texts_app, IH.
  destruct h as [s|l|l|en ev tb|t]; csimpl; try done; by destruct l.
Qed.

Lemma all_lines_nonempty s : Forall (λ l, l ≠ []) (Tail.all_lines s).
Proof.
  eapply Forall_impl; [apply TailFacts.all_lines_wellformed|].
  by intros l [? _].
Qed.

(** X20 a foreground command as the client sees it: when the command was
    started and its log files only grew, the [stdout] events carry, in
    order, the lines of the stdout file as it is when the command has
    exited, one event for each line and none dropped; the [stderr] events
    likewise; there is one [init] event, with the session id; and the last
    event is the [execution_complete] event with the duration in whole
    milliseconds, or the [error] event. The duration of a command that
    took less than a millisecond is 0, and the [execution_time] member is
    then left out of the event's JSON. *)
Theorem command_frames (r : Command.commandRequest) (o : Exec.observation)
    (p : Z) (now : Z) :
  Exec.ob_descriptor o = None →
  Exec.ob_start o = Command.StartOk p →
  Tail.append_only (Exec.ob_stdout_ticks o) (Exec.ob_stdout o) →
  Tail.append_only (Exec.ob_stderr_ticks o) (Exec.ob_stderr o) →
  let fs :=
    frames now (of_exec <$> Exec.hooks (Exec.trace (Exec.runCommand r o))) in
  texts StreamEventTypeStdout fs
  = string_of_list_byte <$> Tail.all_lines (Exec.ob_stdout o)
  ∧ texts StreamEventTypeStderr fs
    = string_of_list_byte <$> Tail.all_lines (Exec.ob_stderr o)
  ∧ texts StreamEventTypeInit fs = [Command.req_session r]
  ∧ last fs
    = Some match Exec.ob_wait o with
           | Command.WaitOk =>
               with_time (Milliseconds (Exec.ob_elapsed o))
                 (stamped StreamEventTypeComplete now)
           | Command.WaitExit code msg =>
               with_error {| EName := "CommandExecError";
                             EValue := Exec.Itoa code;
                             Traceback := [msg] |}
                 (stamped StreamEventTypeError now)
           | Command.WaitErr msg =>
               with_error {| EName := "CommandExecError"; EValue := msg;
                             Traceback := [msg] |}
                 (stamped StreamEventTypeError now)
           end
  ∧ (Exec.ob_wait o = Command.WaitOk →
     0 ≤ Exec.ob_elapsed o < 1000000 →
     now ≠ 0 →
     ∀ encode_results encode_error,
       ToJSON encode_results encode_error <$> last fs
       = Some (JObject [ ("type", JString "execution_complete");
                         ("timestamp", JNumber now) ])).
Proof.
  intros Hd Hs Hout Herr fs.
  assert (Hlast : last fs
    = Some match Exec.ob_wait o with
           | Command.WaitOk =>
               with_time (Milliseconds (Exec.ob_elapsed o))
                 (stamped StreamEventTypeComplete now)
           | Command.WaitExit code msg =>
               with_error {| EName := "CommandExecError";
                             EValue := Exec.Itoa code;
                             Traceback := [msg] |}
                 (stamped StreamEventTypeError now)
           | Command.WaitErr msg =>
               with_error {| EName := "CommandExecError"; EValue := msg;
                             Traceback := [msg] |}
                 (stamped StreamEventTypeError now)
           end).
  { subst fs.
    pose proof (ExecFacts.runCommand_last_hook r o p Hd Hs) as Hl.
    apply last_Some in Hl as [hs' Hl]. rewrite Hl, fmap_app, frames_app.
    destruct (Exec.ob_wait o); csimpl; by rewrite last_snoc. }
  split; [|split; [|split; [|split]]].
  - subst fs. rewrite texts_stdout.
    + by rewrite (ExecFacts.runCommand_stdout r o p).
    + rewrite (ExecFacts.runCommand_stdout r o p) by done.
      apply all_lines_nonempty.
  - subst fs. rewrite texts_stderr.
    + by rewrite (ExecFacts.runCommand_stderr r o p).
    + rewrite (ExecFacts.runCommand_stderr r o p) by done.
      apply all_lines_nonempty.
  - subst fs. rewrite texts_init, (ExecFacts.runCommand_control r o p) by done.
    by destruct (Exec.ob_wait o).
  - done.
  - intros Hw Hfast Hnow er ee. rewrite Hlast, Hw. csimpl.
    unfold ToJSON, Milliseconds. simpl.
    rewrite Z.quot_small by done. simpl.
    destruct (Z.eqb_spec now 0) as [?|_]; [done|]. done.
Qed.

Lemma command_frames_witness :
  let r := {| Command.req_session := "s1"; Command.req_Code := "echo a";
              Command.req_stdoutPath := "/tmp/s1.stdout";
              Command.req_stderrPath := "/tmp/s1.stderr";
              Command.req_startAt := 100 |} in
  let o := {| Exec.ob_descriptor := None; Exec.ob_start := Command.StartOk 42;
              Exec.ob_wait := Command.WaitOk;
              Exec.ob_stdout_ticks := [[x61]];
              Exec.ob_stdout := [x61; x0a];
              Exec.ob_stderr_ticks := [[]]; Exec.ob_stderr := [];
              Exec.ob_elapsed := 5; Exec.ob_tailers := [true];
              Exec.ob_main := [false; true] |} in
  texts StreamEventTypeStdout
    (frames 1700 (of_exec <$> Exec.hooks (Exec.trace (Exec.runCommand r o))))
  = string_of_list_byte <$> Tail.all_lines [x61; x0a].
Proof.
  intros r o.
  refine (proj1 (command_frames r o 42 1700 eq_refl eq_refl _ _)).
  - simpl. split; [by exists [x0a]|done].
  - simpl. split; [by exists []|done].
Defined.

End WebFacts.

Module IsolationFacts.
Import Command Exec.

#[local] Arguments GetCommandStatus : simpl never.
#[local] Arguments SeekBackgroundCommandOutput : simpl never.

Lemma replay_cons now e tr c :
  replay now (e :: tr) c = replay now tr (once now e c).
Proof. by destruct e. Qed.

Lemma replay_app now tr1 tr2 c :
  replay now (tr1 ++ tr2) c = replay now tr2 (replay now tr1 c).
Proof. unfold replay. apply fold_left_app. Qed.

Lemma once_untouched now s e c :
  touches s e = false →
  commandClientMap (once now e c) !! s = commandClientMap c !! s.
Proof.
  destruct e as [h|[s' k|s' code msg]]; [done| |]; simpl;
    intros Hne%bool_decide_eq_false.
  - by rewrite lookup_insert_ne.
  - unfold markCommandFinished.
    destruct (commandClientMap c !! s'); [|done]. simpl.
    by rewrite lookup_insert_ne.
Qed.

Lemma once_agree now s e c1 c2 :
  commandClientMap c1 !! s = commandClientMap c2 !! s →
  commandClientMap (once now e c1) !! s = commandClientMap (once now e c2) !! s.
Proof.
  intros Hagree. destruct e as [h|[s' k|s' code msg]]; [done| |]; simpl.
  - destruct (decide (s' = s)) as [->|Hne].
    + by rewrite !lookup_insert_eq.
    + by rewrite !lookup_insert_ne.
  - unfold markCommandFinished. destruct (decide (s' = s)) as [->|Hne].
    + rewrite Hagree. destruct (commandClientMap c2 !! s) eqn:Hk; simpl.
      * by rewrite !lookup_insert_eq.
      * by rewrite Hagree.
    + destruct (commandClientMap c1 !! s'), (commandClientMap c2 !! s');
        simpl; rewrite ?lookup_insert_ne; done.
Qed.

Lemma replay_untouched now s tr : ∀ c,
  Forall (λ e, touches s e = false) tr →
  commandClientMap (replay now tr c) !! s = commandClientMap c !! s.
Proof.
  induction tr as [|e tr IH]; intros c Hall; [done|].
  apply Forall_cons in Hall as [He Hall].
  rewrite replay_cons, IH by done. by apply once_untouched.
Qed.

Lemma replay_agree now s tr : ∀ c1 c2,
  commandClientMap c1 !! s = commandClientMap c2 !! s →
  commandClientMap (replay now tr c1) !! s
  = commandClientMap (replay now tr c2) !! s.
Proof.
  induction tr as [|e tr IH]; intros c1 c2 Hagree; [done|].
  rewrite !replay_cons. by apply IH, once_agree.
Qed.

Lemma weave_left now s sched : ∀ tr1 tr2 c1 c2,
  Forall (λ e, touches s e = false) tr2 →
  commandClientMap c1 !! s = commandClientMap c2 !! s →
  commandClientMap (replay now (weave sched tr1 tr2) c1) !! s
  = commandClientMap (replay now tr1 c2) !! s.
Proof.
  induction sched as [|first sched IH]; intros tr1 tr2 c1 c2 Hall Hagree.
  - cbn [weave]. rewrite replay_app, replay_untouched by done.
    by apply replay_agree.
  - cbn [weave]. destruct tr1 as [|x tr1].
    { by rewrite replay_untouched. }
    destruct tr2 as [|y tr2]; [by apply replay_agree|].
    destruct first; rewrite !replay_cons.
    + by apply IH, once_agree.
    + apply Forall_cons in Hall as [Hy Hall].
      rewrite <- (replay_cons now x tr1 c2). apply IH; [done|].
      by rewrite once_untouched.
Qed.

Lemma weave_right now s sched : ∀ tr1 tr2 c1 c2,
  Forall (λ e, touches s e = false) tr1 →
  commandClientMap c1 !! s = commandClientMap c2 !! s →
  commandClientMap (replay now (weave sched tr1 tr2) c1) !! s
  = commandClientMap (replay now tr2 c2) !! s.
Proof.
  induction sched as [|first sched IH]; intros tr1 tr2 c1 c2 Hall Hagree.
  - cbn [weave]. rewrite replay_app. apply replay_agree.
    by rewrite replay_untouched.
  - cbn [weave]. destruct tr1 as [|x tr1]; [by apply replay_agree|].
    destruct tr2 as [|y tr2].
    { by rewrite replay_untouched. }
    destruct first; rewrite !replay_cons.
    + apply Forall_cons in Hall as [Hx Hall].
      rewrite <- (replay_cons now y tr2 c2). apply IH; [done|].
      by rewrite once_untouched.
    + by apply IH, once_agree.
Qed.

Lemma weave_elem {A} (sched : list bool) : ∀ (a b : list A) x,
  x ∈ weave sched a b → x ∈ a ∨ x ∈ b.
Proof.
  induction sched as [|first sched IH]; intros a b x; cbn [weave].
  - by rewrite elem_of_app.
  - destruct a as [|u a]; [by right|]. destruct b as [|v b]; [by left|].
    destruct first; rewrite !elem_of_cons; intros [->|Hin]; eauto;
      apply IH in Hin; rewrite ?elem_of_cons in Hin; naive_solver.
Qed.

Lemma execute_touches background r o s :
  req_session r ≠ s →
  Forall (λ e, touches s e = false) (trace (execute background r o)).
Proof.
  intros Hne. apply Forall_forall. intros e He.
  assert (Hcases : (∃ h, e = Hook h)
                   ∨ ∃ a, e = Registry a ∧ session_of a = req_session r).
  { unfold execute, runBackgroundCommand, runCommand in He.
    destruct background.
    - destruct (ob_descriptor o); cbn [trace] in He.
      + apply list_elem_of_singleton in He. eauto.
      + apply elem_of_cons in He as [->|He]; [by eauto|].
        apply weave_elem in He as [He|He].
        * apply list_elem_of_singleton in He. eauto.
        * apply list_elem_of_fmap in He as (a & -> & Ha). right.
          exists a. split; [done|].
          unfold Command.runBackgroundCommand in Ha.
          destruct (ob_start o), (ob_wait o);
            repeat (apply elem_of_cons in Ha as [->|Ha]; [done|]);
            by apply elem_of_nil in Ha.
    - destruct (ob_descriptor o); cbn [trace] in He;
        [by apply elem_of_nil in He|].
      destruct (ob_start o); cbn [trace] in He.
      + apply elem_of_app in He as [He|He].
        * apply weave_elem in He as [He|He].
          -- repeat (apply elem_of_cons in He as [->|He]; [by eauto|]).
             by apply elem_of_nil in He.
          -- left. unfold tailers in He.
             apply weave_elem in He as [He|He];
               apply list_elem_of_fmap in He as (l & -> & _); eauto.
        * destruct (ob_wait o);
            repeat (apply elem_of_cons in He as [->|He]; [by eauto|]);
            by apply elem_of_nil in He.
      + repeat (apply elem_of_cons in He as [->|He]; [by eauto|]).
        by apply elem_of_nil in He. }
  destruct Hcases as [[h ->]|(a & -> & Ha)]; [done|].
  simpl. rewrite Ha. by apply bool_decide_eq_false.
Qed.

(** X21 two commands at once: two command executions, in the foreground
    or in the background, under different session ids and with their
    steps in any order, leave each session with the status, and the
    readable output, it has when its command runs alone. *)
Theorem commands_do_not_interfere (bg1 bg2 : bool) (r1 r2 : commandRequest)
    (o1 o2 : observation) (sched : list bool) (c : Controller) (now : Z) :
  req_session r1 ≠ req_session r2 →
  let tr1 := trace (execute bg1 r1 o1) in
  let tr2 := trace (execute bg2 r2 o2) in
  let both := replay now (weave sched tr1 tr2) c in
  GetCommandStatus both (req_session r1)
  = GetCommandStatus (replay now tr1 c) (req_session r1)
  ∧ GetCommandStatus both (req_session r2)
    = GetCommandStatus (replay now tr2 c) (req_session r2)
  ∧ (∀ fs cursor,
       SeekBackgroundCommandOutput both fs (req_session r1) cursor
       = SeekBackgroundCommandOutput (replay now tr1 c) fs (req_session r1)
           cursor)
  ∧ (∀ fs cursor,
       SeekBackgroundCommandOutput both fs (req_session r2) cursor
       = SeekBackgroundCommandOutput (replay now tr2 c) fs (req_session r2)
           cursor).
Proof.
  intros Hne tr1 tr2 both.
  assert (H1 : commandClientMap both !! req_session r1
               = commandClientMap (replay now tr1 c) !! req_session r1).
  { apply weave_left; [|done]. by apply execute_touches. }
  assert (H2 : commandClientMap both !! req_session r2
               = commandClientMap (replay now tr2 c) !! req_session r2).
  { apply weave_right; [|done]. by apply execute_touches. }
  unfold GetCommandStatus, SeekBackgroundCommandOutput, commandSnapshot.
  rewrite H1, H2. done.
Qed.

Lemma commands_do_not_interfere_witness :
  let r1 := {| req_session := "s1"; req_Code := "true";
               req_stdoutPath := "/tmp/s1.stdout";
               req_stderrPath := "/tmp/s1.stderr"; req_startAt := 100 |} in
  let r2 := {| req_session := "s2"; req_Code := "sleep 9";
               req_stdoutPath := "/tmp/s2.output";
               req_stderrPath := "/tmp/s2.output"; req_startAt := 101 |} in
  let o := {| ob_descriptor := None; ob_start := StartOk 42;
              ob_wait := WaitOk;
              ob_stdout_ticks := []; ob_stdout := [];
              ob_stderr_ticks := []; ob_stderr := [];
              ob_elapsed := 5; ob_tailers := []; ob_main := [] |} in
  GetCommandStatus
    (replay 200
       (weave [false; true; false]
          (trace (execute false r1 o)) (trace (execute true r2 o)))
       (NewController "" "")) "s1"
  = GetCommandStatus
      (replay 200 (trace (execute false r1 o)) (NewController "" "")) "s1".
Proof.
  intros r1 r2 o.
  refine (proj1 (commands_do_not_interfere false true r1 r2 o o
                   [false; true; false] (NewController "" "") 200 _)).
  discriminate.
Defined.

Lemma step_persist e st st' s :
  step e st = Some st' →
  is_Some (commandClientMap (ctrl st) !! s) →
  is_Some (commandClientMap (ctrl st') !! s)
  ∧ jupyterClientMap (ctrl st') = jupyterClientMap (ctrl st).
Proof.
  intros Hstep Hs. destruct e as [r w0 w|r w0 w|i now]; simpl in Hstep.
  - by simplify_eq.
  - by simplify_eq.
  - destruct (threads st !! i) as [[|a rest]|]; simplify_eq. simpl.
    destruct a as [s' k|s' code msg]; simpl.
    + split; [|done]. destruct (decide (s' = s)) as [->|Hne].
      * rewrite lookup_insert_eq. eauto.
      * by rewrite lookup_insert_ne.
    + unfold markCommandFinished.
      destruct (commandClientMap (ctrl st) !! s') eqn:Hk; [|done]. simpl.
      split; [|done]. destruct (decide (s' = s)) as [->|Hne].
      * rewrite lookup_insert_eq. eauto.
      * by rewrite lookup_insert_ne.
Qed.

(** X22 command records are kept: whatever commands are started and
    however their registry updates are scheduled, a command session that
    is registered stays registered, also after the command has finished,
    and the kernel contexts are not touched. So an interrupt for the id
    of a command that has long finished still runs [killPid] on a pid the
    registry recorded for it. *)
Theorem command_records_persist (es : list Command.event) (st st' : system)
    (s : string) :
  run es st = Some st' →
  is_Some (commandClientMap (ctrl st) !! s) →
  is_Some (commandClientMap (ctrl st') !! s)
  ∧ jupyterClientMap (ctrl st') = jupyterClientMap (ctrl st)
  ∧ (jupyterClientMap (ctrl st) !! s = None →
     ∃ kernel,
       commandClientMap (ctrl st') !! s = Some kernel
       ∧ Interrupt.Interrupt (ctrl st') s = Interrupt.killPid (pid kernel)).
Proof.
  revert st. induction es as [|e es IH]; intros st Hrun Hs.
  - simpl in Hrun. simplify_eq. split; [done|]. split; [done|].
    intros Hj. destruct Hs as [k Hk]. exists k. split; [done|].
    unfold Interrupt.Interrupt, getJupyterKernel, getCommandKernel.
    by rewrite Hj, Hk.
  - simpl in Hrun. destruct (step e st) as [st1|] eqn:Hstep; [|done].
    destruct (step_persist e st st1 s Hstep Hs) as [Hs1 Hj1].
    destruct (IH st1 Hrun Hs1) as (Hs' & Hj' & Hint).
    split; [done|]. split; [by rewrite Hj'|].
    intros Hj. apply Hint. by rewrite Hj1.
Qed.

Lemma command_records_persist_witness :
  let st :=
    {| ctrl := storeCommandKernel "s1" (Interrupt.sample_command 42)
                 (NewController "" "");
       threads := [[Mark "s1" 0 ""]] |} in
  let st' :=
    {| ctrl := markCommandFinished "s1" 0 "" 200 (ctrl st);
       threads := [[]] |} in
  is_Some (commandClientMap (ctrl st') !! "s1").
Proof.
  intros st st'.
  refine (proj1 (command_records_persist [Locked 0 200] st st' "s1" eq_refl _)).
  by eexists.
Defined.

End IsolationFacts.

Module RoutingFacts.
Import Text SQL.

Lemma fields_from_spaces ws s :
  Forall (λ r, IsSpace r = true) ws →
  fields_from (ws ++ s) [] = fields_from s [].
Proof.
  induction 1 as [|r ws Hr _ IH]; [done|]. simpl. by rewrite Hr.
Qed.

Lemma fields_from_word word : ∀ cur rest,
  Forall (λ r, IsSpace r = false) word →
  cur ++ word ≠ [] →
  rest = [] ∨ (∃ sp rest', rest = sp :: rest' ∧ IsSpace sp = true) →
  ∃ more, fields_from (word ++ rest) cur = (cur ++ word) :: more.
Proof.
  induction word as [|r word IH]; intros cur rest Hword Hne Hrest.
  - rewrite app_nil_r in *. simpl.
    destruct Hrest as [->|(sp & rest' & -> & Hsp)]; simpl.
    + destruct cur; [done|by eexists].
    + rewrite Hsp. destruct cur; [done|by eexists].
  - apply Forall_cons in Hword as [Hr Hword]. simpl. rewrite Hr.
    destruct (IH (cur ++ [r]) rest Hword) as [more Hmore];
      [by destruct cur|done|].
    exists more. by rewrite Hmore, <- app_assoc.
Qed.

(** X23 which executor a statement gets: the kind of a statement is its
    first run of code points that are not white space, uppercased;
    leading white space and what follows the first token do not matter.
    With the database open and answering, the statement runs as a query
    exactly when that token uppercases to [SELECT], and as an execute
    (reporting [affected_rows]) in every other case, a SELECT in
    parentheses or behind a WITH clause included. *)
Theorem getQueryType_first_token (upper : rune → rune) (value : Type)
    (Sprint : value → string) (encode : json → string)
    (db : database value) (session : string) (elapsed : Z)
    (ws word rest : text) :
  Forall (λ r, IsSpace r = true) ws →
  word ≠ [] →
  Forall (λ r, IsSpace r = false) word →
  rest = [] ∨ (∃ sp rest', rest = sp :: rest' ∧ IsSpace sp = true) →
  let code := ws ++ word ++ rest in
  getQueryType upper code = Return (ToUpper upper word)
  ∧ (initDB db = None → PingContext db = None →
     runSQL upper Sprint encode db session elapsed code
     = if decide (ToUpper upper word = of_string "SELECT")
       then (OnExecuteInit session
             :: (executeSelectSQLQuery Sprint encode db elapsed code).1,
             Return (executeSelectSQLQuery Sprint encode db elapsed code).2)
       else (OnExecuteInit session
             :: (executeUpdateSQLQuery encode db elapsed code).1,
             Return (executeUpdateSQLQuery encode db elapsed code).2)).
Proof.
  intros Hws Hne Hword Hrest code.
  assert (Hkind : getQueryType upper code = Return (ToUpper upper word)).
  { unfold getQueryType, Fields. subst code.
    rewrite fields_from_spaces by done.
    destruct (fields_from_word word [] rest Hword Hne Hrest) as [more ->].
    done. }
  split; [done|]. intros Hinit Hping.
  unfold runSQL. rewrite Hinit, Hping, Hkind.
  case_decide.
  - by destruct (executeSelectSQLQuery Sprint encode db elapsed code).
  - by destruct (executeUpdateSQLQuery encode db elapsed code).
Qed.

Lemma getQueryType_first_token_witness :
  getQueryType ascii_upper (of_string "  select id from t")
  = Return (of_string "SELECT")
  ∧ getQueryType ascii_upper (of_string "(select 1)")
    = Return (of_string "(SELECT")
  ∧ getQueryType ascii_upper (of_string "with x as (select 1) select * from x")
    = Return (of_string "WITH").
Proof.
  split; [|split].
  - refine (proj1 (getQueryType_first_token ascii_upper Z pretty print_json
                     (sample_db [] 0) "s1" 0
                     (of_string "  ") (of_string "select")
                     (of_string " id from t") _ _ _ _)).
    + by repeat constructor.
    + done.
    + by repeat constructor.
    + right. by eexists _, _.
  - refine (proj1 (getQueryType_first_token ascii_upper Z pretty print_json
                     (sample_db [] 0) "s1" 0
                     [] (of_string "(select") (of_string " 1)") _ _ _ _)).
    + constructor.
    + done.
    + by repeat constructor.
    + right. by eexists _, _.
  - refine (proj1 (getQueryType_first_token ascii_upper Z pretty print_json
                     (sample_db [] 0) "s1" 0
                     [] (of_string "with")
                     (of_string " x as (select 1) select * from x") _ _ _ _)).
    + constructor.
    + done.
    + by repeat constructor.
    + right. by eexists _, _.
Defined.

End RoutingFacts.
